(** * Medieval Siege Simulator: collision, damage and projectile physics

    A shallow embedding of the collision/damage core of the simulator
    (js/managers/CollisionManager.js, js/managers/collision/CollisionDetector.js,
    js/managers/damage/DamageHandler.js, js/physics.js, the class Validation
    of js/managers/effects/ImpactEffects.js and the helpers of js/utils.js)
    and the properties the specification states about it.

    Conventions of the embedding.
    - A JavaScript number is an exact rational ([Q]); NaN and the infinities
      are not represented.  Equality of numbers is [==] ([Qeq]).  Where a
      result depends on the rounding of the arithmetic (the damage of an
      explosion, which is floored), every operation is rounded to a double
      as the program does ([JS.double], module [Double]).
    - [Math.sqrt], [Math.pow] and [Math.random] are parameters ([Section]
      variables): a statement holds for whatever values they return.  The
      concrete [Qsqrt] and [Qpow15] below are used to run examples.
    - Scene objects live in a heap indexed by object identity, so that two
      target wrappers holding the same mesh see each other's writes.
    - An optional field ([undefined] in JavaScript) is an [option].
    - An [async] function is cut at its [await]s: the part before the first
      [await] runs inside the caller, the rest is a task queued on the
      event loop. *)

From Stdlib Require Import QArith Qminmax Qround Qabs Lia Lqa.
From stdpp Require Import base option list gmap strings.

Local Open Scope Q_scope.

(** ** JavaScript numbers *)

Module JS.

(** [!!x] for a number: everything but 0 is truthy (NaN is not modelled). *)
Definition truthy (x : Q) : bool := negb (Qeq_bool x 0).

(** [x || d] where [x] is a number or [undefined]. *)
Definition or_default (x : option Q) (d : Q) : Q :=
  match x with
  | Some v => if truthy v then v else d
  | None => d
  end.

(** [!x] where [x] is a number or [undefined]. *)
Definition falsy (x : option Q) : bool :=
  match x with
  | Some v => negb (truthy v)
  | None => true
  end.

(** [x || d] for a counter. *)
Definition nat_or (x : option nat) (d : nat) : nat :=
  match x with
  | Some (S n) => S n
  | _ => d
  end.

(** Truthiness of a string: the empty string is falsy. *)
Definition nonempty (s : string) : bool := negb (String.eqb s "").

Definition ltb (a b : Q) : bool := negb (Qle_bool b a).
Definition leb (a b : Q) : bool := Qle_bool a b.

(** [Math.floor], as a number again. *)
Definition floor (x : Q) : Q := inject_Z (Qfloor x).

(** [Utils.clamp(value, min, max)] of js/utils.js. *)
Definition clamp (value lo hi : Q) : Q := Qmax lo (Qmin hi value).

(** A number of [nat] as a JavaScript number. *)
Definition of_nat (n : nat) : Q := inject_Z (Z.of_nat n).

(** Rounding to the nearest integer, ties to the even one. *)
Definition round_half_even (q : Q) : Z :=
  let f := Qfloor q in
  match Qcompare (q - inject_Z f) (1 # 2) with
  | Lt => f
  | Gt => (f + 1)%Z
  | Eq => if Z.even f then f else (f + 1)%Z
  end.

(** [floor (log2 a)] for a positive [a]. *)
Definition ilog2 (a : Q) : Z :=
  let e := (Z.log2 (Qnum a) - Z.log2 (Zpos (Qden a)))%Z in
  if Qle_bool (Qpower 2 e) a then e else (e - 1)%Z.

(** The double nearest to a real number, ties to even: 53 bits of
    significand, exponents from -1022 on (below, the spacing stays
    [2^-1074]).  A JavaScript operation [+ - * /] returns the double of the
    exact result.  Overflow to Infinity is not represented. *)
Definition double (x : Q) : Q :=
  if Qeq_bool x 0 then 0
  else
    let e := Z.max (ilog2 (Qabs x)) (-1022) in
    let ulp := Qpower 2 (e - 52) in
    Qred (inject_Z (round_half_even (x / ulp)) * ulp).

(** [Math.sqrt] on a double, correctly rounded: the square root is taken
    with some 64 bits more than the result keeps; a square root that is not
    itself a double is never half way between two doubles. *)
Definition sqrt (x : Q) : Q :=
  if Qle_bool x 0 then 0
  else
    let k := (64 + Z.abs (ilog2 x))%Z in
    let root := Z.sqrt (Qfloor (x * Qpower 4 k)) in
    double (inject_Z (2 * root + 1) / Qpower 2 (k + 1)).

End JS.

(** A rational square root: [sqrt (n/d) = sqrt (n*d) / d], with the integer
    square root on top.  Exact when [n*d] is a perfect square. *)
Definition Qsqrt (q : Q) : Q := Z.sqrt (Qnum q * Zpos (Qden q)) # Qden q.

(** [Math.pow(x, 1.5) = x * sqrt x]: the core raises to no other power. *)
Definition Qpow15 (x : Q) : Q := x * Qsqrt x.

(** ** three.js vectors and boxes *)

Record Vector3 := mkVector3 { vec_x : Q; vec_y : Q; vec_z : Q }.

Record Box3 := mkBox3 { box_min : Vector3; box_max : Vector3 }.

Module THREE.

Section Math.
Variable Math_sqrt : Q -> Q.

(** Vector3.length() *)
Definition length (v : Vector3) : Q :=
  Math_sqrt (vec_x v * vec_x v + vec_y v * vec_y v + vec_z v * vec_z v).

(** Vector3.distanceTo(v) *)
Definition distanceTo (a b : Vector3) : Q :=
  let dx := vec_x a - vec_x b in
  let dy := vec_y a - vec_y b in
  let dz := vec_z a - vec_z b in
  Math_sqrt (dx * dx + dy * dy + dz * dz).
End Math.

(** Box3.clampPoint(point, target): componentwise clamp into the box. *)
Definition clampPoint (b : Box3) (p : Vector3) : Vector3 :=
  mkVector3 (JS.clamp (vec_x p) (vec_x (box_min b)) (vec_x (box_max b)))
            (JS.clamp (vec_y p) (vec_y (box_min b)) (vec_y (box_max b)))
            (JS.clamp (vec_z p) (vec_z (box_min b)) (vec_z (box_max b))).

End THREE.

(** ** Validation (the class at the end of
    js/managers/effects/ImpactEffects.js, imported as js/validation.js) *)

Module Validation.

(** isValidNumber(value):
    [typeof value === "number" && !isNaN(value) && isFinite(value)].  A
    value that is not a number ([undefined]) is [None]; a number of the
    embedding is a rational, which is neither NaN nor infinite. *)
Definition isValidNumber (value : option Q) : bool :=
  match value with
  | Some _ => true
  | None => false
  end.

(** sanitizeNumber(value, defaultValue) *)
Definition sanitizeNumber (value : option Q) (defaultValue : Q) : Q :=
  if isValidNumber value then default defaultValue value else defaultValue.

(** isValidVector3(vector) *)
Definition isValidVector3 (vector : option Vector3) : bool :=
  match vector with
  | Some v =>
    isValidNumber (Some (vec_x v)) && isValidNumber (Some (vec_y v))
    && isValidNumber (Some (vec_z v))
  | None => false
  end.

(** sanitizeVector3(vector, defaultVector); the callers that pass one
    argument get [new THREE.Vector3()], the zero vector, as the second. *)
Definition sanitizeVector3 (vector : option Vector3) (defaultVector : Vector3)
  : Vector3 :=
  match vector with
  | None => defaultVector
  | Some v =>
    mkVector3 (sanitizeNumber (Some (vec_x v)) (vec_x defaultVector))
              (sanitizeNumber (Some (vec_y v)) (vec_y defaultVector))
              (sanitizeNumber (Some (vec_z v)) (vec_z defaultVector))
  end.

End Validation.

(** ** Arithmetic in double precision *)

Module Double.

Definition add (a b : Q) : Q := JS.double (a + b).
Definition sub (a b : Q) : Q := JS.double (a - b).
Definition mul (a b : Q) : Q := JS.double (a * b).
Definition div (a b : Q) : Q := JS.double (a / b).

(** Vector3.distanceTo(v): [Math.sqrt(dx * dx + dy * dy + dz * dz)] with
    every operation rounded. *)
Definition distanceTo (Math_sqrt : Q -> Q) (a b : Vector3) : Q :=
  let dx := sub (vec_x a) (vec_x b) in
  let dy := sub (vec_y a) (vec_y b) in
  let dz := sub (vec_z a) (vec_z b) in
  Math_sqrt (add (add (mul dx dx) (mul dy dy)) (mul dz dz)).

End Double.

(** ** Scene objects, targets, projectiles *)

(** The [userData] bag of a scene object (the fields the core reads). *)
Record UserData := mkUserData {
  ud_type : option string;
  health : option Q;
  maxHealth : option Q;
  isDragging : bool;
  isExploding : bool;
  explosive : bool;
  isProjectile : bool
}.

(** A THREE.Object3D of the scene.  [inScene] is [parent === scene];
    [worldBox] is what [new THREE.Box3().setFromObject(object)] computes
    from the object's geometry as it is now. *)
Record Object3D := mkObject3D {
  uuid : string;
  name : string;
  position : Vector3;
  worldBox : Box3;
  inScene : bool;
  userData : UserData
}.

(** Objects by identity.  A wrapper whose [mesh] is not in the heap models a
    wrapper whose [mesh] is null. *)
Definition Heap := gmap nat Object3D.

(** The target wrapper [{ mesh, type, position, boundingBox }] built by
    getCollisionTargets; [t_explosive] is the [explosive] field the dummy
    wrappers of the explosion paths carry. *)
Record Target := mkTarget {
  mesh : nat;
  type : string;
  boundingBox : option Box3;
  t_explosive : bool
}.

(** A projectile: its position and the fields of its [userData]. *)
Record Projectile := mkProjectile {
  p_position : Vector3;
  p_velocity : option Vector3;
  p_radius : option Q;
  p_bounces : option nat;
  p_maxBounces : option nat;
  p_gravity : Q;
  p_damage : option Q;
  p_active : bool;
  p_hasCollided : bool;
  p_onCollision : bool
}.

Definition set_health (h mh : option Q) (u : UserData) : UserData :=
  mkUserData (ud_type u) h mh (isDragging u) (isExploding u) (explosive u)
             (isProjectile u).

Definition set_exploding (e x : bool) (u : UserData) : UserData :=
  mkUserData (ud_type u) (health u) (maxHealth u) (isDragging u) e x
             (isProjectile u).

Definition with_userData (u : UserData) (o : Object3D) : Object3D :=
  mkObject3D (uuid o) (name o) (position o) (worldBox o) (inScene o) u.

Definition with_inScene (b : bool) (o : Object3D) : Object3D :=
  mkObject3D (uuid o) (name o) (position o) (worldBox o) b (userData o).

(** What the core asks of its collaborators (effects manager, impact
    effects, audio, window events), in the order of the calls. *)
Inductive Effect :=
| DustEffect (at_ : Vector3) (scale : Q)
| CraterEffect (at_ : Vector3) (scale : Q)
| ExplosionEffect (at_ : Vector3) (scale : Q)
| StoneImpactEffect (at_ : Vector3)
| StoneDebrisEffect (at_ : Vector3)
| MetalImpactEffect (at_ : Vector3)
| SiegeHitEffect (at_ : Vector3)
| DestructionEffect (material : string) (at_ : Vector3)
| DestructionEvent (target : Target)
| PlaySound (sound : string) (volume : Q)
| OnCollision (surface : string) (at_ velocity : Vector3) (force : Q)
              (final : bool).

(** Work the core leaves on the event loop: the rest of an [async] function
    after the [await] it stopped at, or a [setTimeout] callback.  [pid]
    names the projectile concerned. *)
Inductive Task :=
| ChainReaction (barrel : Target) (at_ : Vector3)
| RemoveBarrel (barrel : Target)
| Detonate (delay : Q) (child : nat)
| FinishTargetCollision (pid : nat) (target : Target) (damageDealt : Q)
| FinishDestroy (target : Target) (at_ : Vector3)
| Deactivate (pid : nat).

(** ** CollisionDetector (js/managers/collision/CollisionDetector.js) *)

Module CollisionDetector.

(** The detector's own state: the bounding-box cache, keyed by uuid, and the
    one time stamp of the last cache write. *)
Record t := mk {
  boundingBoxCache : gmap string Box3;
  lastCacheUpdate : Z
}.

(** [this.cacheTimeout = 100], set by the constructor and never reassigned. *)
Definition cacheTimeout : Z := 100.

Definition new : t := mk ∅ 0.

(** getBoundingBox(object), called when [Date.now()] is [now].  Returns the
    box (null for a null object) and the detector after the call. *)
Definition getBoundingBox (d : t) (now : Z) (object : option Object3D)
  : option Box3 * t :=
  match object with
  | None => (None, d)
  | Some o =>
    let objectId := uuid o in
    let recompute :=
      let box := worldBox o in
      let box :=
        mkBox3
          (Validation.sanitizeVector3 (Some (box_min box)) (mkVector3 0 0 0))
          (Validation.sanitizeVector3 (Some (box_max box)) (mkVector3 0 0 0))
      in
      (Some box, mk (<[objectId := box]> (boundingBoxCache d)) now) in
    match boundingBoxCache d !! objectId with
    | Some cached =>
      if (now - lastCacheUpdate d <? cacheTimeout)%Z
      then (Some cached, d)
      else recompute
    | None => recompute
    end
  end.

(** clearCache() *)
Definition clearCache (d : t) : t := mk ∅ (lastCacheUpdate d).

(** The object literal of getCollisionRadius. *)
Definition radii : gmap string Q :=
  {[ "barrel" := 1.0; "wall" := 2.0; "tower" := 3.0; "siegeTower" := 2.5;
     "ground" := 0.5; "default" := 1.0 ]}.

(** getCollisionRadius(targetType): [radii[targetType] || radii.default]. *)
Definition getCollisionRadius (targetType : string) : Q :=
  Validation.sanitizeNumber
    (Some (JS.or_default (radii !! targetType)
             (default 1.0 (radii !! "default"))))
    1.0.

(** The [{x, y, z}] bounds of isOutOfBounds. *)
Record Range := mkRange { r_min : Q; r_max : Q }.
Record Bounds := mkBounds { b_x : Range; b_y : Range; b_z : Range }.

Definition defaultBounds : Bounds :=
  mkBounds (mkRange (-50) 50) (mkRange (-10) 100) (mkRange (-50) 50).

(** isOutOfBounds(position, bounds) *)
Definition isOutOfBounds (position : Vector3) (bounds : option Bounds) : bool :=
  let position :=
    Validation.sanitizeVector3 (Some position) (mkVector3 0 0 0) in
  let activeBounds := default defaultBounds bounds in
  JS.ltb (vec_x position) (r_min (b_x activeBounds))
  || JS.ltb (r_max (b_x activeBounds)) (vec_x position)
  || JS.ltb (vec_y position) (r_min (b_y activeBounds))
  || JS.ltb (r_max (b_y activeBounds)) (vec_y position)
  || JS.ltb (vec_z position) (r_min (b_z activeBounds))
  || JS.ltb (r_max (b_z activeBounds)) (vec_z position).

Section Math.
Variable Math_sqrt : Q -> Q.

(** checkSphereBoxCollision(spherePos, sphereRadius, box) *)
Definition checkSphereBoxCollision (spherePos : Vector3) (sphereRadius : Q)
    (box : option Box3) : bool :=
  match box with
  | None => false
  | Some box =>
    let spherePos :=
      Validation.sanitizeVector3 (Some spherePos) (mkVector3 0 0 0) in
    let sphereRadius := Validation.sanitizeNumber (Some sphereRadius) 1.0 in
    let closestPoint :=
      Validation.sanitizeVector3 (Some (THREE.clampPoint box spherePos))
        (mkVector3 0 0 0) in
    let distance := THREE.distanceTo Math_sqrt spherePos closestPoint in
    JS.leb distance sphereRadius
  end.

(** The local [velocityScale] of checkProjectileTargetCollision. *)
Definition velocityScale (projectile : Projectile) : Q :=
  match p_velocity projectile with
  | Some velocity => Qmin (THREE.length Math_sqrt velocity * 0.1) 1.5
  | None => 1.0
  end.

(** The local [projectileRadius] of checkProjectileTargetCollision:
    [baseRadius * velocityScale] with [baseRadius = radius || 0.3]. *)
Definition projectileRadius (projectile : Projectile) : Q :=
  let baseRadius := JS.or_default (p_radius projectile) 0.3 in
  baseRadius * velocityScale projectile.

(** checkProjectileTargetCollision(projectile, target).  [target.position]
    is the mesh's own position object.  The detector is threaded because
    a wrapper without a bounding box asks getBoundingBox for one. *)
Definition checkProjectileTargetCollision (d : t) (now : Z) (hp : Heap)
    (projectile : Projectile) (target : Target) : bool * t :=
  match hp !! mesh target with
  | None => (false, d)
  | Some m =>
    let projectilePos := p_position projectile in
    let targetPos := position m in
    if String.eqb (type target) "wall" || String.eqb (type target) "tower"
    then
      let '(box, d') :=
        match boundingBox target with
        | Some b => (Some b, d)
        | None => getBoundingBox d now (Some m)
        end in
      (checkSphereBoxCollision projectilePos (projectileRadius projectile)
         box, d')
    else
      let collisionRadius := getCollisionRadius (type target) in
      let distance := THREE.distanceTo Math_sqrt projectilePos targetPos in
      let totalRadius := collisionRadius + projectileRadius projectile in
      (JS.leb distance totalRadius, d)
  end.
End Math.

(** The wrappers getCollisionTargets pushes for one traversed object. *)
Definition targetsOfObject (d : t) (now : Z) (id : nat) (object : Object3D)
  : list Target * t :=
  if isProjectile (userData object) then ([], d)
  else
    let '(typed, d1) :=
      match ud_type (userData object) with
      | Some ty =>
        if JS.nonempty ty then
          let '(box, d') := getBoundingBox d now (Some object) in
          ([mkTarget id ty box false], d')
        else ([], d)
      | None => ([], d)
      end in
    let has_type :=
      match ud_type (userData object) with
      | Some ty => JS.nonempty ty
      | None => false
      end in
    let '(named, d2) :=
      if String.eqb (name object) "ground" then
        let '(box, d') := getBoundingBox d1 now (Some object) in
        ([mkTarget id "ground" box false], d')
      else if (String.eqb (name object) "wall"
               || String.eqb (name object) "tower"
               || String.eqb (name object) "siegeTower")
              && negb has_type then
        let '(box, d') := getBoundingBox d1 now (Some object) in
        ([mkTarget id (name object) box false], d')
      else ([], d1) in
    (typed ++ named, d2).

(** getCollisionTargets(scene): the scene is traversed in the order of
    [children]; each object of the list is a leaf. *)
Fixpoint getCollisionTargets (d : t) (now : Z) (hp : Heap)
    (children : list nat) : list Target * t :=
  match children with
  | [] => ([], d)
  | id :: rest =>
    match hp !! id with
    | None => getCollisionTargets d now hp rest
    | Some object =>
      let '(ts, d1) := targetsOfObject d now id object in
      let '(ts', d2) := getCollisionTargets d1 now hp rest in
      (ts ++ ts', d2)
    end
  end.

End CollisionDetector.

(** ** DamageHandler (js/managers/damage/DamageHandler.js) *)

Module DamageHandler.

(** getBaseHealthForExplosion(targetType) *)
Definition getBaseHealthForExplosion (targetType : string) : Q :=
  if String.eqb targetType "wall" then 200
  else if String.eqb targetType "tower" then 200
  else if String.eqb targetType "siegeTower" then 200
  else if String.eqb targetType "barrel" then 50
  else 100.

(** An entry [{ target, destroyed }] of the list explosionDamage returns. *)
Record Info := mkInfo { target : Target; destroyed : bool }.

(** The lazy initialisation of [health] and [maxHealth] inside
    explosionDamage. *)
Definition ensureHealth (targetType : string) (u : UserData) : UserData :=
  let u1 :=
    match health u with
    | None =>
      let maxHealth := getBaseHealthForExplosion targetType in
      set_health (Some maxHealth) (Some maxHealth) u
    | Some _ => u
    end in
  match maxHealth u1, health u1 with
  | None, Some h =>
    set_health (Some h)
      (Some (Qmax h (getBaseHealthForExplosion targetType))) u1
  | _, _ => u1
  end.

Section Math.
Variable Math_sqrt : Q -> Q.

(** The body of the [targets.forEach] of explosionDamage: the heap after
    the visit and the entry pushed.  The damage is floored, so the
    arithmetic is that of the program: every operation returns a double.
    applyDamageVisuals touches only the material of the mesh, which the
    heap does not hold. *)
Definition explosionDamage_visit (center : Vector3) (radius maxDamage : Q)
    (hp : Heap) (targetWrapper : Target) : Heap * Info :=
  match hp !! mesh targetWrapper with
  | None => (hp, mkInfo targetWrapper false)
  | Some m =>
    let distance := Double.distanceTo Math_sqrt center (position m) in
    if JS.ltb distance radius then
      let damageRatio := Double.sub 1 (Double.div distance radius) in
      let damage := JS.floor (Double.mul maxDamage damageRatio) in
      if negb (String.eqb (type targetWrapper) "ground") then
        let u := ensureHealth (type targetWrapper) (userData m) in
        match health u with
        | None => (hp, mkInfo targetWrapper false) (* ensureHealth set it *)
        | Some h =>
          let h' := Qmax 0 (Double.sub h damage) in
          let m' := with_userData (set_health (Some h') (maxHealth u) u) m in
          (<[mesh targetWrapper := m']> hp,
           mkInfo targetWrapper (JS.leb h' 0))
        end
      else (hp, mkInfo targetWrapper false)
    else (hp, mkInfo targetWrapper false)
  end.

(** explosionDamage(center, radius, maxDamage, targets) *)
Fixpoint explosionDamage (center : Vector3) (radius maxDamage : Q)
    (targets : list Target) (hp : Heap) : Heap * list Info :=
  match targets with
  | [] => (hp, [])
  | targetWrapper :: rest =>
    let '(hp1, info) :=
      explosionDamage_visit center radius maxDamage hp targetWrapper in
    let '(hp2, infos) := explosionDamage center radius maxDamage rest hp1 in
    (hp2, info :: infos)
  end.
End Math.

End DamageHandler.

(** ** CollisionManager (js/managers/CollisionManager.js) *)

Module CollisionManager.

(** The manager's view of the world between two event-loop turns.
    [children] is [scene.children] in order (each child a leaf);
    [effectsManager] tells whether one was given to the constructor;
    [randomCalls] counts the calls of [Math.random] made so far;
    [tasks] and [effects] grow at the end.  Debug mode is off, as the
    constructor leaves it. *)
Record World := mkWorld {
  heap : Heap;
  children : list nat;
  projectiles : gmap nat Projectile;
  detector : CollisionDetector.t;
  effectsManager : bool;
  randomCalls : nat;
  tasks : list Task;
  effects : list Effect
}.

Definition with_heap (hp : Heap) (w : World) : World :=
  mkWorld hp (children w) (projectiles w) (detector w) (effectsManager w)
          (randomCalls w) (tasks w) (effects w).

Definition with_children (cs : list nat) (w : World) : World :=
  mkWorld (heap w) cs (projectiles w) (detector w) (effectsManager w)
          (randomCalls w) (tasks w) (effects w).

Definition with_projectiles (ps : gmap nat Projectile) (w : World) : World :=
  mkWorld (heap w) (children w) ps (detector w) (effectsManager w)
          (randomCalls w) (tasks w) (effects w).

Definition with_detector (d : CollisionDetector.t) (w : World) : World :=
  mkWorld (heap w) (children w) (projectiles w) d (effectsManager w)
          (randomCalls w) (tasks w) (effects w).

Definition with_randomCalls (n : nat) (w : World) : World :=
  mkWorld (heap w) (children w) (projectiles w) (detector w) (effectsManager w)
          n (tasks w) (effects w).

Definition with_tasks (ts : list Task) (w : World) : World :=
  mkWorld (heap w) (children w) (projectiles w) (detector w) (effectsManager w)
          (randomCalls w) ts (effects w).

(** Calls into the collaborators. *)
Definition emit (es : list Effect) (w : World) : World :=
  mkWorld (heap w) (children w) (projectiles w) (detector w) (effectsManager w)
          (randomCalls w) (tasks w) (effects w ++ es).

(** Suspension at an [await], or a [setTimeout]. *)
Definition defer (ts : list Task) (w : World) : World :=
  with_tasks (tasks w ++ ts) w.

(** [this.scene.remove(object)]: a no-op unless the object is a child. *)
Definition scene_remove (id : nat) (w : World) : World :=
  if bool_decide (id ∈ children w) then
    with_children (filter (fun c => c ≠ id) (children w))
      (with_heap (alter (with_inScene false) id (heap w)) w)
  else w.

(** isValidProjectile(projectile) *)
Definition isValidProjectile (projectile : Projectile) : bool :=
  negb (p_hasCollided projectile) && bool_decide (is_Some (p_velocity projectile)).

(** deactivateProjectile(projectile); the delayed removal of the projectile
    from its parent is not tracked. *)
Definition deactivateProjectile (projectile : Projectile) : Projectile :=
  mkProjectile (p_position projectile) (p_velocity projectile)
    (p_radius projectile) (p_bounces projectile) (p_maxBounces projectile)
    (p_gravity projectile) (p_damage projectile) false true
    (p_onCollision projectile).

Definition deactivate (pid : nat) (w : World) : World :=
  with_projectiles (alter deactivateProjectile pid (projectiles w)) w.

(** getBaseHealth(targetType) *)
Definition getBaseHealth (targetType : string) : Q :=
  if String.eqb targetType "wall" then 200
  else if String.eqb targetType "tower" then 200
  else if String.eqb targetType "siegeTower" then 200
  else if String.eqb targetType "barrel" then 100
  else 300.

(** The object literal of getTargetResistance. *)
Definition resistances : gmap string Q :=
  {[ "wall" := 0.3; "tower" := 0.4; "siegeTower" := 0.2; "barrel" := 0 ]}.

(** getTargetResistance(target): [resistances[target.type] || 0]. *)
Definition getTargetResistance (target : Target) : Q :=
  JS.or_default (resistances !! type target) 0.

(** initializeTargetHealth(target), on the mesh of the target. *)
Definition initializeTargetHealth (target : Target) (o : Object3D) : Object3D :=
  let baseHealth := getBaseHealth (type target) in
  with_userData (set_health (Some baseHealth) (Some baseHealth) (userData o)) o.

(** applyDamage(target, damage): the heap after the call and the returned
    [actualDamage]; [None] is the TypeError of dereferencing a null mesh. *)
Definition applyDamage (hp : Heap) (target : Target) (damage : Q)
  : option (Heap * Q) :=
  o ← hp !! mesh target;
  let o1 := if JS.falsy (health (userData o))
            then initializeTargetHealth target o else o in
  let resistance := getTargetResistance target in
  let actualDamage := damage * (1 - resistance) in
  (* after the guard the field holds a number *)
  h ← health (userData o1);
  let o2 := with_userData
              (set_health (Some (Qmax 0 (h - actualDamage)))
                          (maxHealth (userData o1)) (userData o1)) o1 in
  Some (<[mesh target := o2]> hp, actualDamage).

(** shouldDestroyTarget(target) *)
Definition shouldDestroyTarget (hp : Heap) (target : Target) : bool :=
  match hp !! mesh target with
  | Some o =>
    match health (userData o) with
    | Some h => JS.leb h 0
    | None => false (* undefined <= 0 *)
    end
  | None => false
  end.

(** The argument [collisionData] of handleGroundCollision. *)
Record CollisionData := mkCollisionData {
  cd_velocity : option Vector3;
  cd_force : Q;
  cd_bounceCount : nat;
  cd_final : bool
}.

Section Math.
Variable Math_sqrt : Q -> Q.
Variable Math_pow : Q -> Q -> Q.
(** [random k] is what the [k]-th call of [Math.random()] returns. *)
Variable random : nat -> Q.

(** calculateDamage(projectile, impactForce) *)
Definition calculateDamage (projectile : Projectile) (impactForce : Q) : Q :=
  let baseProjectileDamage := JS.or_default (p_damage projectile) 50 in
  let forceMultiplier := Math_pow impactForce 1.5 in
  baseProjectileDamage * forceMultiplier.

(** The [impactSpeed] of handleGroundCollision:
    [collisionData?.force || (velocity ? velocity.length() / 10 : 0)]. *)
Definition impactSpeed (projectile : Projectile) (cd : CollisionData) : Q :=
  let velocity :=
    match cd_velocity cd with
    | Some v => Some v
    | None => p_velocity projectile
    end in
  JS.or_default (Some (cd_force cd))
    (match velocity with
     | Some v => THREE.length Math_sqrt v / 10
     | None => 0
     end).

(** The [impactForce] of handleGroundCollision. *)
Definition groundImpactForce (projectile : Projectile) (cd : CollisionData)
  : Q :=
  Qmin (impactSpeed projectile cd * 1.5) 2.0.

(** The calls handleGroundCollision makes on the effects manager. *)
Definition groundVisuals (position : Vector3) (impactForce : Q)
    (isFinalCollision : bool) : list Effect :=
  (if JS.ltb 0.8 impactForce then
     DustEffect position (impactForce * 0.6) ::
     (if JS.ltb 1.2 impactForce then
        let spreadDistance := impactForce * 0.3 in
        [ DustEffect
            (mkVector3 (vec_x position + (-1) * spreadDistance)
                       (vec_y position + 0.2) (vec_z position))
            (impactForce * 0.4);
          DustEffect
            (mkVector3 (vec_x position + 1 * spreadDistance)
                       (vec_y position + 0.2) (vec_z position))
            (impactForce * 0.4) ]
      else [])
   else [])
  ++
  (if JS.ltb 1.2 impactForce || isFinalCollision then
     let craterScale := if isFinalCollision then 1.0 else 0.6 in
     let effectiveForce :=
       if isFinalCollision then Qmax impactForce 1.5 else impactForce in
     [CraterEffect position (effectiveForce * craterScale)]
   else []).

(** handleGroundCollision(projectile, position, collisionData), up to the
    end or to its [await] on the impact sound. *)
Definition handleGroundCollision (w : World) (pid : nat)
    (projectile : Projectile) (position : Vector3) (cd : CollisionData)
  : World :=
  if p_hasCollided projectile then w
  else
    let isFinalCollision := cd_final cd in
    if JS.ltb 0.3 (impactSpeed projectile cd) || isFinalCollision then
      let impactForce := groundImpactForce projectile cd in
      let w1 :=
        if effectsManager w
        then emit (groundVisuals position impactForce isFinalCollision) w
        else w in
      let bounceReduction := Qpower 0.5 (Z.of_nat (cd_bounceCount cd)) in
      let volumeScale := Qmin (impactForce * 0.3) 0.8 * bounceReduction in
      if JS.ltb 0.1 volumeScale then
        let w2 :=
          emit [PlaySound "sounds/effects/impact"
                          (JS.clamp volumeScale 0.1 0.8)] w1 in
        if isFinalCollision then defer [Deactivate pid] w2 else w2
      else
        if isFinalCollision then deactivate pid w1 else w1
    else
      if isFinalCollision then deactivate pid w else w.

(** The [collisionData] checkGroundCollision builds. *)
Definition groundCollisionData (projectile : Projectile) : CollisionData :=
  let bounceCount := JS.nat_or (p_bounces projectile) 0 in
  let isFinalBounce := (3 <=? bounceCount)%nat in
  mkCollisionData (p_velocity projectile)
    (match p_velocity projectile with
     | Some v => JS.or_default (Some (THREE.length Math_sqrt v)) 0
     | None => 0
     end)
    bounceCount isFinalBounce.

(** checkGroundCollision(projectile, position) *)
Definition checkGroundCollision (w : World) (pid : nat)
    (projectile : Projectile) (position : Vector3) : bool * World :=
  let projectileRadius := JS.or_default (p_radius projectile) 0.3 in
  let groundThreshold := Qmax (projectileRadius * 1.5) 0.5 in
  if JS.leb (vec_y position) groundThreshold then
    (true,
     handleGroundCollision w pid projectile position
       (groundCollisionData projectile))
  else (false, w).

(** triggerBarrelExplosion(barrel, position), up to its [await] on the
    explosion sound.  The call of handleChainReaction inside it runs up to
    that function's own first [await] and leaves the rest as a task. *)
Definition triggerBarrelExplosion (w : World) (barrel : Target)
    (position : Vector3) : World :=
  match heap w !! mesh barrel with
  | None => w
  | Some m =>
    if negb (inScene m) || isDragging (userData m) then w
    else
      (* [scene.children.find(child => child === barrel.mesh)] is the
         mesh itself when found, whose [isDragging] was just read *)
      let targetBarrel :=
        if bool_decide (mesh barrel ∈ children w) then Some m else None in
      if from_option (fun c => isDragging (userData c)) false targetBarrel
      then w
      else
        let m' := with_userData (set_exploding true true (userData m)) m in
        let w1 := with_heap (<[mesh barrel := m']> (heap w)) w in
        let w2 :=
          defer [ChainReaction barrel position]
            (emit [PlaySound "sounds/effects/chain_reaction" 0.8] w1) in
        let w3 :=
          if effectsManager w2
          then emit [ExplosionEffect position 3.0] w2 else w2 in
        defer [RemoveBarrel barrel]
          (emit [PlaySound "sounds/effects/explosion" 1.0] w3)
  end.

(** handleBarrelImpact(target, impactPoint): the guarded trigger.  No
    function of the manager calls it. *)
Definition handleBarrelImpact (w : World) (target : Target)
    (impactPoint : Vector3) : World :=
  match heap w !! mesh target with
  | Some m =>
    if negb (isExploding (userData m))
    then triggerBarrelExplosion w target (position m)
    else w
  | None => w
  end.

(** handleStructureImpact(target, impactPoint, impactForce) *)
Definition handleStructureImpact (w : World) (impactPoint : Vector3)
    (impactForce : Q) : World :=
  let w1 := emit [StoneImpactEffect impactPoint] w in
  if effectsManager w1 then
    emit (DustEffect impactPoint (impactForce * 0.7) ::
          (if JS.ltb 1.5 impactForce
           then [StoneDebrisEffect impactPoint] else [])) w1
  else w1.

(** handleSiegeTowerImpact(target, impactPoint, impactForce) *)
Definition handleSiegeTowerImpact (w : World) (impactPoint : Vector3)
  : World :=
  let w1 := emit [MetalImpactEffect impactPoint] w in
  if effectsManager w1 then emit [SiegeHitEffect impactPoint] w1 else w1.

(** handleImpactEffects(target, impactPoint, impactForce) *)
Definition handleImpactEffects (w : World) (target : Target)
    (impactPoint : Vector3) (impactForce : Q) : World :=
  if String.eqb (type target) "barrel" then
    match heap w !! mesh target with
    | Some m =>
      triggerBarrelExplosion w (mkTarget (mesh target) "barrel" None true)
        (position m)
    | None => w
    end
  else if String.eqb (type target) "wall"
          || String.eqb (type target) "tower" then
    handleStructureImpact w impactPoint impactForce
  else if String.eqb (type target) "siegeTower" then
    handleSiegeTowerImpact w impactPoint
  else w.

(** The end of destroyTarget: removal from the scene and the
    [targetDestroyed] event.  The debris made on the way is decoration and
    is not tracked; the wrappers carry no [onDestroy]. *)
Definition finishDestroy (w : World) (target : Target) : World :=
  match heap w !! mesh target with
  | None => w
  | Some m =>
    let w1 := if inScene m then scene_remove (mesh target) w else w in
    emit [DestructionEvent target] w1
  end.

(** destroyTarget(target, position), up to its first [await]; for a type
    without destruction effect there is none and it runs to the end. *)
Definition destroyTarget (w : World) (target : Target) (position : Vector3)
  : World :=
  match heap w !! mesh target with
  | None => w
  | Some _ =>
    if String.eqb (type target) "wall" || String.eqb (type target) "tower"
    then defer [FinishDestroy target position]
           (emit [DestructionEffect "stone" position] w)
    else if String.eqb (type target) "siegeTower"
    then defer [FinishDestroy target position]
           (emit [DestructionEffect "metal" position] w)
    else if String.eqb (type target) "barrel" then
      if t_explosive target
      then defer [FinishDestroy target position]
             (triggerBarrelExplosion w target position)
      else defer [FinishDestroy target position]
             (emit [DestructionEffect "wood" position] w)
    else finishDestroy w target
  end.

(** The barrel scan of handleChainReaction: one child; [center] is the
    [position] argument of handleChainReaction. *)
Definition scanChild (barrel : Target) (center : Vector3) (w : World)
    (id : nat) : World :=
  let chainReactionRadius := 8 in
  match heap w !! id with
  | None => w
  | Some child =>
    if bool_decide (ud_type (userData child) = Some "barrel")
       && bool_decide (id ≠ mesh barrel)
       && negb (isExploding (userData child))
       && inScene child
    then
      let distance := THREE.distanceTo Math_sqrt center (position child) in
      if JS.ltb distance chainReactionRadius then
        let child' :=
          with_userData
            (set_exploding true (explosive (userData child))
               (userData child)) child in
        let delay := 100 + random (randomCalls w) * 200 in
        defer [Detonate delay id]
          (with_randomCalls (S (randomCalls w))
             (with_heap (<[id := child']> (heap w)) w))
      else w
    else w
  end.

(** The [damagedTargets?.forEach] of handleChainReaction. *)
Definition destroyDamaged (w : World) (infos : list DamageHandler.Info)
  : World :=
  fold_left
    (fun w info =>
       if DamageHandler.destroyed info then
         match heap w !! mesh (DamageHandler.target info) with
         | Some m => destroyTarget w (DamageHandler.target info) (position m)
         | None => w
         end
       else w)
    infos w.

(** handleChainReaction(barrel, position) after its first [await]; [now]
    is the clock while the targets are collected. *)
Definition handleChainReaction (now : Z) (w : World) (barrel : Target)
    (position : Vector3) : World :=
  let chainReactionRadius := 8 in
  let w1 :=
    if effectsManager w then
      emit [ DustEffect position 2.0;
             DustEffect (mkVector3 (vec_x position + (-1) * 2)
                                   (vec_y position + 0.2) (vec_z position))
                        1.5;
             DustEffect (mkVector3 (vec_x position + 1 * 2)
                                   (vec_y position + 0.2) (vec_z position))
                        1.5 ] w
    else w in
  let w2 := fold_left (scanChild barrel position) (children w1) w1 in
  let '(targets, d) :=
    CollisionDetector.getCollisionTargets (detector w2) now (heap w2)
      (children w2) in
  let '(hp, damagedTargets) :=
    DamageHandler.explosionDamage Math_sqrt position chainReactionRadius 150
      targets (heap w2) in
  destroyDamaged (with_heap hp (with_detector d w2)) damagedTargets.

(** handleTargetCollision(projectile, target), up to its [await]. *)
Definition handleTargetCollision (w : World) (pid : nat)
    (projectile : Projectile) (target : Target) : World :=
  match heap w !! mesh target with
  | None => w
  | Some m =>
    if p_hasCollided projectile || isDragging (userData m) then w
    else
      let impactVelocity :=
        match p_velocity projectile with
        | Some v => JS.or_default (Some (THREE.length Math_sqrt v)) 0
        | None => 0
        end in
      let impactPoint := p_position projectile in
      let impactForce := Qmin (impactVelocity / 10) 3.0 in
      let baseDamage := calculateDamage projectile impactForce in
      match applyDamage (heap w) target baseDamage with
      | None => w
      | Some (hp, damageDealt) =>
        defer [FinishTargetCollision pid target damageDealt]
          (handleImpactEffects (with_heap hp w) target impactPoint
             impactForce)
      end
  end.

(** handleTargetCollision after its [await], up to the next one.  The
    colour flash of showDamageIndication is not tracked. *)
Definition finishTargetCollision (w : World) (pid : nat) (target : Target)
  : World :=
  if shouldDestroyTarget (heap w) target then
    match heap w !! mesh target with
    | Some m => defer [Deactivate pid] (destroyTarget w target (position m))
    | None => w
    end
  else deactivate pid w.

(** The [for (const target of targets)] of checkCollisions: whether a
    target was hit, and the world after. *)
Fixpoint checkTargets (now : Z) (w : World) (pid : nat)
    (projectile : Projectile) (targets : list Target) : bool * World :=
  match targets with
  | [] => (false, w)
  | target :: rest =>
    match heap w !! mesh target with
    | None => checkTargets now w pid projectile rest
    | Some m =>
      if isDragging (userData m)
      then checkTargets now w pid projectile rest
      else
        let '(hit, d) :=
          CollisionDetector.checkProjectileTargetCollision Math_sqrt
            (detector w) now (heap w) projectile target in
        let w1 := with_detector d w in
        if hit then (true, handleTargetCollision w1 pid projectile target)
        else checkTargets now w1 pid projectile rest
    end
  end.

Definition worldBounds : CollisionDetector.Bounds :=
  CollisionDetector.mkBounds
    (CollisionDetector.mkRange (-100) 100)
    (CollisionDetector.mkRange (-10) 100)
    (CollisionDetector.mkRange (-100) 100).

(** The body of the [projectiles.forEach] of checkCollisions.  The ray
    cast for the predicted collision only feeds the debug drawing. *)
Definition checkCollisions_visit (now : Z) (targets : list Target)
    (w : World) (pid : nat) : World :=
  match projectiles w !! pid with
  | None => w
  | Some projectile =>
    if negb (isValidProjectile projectile) then w
    else
      let projectilePos := p_position projectile in
      let '(grounded, w1) :=
        checkGroundCollision w pid projectile projectilePos in
      if grounded then w1
      else
        let '(hit, w2) := checkTargets now w pid projectile targets in
        if hit then w2
        else if CollisionDetector.isOutOfBounds projectilePos
                  (Some worldBounds)
        then deactivate pid w2
        else w2
  end.

(** checkCollisions(projectiles, targets) *)
Definition checkCollisions (now : Z) (w : World) (pids : list nat)
    (targets : option (list Target)) : World :=
  match pids with
  | [] => w
  | _ =>
    let '(targets, w0) :=
      match targets with
      | Some ts => (ts, w)
      | None =>
        let '(ts, d) :=
          CollisionDetector.getCollisionTargets (detector w) now (heap w)
            (children w) in
        (ts, with_detector d w)
      end in
    fold_left (checkCollisions_visit now targets) pids w0
  end.

(** One turn of the event loop on a pending task. *)
Definition run_task (now : Z) (w : World) (task : Task) : World :=
  match task with
  | ChainReaction barrel position => handleChainReaction now w barrel position
  | RemoveBarrel barrel => scene_remove (mesh barrel) w
  | Detonate _ child =>
    match heap w !! child with
    | Some c =>
      if inScene c
      then triggerBarrelExplosion w (mkTarget child "barrel" None true)
             (position c)
      else w
    | None => w
    end
  | FinishTargetCollision pid target _ => finishTargetCollision w pid target
  | FinishDestroy target _ => finishDestroy w target
  | Deactivate pid => deactivate pid w
  end.
End Math.

(** The event loop takes the first pending task that [sel] selects. *)
Fixpoint take_task (sel : Task -> bool) (ts : list Task)
  : option (Task * list Task) :=
  match ts with
  | [] => None
  | task :: rest =>
    if sel task then Some (task, rest)
    else
      match take_task sel rest with
      | Some (found, rest') => Some (found, task :: rest')
      | None => None
      end
  end.

Definition run_next (Math_sqrt : Q -> Q) (random : nat -> Q) (now : Z)
    (sel : Task -> bool) (w : World) : World :=
  match take_task sel (tasks w) with
  | Some (task, rest) => run_task Math_sqrt random now (with_tasks rest w) task
  | None => w
  end.

End CollisionManager.

(** ** PhysicsEngine (js/physics.js): the projectile integrator *)

Module PhysicsEngine.

Definition with_motion (position : Vector3) (velocity : Vector3)
    (bounces : option nat) (active hasCollided : bool) (object : Projectile)
  : Projectile :=
  mkProjectile position (Some velocity) (p_radius object) bounces
    (p_maxBounces object) (p_gravity object) (p_damage object) active
    hasCollided (p_onCollision object).

(** [!bounces || bounces < maxBounces] *)
Definition mayBounce (bounces : option nat) (maxBounces : nat) : bool :=
  match bounces with
  | None | Some O => true
  | Some b => (b <? maxBounces)%nat
  end.

Section Math.
Variable Math_sqrt : Q -> Q.

(** The body of the [scene.traverse] of update(deltaTime) for one
    projectile: the projectile after the step and the calls of its
    [onCollision] callback.  [None] is the TypeError of a projectile
    without velocity. *)
Definition update_visit (deltaTime : Q) (object : Projectile)
  : option (Projectile * list Effect) :=
  if p_active object && negb (p_hasCollided object) then
    velocity ← p_velocity object;
    (* apply gravity *)
    let velocity :=
      mkVector3 (vec_x velocity)
                (vec_y velocity + p_gravity object * deltaTime)
                (vec_z velocity) in
    (* update position based on velocity *)
    let position :=
      mkVector3 (vec_x (p_position object) + vec_x velocity * deltaTime)
                (vec_y (p_position object) + vec_y velocity * deltaTime)
                (vec_z (p_position object) + vec_z velocity * deltaTime) in
    let groundHeight := 0.3 in
    if JS.leb (vec_y position) groundHeight then
      let position := mkVector3 (vec_x position) groundHeight
                                (vec_z position) in
      let speed := THREE.length Math_sqrt velocity in
      let maxBounces := JS.nat_or (p_maxBounces object) 3 in
      if JS.ltb 1.0 speed && mayBounce (p_bounces object) maxBounces then
        let velocity :=
          mkVector3 (vec_x velocity * 0.7) (Qabs (vec_y velocity) * 0.5)
                    (vec_z velocity * 0.7) in
        let bounces := (JS.nat_or (p_bounces object) 0 + 1)%nat in
        Some (with_motion position velocity (Some bounces)
                (p_active object) (p_hasCollided object) object,
              if p_onCollision object
              then [OnCollision "ground" position velocity (speed / 10)
                                false]
              else [])
      else
        let velocity := mkVector3 0 0 0 in
        Some (with_motion position velocity (p_bounces object) false true
                object,
              if p_onCollision object
              then [OnCollision "ground" position velocity (speed / 10)
                                true]
              else [])
    else
      Some (with_motion position velocity (p_bounces object)
              (p_active object) (p_hasCollided object) object, [])
  else Some (object, []).

(** The projectile part of update(deltaTime), over the projectiles of the
    scene in traversal order. *)
Fixpoint traverse (deltaTime : Q) (objects : list Projectile)
  : option (list Projectile * list Effect) :=
  match objects with
  | [] => Some ([], [])
  | object :: rest =>
    '(object', calls) ← update_visit deltaTime object;
    '(rest', calls') ← traverse deltaTime rest;
    Some (object' :: rest', calls ++ calls')
  end.

Definition update (deltaTime : Q) (objects : list Projectile)
  : option (list Projectile * list Effect) :=
  let deltaTime := Qmin deltaTime (1 / 30) in
  traverse deltaTime objects.

(** [n] ticks of the integrator on one projectile. *)
Fixpoint ticks (n : nat) (deltaTime : Q) (object : Projectile)
  : option (Projectile * list Effect) :=
  match n with
  | O => Some (object, [])
  | S n' =>
    '(object1, calls) ← update_visit deltaTime object;
    '(object2, calls') ← ticks n' deltaTime object1;
    Some (object2, calls ++ calls')
  end.

(** [n] calls of update(deltaTime), one per frame, on the projectiles of
    the scene. *)
Fixpoint frames (n : nat) (deltaTime : Q) (objects : list Projectile)
  : option (list Projectile * list Effect) :=
  match n with
  | O => Some (objects, [])
  | S n' =>
    '(objects1, calls) ← update deltaTime objects;
    '(objects2, calls') ← frames n' deltaTime objects1;
    Some (objects2, calls ++ calls')
  end.
End Math.

End PhysicsEngine.


(** ** The specification's own words, and data to run the code on *)

(** The resistance table as the specification words it:
    wall=0.3, tower=0.4, siegeTower=0.2, barrel=0, default=0. *)
Definition spec_resistance (ty : string) : Q :=
  if String.eqb ty "wall" then 0.3
  else if String.eqb ty "tower" then 0.4
  else if String.eqb ty "siegeTower" then 0.2
  else if String.eqb ty "barrel" then 0
  else 0.

Definition origin : Vector3 := mkVector3 0 0 0.

(** A box of half-width [r] around [c]. *)
Definition box_around (c : Vector3) (r : Q) : Box3 :=
  mkBox3 (mkVector3 (vec_x c - r) (vec_y c - r) (vec_z c - r))
         (mkVector3 (vec_x c + r) (vec_y c + r) (vec_z c + r)).

(** A scene object of a given type, in the scene, at rest. *)
Definition object_of (id : string) (ty : string) (at_ : Vector3)
    (hl : option Q) (dragging exploding : bool) : Object3D :=
  mkObject3D id "" at_ (box_around at_ 1) true
    (mkUserData (Some ty) hl hl dragging exploding false false).

(** The wrapper getCollisionTargets builds for [o] stored at [id]. *)
Definition wrapper_of (id : nat) (ty : string) (o : Object3D) : Target :=
  mkTarget id ty (Some (worldBox o)) false.

(** A wall with 200 health points, as in scenario A. *)
Definition wall_A : Object3D :=
  object_of "wall-A" "wall" (mkVector3 0 1 (-10)) (Some 200) false false.

(** The same wall, depleted but still in the scene. *)
Definition wall_depleted : Object3D :=
  object_of "wall-A" "wall" (mkVector3 0 1 (-10)) (Some 0) false false.

(** The damage of an explosion at distance [d], as the specification words
    it: [floor(maxDamage * (1 - d / radius))]. *)
Definition spec_explosion_damage (maxDamage radius d : Q) : Q :=
  inject_Z (Qfloor (maxDamage * (1 - d / radius))).

(** The same formula in the arithmetic of the program: the quotient, the
    difference and the product are each rounded to a double before the
    floor is taken. *)
Definition double_explosion_damage (maxDamage radius d : Q) : Q :=
  JS.floor (Double.mul maxDamage (Double.sub 1 (Double.div d radius))).

(** The health a target enters the explosion pass with: its own, or the
    explosion base health of its type when it has none yet. *)
Definition healthBeforeExplosion (ty : string) (m : Object3D) : Q :=
  default (DamageHandler.getBaseHealthForExplosion ty) (health (userData m)).

(** A sturdy barrel three units from the origin, and the ground. *)
Definition barrel_B : Object3D :=
  object_of "barrel-B" "barrel" (mkVector3 3 0 0) (Some 100) false false.

Definition ground_G : Object3D :=
  mkObject3D "ground-G" "ground" origin (box_around origin 50) true
    (mkUserData (Some "ground") None None false false false false).

Definition heap_BG : Heap := {[ 1%nat := barrel_B; 2%nat := ground_G ]}.

(** The ground carries both the name and the type "ground", and is listed
    twice by getCollisionTargets. *)
Definition targets_BG : list Target :=
  [ wrapper_of 1 "barrel" barrel_B; wrapper_of 2 "ground" ground_G;
    wrapper_of 2 "ground" ground_G ].

(** The wrappers explosionDamage may write through. *)
Definition damageable (t : Target) : bool :=
  negb (String.eqb (type t) "ground").

(** A wall that is being dragged, three units from the origin. *)
Definition wall_dragged : Object3D :=
  object_of "wall-D" "wall" (mkVector3 3 0 0) (Some 200) true false.

(** A projectile as the catapult makes it, in flight. *)
Definition projectile_at (at_ velocity : Vector3) (bounces : nat)
  : Projectile :=
  mkProjectile at_ (Some velocity) (Some 0.4) (Some bounces) (Some 3%nat)
    (-9.81) (Some 50) true false false.

(** A slow projectile just off the face [z = -9] of the bounding box of
    [wall_A], which spans [-11 <= z <= -9]. *)
Definition slow_projectile : Projectile :=
  projectile_at (mkVector3 0 1 (-8.7)) (mkVector3 0 0 (-5)) 0.

(** A projectile at speed 12, half a unit off the same face. *)
Definition brisk_projectile : Projectile :=
  projectile_at (mkVector3 0 1 (-8.5)) (mkVector3 0 0 (-12)) 0.

(** The effective radius as the specification words it:
    [r * clamp(1 + 0.1 * |v|, 1, 1.5)]. *)
Definition spec_effective_radius (r speed : Q) : Q :=
  r * JS.clamp (1 + 0.1 * speed) 1 1.5.

Definition is_dust (e : Effect) : bool :=
  match e with
  | DustEffect _ _ => true
  | _ => false
  end.

Definition is_crater (e : Effect) : bool :=
  match e with
  | CraterEffect _ _ => true
  | _ => false
  end.

(** The impact force of a ground contact at speed [s], as the specification
    words it: [clamp(s / 10 * 1.5, 0, 2.0)]. *)
Definition spec_ground_force (s : Q) : Q := JS.clamp (s / 10 * 1.5) 0 2.0.

(** A world with an effects manager and nothing in it but the projectile
    [p], known as projectile 1. *)
Definition world_of_projectile (p : Projectile) : CollisionManager.World :=
  CollisionManager.mkWorld ∅ [] {[ 1%nat := p ]} CollisionDetector.new true 0
    [] [].

(** A projectile that rolls on the ground at speed 0.1 after three
    bounces. *)
Definition final_roller : Projectile :=
  projectile_at (mkVector3 5 0.3 0) (mkVector3 0.1 0 0) 3.

(** A projectile about to touch the ground at speed: falls from [y = 0.4]
    at 6 units per second, moving along [x] at 8. *)
Definition falling_fast : Projectile :=
  projectile_at (mkVector3 0 0.4 0) (mkVector3 8 (-6) 0) 1.

(** The same after three bounces. *)
Definition falling_spent : Projectile :=
  projectile_at (mkVector3 0 0.4 0) (mkVector3 8 (-6) 0) 3.

(** What a step keeps: the projectile has a velocity, and it is active as
    long as it has not collided. *)
Definition flying (p : Projectile) : Prop :=
  is_Some (p_velocity p) /\ (p_hasCollided p = false -> p_active p = true).

(** Two objects at different places, and the first one after it has been
    moved by two units. *)
Definition crate_1 : Object3D :=
  object_of "crate-1" "wall" (mkVector3 0 1 0) (Some 200) false false.

Definition crate_2 : Object3D :=
  object_of "crate-2" "wall" (mkVector3 10 1 0) (Some 200) false false.

Definition crate_1_moved : Object3D :=
  object_of "crate-1" "wall" (mkVector3 2 1 0) (Some 200) false false.

(** Tasks by kind and barrel. *)
Definition is_chain_of (id : nat) (task : Task) : bool :=
  match task with
  | ChainReaction barrel _ => Nat.eqb (mesh barrel) id
  | _ => false
  end.

Definition is_detonate_of (id : nat) (task : Task) : bool :=
  match task with
  | Detonate _ child => Nat.eqb child id
  | _ => false
  end.

(** How many times the chain reaction of barrel [id] has been started. *)
Definition chain_count (id : nat) (ts : list Task) : nat :=
  List.length (List.filter (is_chain_of id) ts).

(** Two fresh barrels six units apart, and a projectile about to hit the
    first one. *)
Definition barrel_1 : Object3D :=
  object_of "barrel-1" "barrel" (mkVector3 0 1 0) None false false.

Definition barrel_2 : Object3D :=
  object_of "barrel-2" "barrel" (mkVector3 6 1 0) None false false.

Definition shot_1 : Projectile :=
  projectile_at (mkVector3 0 1 1) (mkVector3 0 0 (-20)) 0.

Definition shot_2 : Projectile :=
  projectile_at (mkVector3 6 1 1) (mkVector3 0 0 (-20)) 0.

Definition world_two_barrels : CollisionManager.World :=
  CollisionManager.mkWorld {[ 1%nat := barrel_1; 2%nat := barrel_2 ]}
    [1%nat; 2%nat] {[ 1%nat := shot_1 ]} CollisionDetector.new true 0 [] [].

(** [Math.random()] returning one half each time. *)
Definition coin : nat -> Q := fun _ => 0.5.

(** The first shot hits barrel 1, whose chain reaction then runs. *)
Definition after_first_hit : CollisionManager.World :=
  CollisionManager.checkCollisions Qsqrt (fun x _ => Qpow15 x) 0
    world_two_barrels [1%nat] None.

Definition after_cascade : CollisionManager.World :=
  CollisionManager.run_next Qsqrt coin 20 (is_chain_of 1) after_first_hit.

(** A second shot is in the air and hits barrel 2. *)
Definition after_second_hit : CollisionManager.World :=
  CollisionManager.checkCollisions Qsqrt (fun x _ => Qpow15 x) 40
    (CollisionManager.with_projectiles
       (<[2%nat := shot_2]> (CollisionManager.projectiles after_cascade))
       after_cascade)
    [2%nat] None.

(** The timer set by the cascade fires. *)
Definition after_timer : CollisionManager.World :=
  CollisionManager.run_next Qsqrt coin 220 (is_detonate_of 2) after_second_hit.

(** A projectile that has already collided, as projectile 1 of a world
    that holds the wall of scenario A. *)
Definition spent_projectile : Projectile :=
  mkProjectile (mkVector3 0 1 (-9)) (Some (mkVector3 0 0 (-20))) (Some 0.4)
    (Some 0%nat) (Some 3%nat) (-9.81) (Some 50) false true false.

Definition world_with_wall (p : Projectile) : CollisionManager.World :=
  CollisionManager.mkWorld {[ 1%nat := wall_A ]} [1%nat] {[ 1%nat := p ]}
    CollisionDetector.new true 0 [] [].

(** A shot about to hit the wall of scenario A at speed 20. *)
Definition shot_A : Projectile :=
  projectile_at (mkVector3 0 1 (-8.5)) (mkVector3 0 0 (-20)) 0.

(** A scene object with the [isExploding] mark set. *)
Definition flagged (o : Object3D) : Object3D :=
  with_userData (set_exploding true (explosive (userData o)) (userData o)) o.

Definition is_deactivate_of (pid : nat) (task : Task) : bool :=
  match task with
  | Deactivate pid' => Nat.eqb pid' pid
  | _ => false
  end.

(** Vector3.lengthSq() *)
Definition lengthSq (v : Vector3) : Q :=
  vec_x v * vec_x v + vec_y v * vec_y v + vec_z v * vec_z v.

(** The bounce counter as a number. *)
Definition bounces_of (p : Projectile) : nat := JS.nat_or (p_bounces p) 0.

(** The calls of [onCollision] by kind: with [final: true], and without. *)
Definition is_final_call (e : Effect) : bool :=
  match e with
  | OnCollision _ _ _ _ final => final
  | _ => false
  end.

Definition is_bounce_call (e : Effect) : bool :=
  match e with
  | OnCollision _ _ _ _ final => negb final
  | _ => false
  end.

(** A shot that has flown past the edge of the world, 150 units out. *)
Definition stray_shot : Projectile :=
  projectile_at (mkVector3 150 5 0) (mkVector3 20 0 0) 0.

(** A wall at the double nearest to 6.4 on the x axis. *)
Definition wall_at_6_4 : Object3D :=
  object_of "wall-6.4" "wall" (mkVector3 (JS.double 6.4) 0 0) (Some 200)
    false false.

(** A wall at the double nearest to 3.2 on the x axis. *)
Definition wall_at_3_2 : Object3D :=
  object_of "wall-3.2" "wall" (mkVector3 (JS.double 3.2) 0 0) (Some 200)
    false false.

(** A barrel exploding at the origin, with that wall in its blast. *)
Definition barrel_0 : Object3D :=
  object_of "barrel-0" "barrel" origin (Some 50) false true.

Definition yard_6_4 : CollisionManager.World :=
  CollisionManager.mkWorld {[ 1%nat := barrel_0; 2%nat := wall_at_6_4 ]}
    [1%nat; 2%nat] ∅ CollisionDetector.new true 0 [] [].

(** ** Vector arithmetic of three.js *)

Module Vec.

(** Vector3.add / addVectors *)
Definition add (a b : Vector3) : Vector3 :=
  mkVector3 (vec_x a + vec_x b) (vec_y a + vec_y b) (vec_z a + vec_z b).

(** Vector3.sub / subVectors *)
Definition sub (a b : Vector3) : Vector3 :=
  mkVector3 (vec_x a - vec_x b) (vec_y a - vec_y b) (vec_z a - vec_z b).

(** Vector3.multiplyScalar *)
Definition multiplyScalar (a : Vector3) (s : Q) : Vector3 :=
  mkVector3 (vec_x a * s) (vec_y a * s) (vec_z a * s).

(** Vector3.divideScalar: [multiplyScalar(1 / s)] *)
Definition divideScalar (a : Vector3) (s : Q) : Vector3 :=
  multiplyScalar a (1 / s).

(** Vector3.dot *)
Definition dot (a b : Vector3) : Q :=
  vec_x a * vec_x b + vec_y a * vec_y b + vec_z a * vec_z b.

(** Vector3.normalize: [divideScalar(length() || 1)] *)
Definition normalize (Math_sqrt : Q -> Q) (a : Vector3) : Vector3 :=
  divideScalar a (JS.or_default (Some (THREE.length Math_sqrt a)) 1).

(** Componentwise equality of numbers. *)
Definition eqv (a b : Vector3) : Prop :=
  vec_x a == vec_x b /\ vec_y a == vec_y b /\ vec_z a == vec_z b.

End Vec.

(** ** PhysicsEngine (js/physics.js): the pool of physics objects *)

Module PhysicsPool.

(** The record addObject builds; [object] is the identity of the wrapped
    THREE object and [position] its position; [onCollision] tells whether
    a callback is installed. *)
Record PhysicsData := mkPhysicsData {
  object : nat;
  position : Vector3;
  velocity : Vector3;
  acceleration : Vector3;
  mass : Q;
  restitution : Q;
  friction : Q;
  isStatic : bool;
  hasGravity : bool;
  radius : Q;
  onCollision : bool;
  isActive : bool
}.

Definition with_kinematics (p v a : Vector3) (d : PhysicsData) : PhysicsData :=
  mkPhysicsData (object d) p v a (mass d) (restitution d) (friction d)
    (isStatic d) (hasGravity d) (radius d) (onCollision d) (isActive d).

(** [this.gravity] and [this.collisionBounds] of the constructor. *)
Definition gravity : Q := -9.81.
Definition ground : Q := 0.
Definition minX : Q := -50.
Definition maxX : Q := 50.
Definition minZ : Q := -50.
Definition maxZ : Q := 50.

(** The properties argument of addObject; an absent property is [None]. *)
Record Properties := mkProperties {
  pr_velocity : option Vector3;
  pr_acceleration : option Vector3;
  pr_mass : option Q;
  pr_restitution : option Q;
  pr_friction : option Q;
  pr_isStatic : bool;
  pr_hasGravity : option bool;
  pr_radius : option Q;
  pr_onCollision : bool
}.

(** addObject(object, properties): the record pushed. *)
Definition newPhysicsData (obj : nat) (at_ : Vector3) (properties : Properties)
  : PhysicsData :=
  mkPhysicsData obj at_
    (Validation.sanitizeVector3 (pr_velocity properties) (mkVector3 0 0 0))
    (Validation.sanitizeVector3 (pr_acceleration properties)
       (mkVector3 0 0 0))
    (Validation.sanitizeNumber (pr_mass properties) 1)
    (Validation.sanitizeNumber (pr_restitution properties) 0.6)
    (Validation.sanitizeNumber (pr_friction properties) 0.8)
    (pr_isStatic properties)
    (default true (pr_hasGravity properties))
    (Validation.sanitizeNumber (pr_radius properties) 1)
    (pr_onCollision properties)
    true.

Definition addObject (physicsObjects : list PhysicsData) (obj : nat)
    (at_ : Vector3) (properties : Properties) : list PhysicsData :=
  physicsObjects ++ [newPhysicsData obj at_ properties].

(** removeObject(object): [findIndex] then [splice(index, 1)]. *)
Fixpoint removeObject (physicsObjects : list PhysicsData) (obj : nat)
  : list PhysicsData :=
  match physicsObjects with
  | [] => []
  | p :: rest =>
    if Nat.eqb (object p) obj then rest else p :: removeObject rest obj
  end.

(** updateVelocity(physicsData, deltaTime) *)
Definition updateVelocity (d : PhysicsData) (deltaTime : Q) : PhysicsData :=
  let acceleration :=
    if hasGravity d
    then mkVector3 (vec_x (acceleration d)) gravity (vec_z (acceleration d))
    else acceleration d in
  let deltaV := Vec.multiplyScalar acceleration deltaTime in
  let velocity :=
    Validation.sanitizeVector3 (Some (Vec.add (velocity d) deltaV))
      (mkVector3 0 0 0) in
  let airResistance := 0.99 in
  with_kinematics (position d) (Vec.multiplyScalar velocity airResistance)
    acceleration d.

(** updatePosition(physicsData, deltaTime) *)
Definition updatePosition (d : PhysicsData) (deltaTime : Q) : PhysicsData :=
  let deltaPosition := Vec.multiplyScalar (velocity d) deltaTime in
  let sanitizedDelta :=
    Validation.sanitizeVector3 (Some deltaPosition) (mkVector3 0 0 0) in
  with_kinematics
    (Validation.sanitizeVector3 (Some (Vec.add (position d) sanitizedDelta))
       (mkVector3 0 0 0))
    (velocity d) (acceleration d) d.

(** The ground part of checkCollisions(physicsData): position, velocity,
    and whether the callback is called. *)
Definition groundContact (d : PhysicsData) : Vector3 * Vector3 * bool :=
  let pos := position d in
  let vel := velocity d in
  if JS.leb (vec_y pos - radius d) ground then
    let pos := mkVector3 (vec_x pos) (ground + radius d) (vec_z pos) in
    let vel :=
      if JS.ltb (vec_y vel) 0 then
        let vy := - vec_y vel * restitution d in
        let vx := vec_x vel * friction d in
        let vz := vec_z vel * friction d in
        mkVector3 vx (if JS.ltb (Qabs vy) 0.5 then 0 else vy) vz
      else vel in
    (pos, vel, onCollision d)
  else (pos, vel, false).

(** One pair of walls of checkCollisions, on one coordinate. *)
Definition wallContact (r e lo hi : Q) (x v : Q) : Q * Q :=
  if JS.leb (x - r) lo then (lo + r, Qabs v * e)
  else if JS.leb hi (x + r) then (hi - r, - Qabs v * e)
  else (x, v).

(** checkCollisions(physicsData) *)
Definition checkCollisions (d : PhysicsData) : PhysicsData * bool :=
  let '(pos, vel, called) := groundContact d in
  let '(x, vx) :=
    wallContact (radius d) (restitution d) minX maxX (vec_x pos) (vec_x vel) in
  let '(z, vz) :=
    wallContact (radius d) (restitution d) minZ maxZ (vec_z pos) (vec_z vel) in
  (with_kinematics (mkVector3 x (vec_y pos) z) (mkVector3 vx (vec_y vel) vz)
     (acceleration d) d, called).

Section Math.
Variable Math_sqrt : Q -> Q.

(** applyConstraints(physicsData) *)
Definition applyConstraints (d : PhysicsData) : PhysicsData :=
  let vel :=
    if JS.ltb (THREE.length Math_sqrt (velocity d)) 0.1
       && JS.leb (vec_y (position d)) (ground + radius d + 0.1)
    then mkVector3 0 0 0 else velocity d in
  if JS.ltb (vec_y (position d)) ground then
    with_kinematics
      (mkVector3 (vec_x (position d)) (ground + radius d) (vec_z (position d)))
      (mkVector3 (vec_x vel) 0 (vec_z vel)) (acceleration d) d
  else with_kinematics (position d) vel (acceleration d) d.

(** The body of the [physicsObjects.forEach] of update(deltaTime). *)
Definition step (deltaTime : Q) (d : PhysicsData) : PhysicsData :=
  if negb (isActive d) || isStatic d then d
  else
    applyConstraints
      (fst (checkCollisions (updatePosition (updateVelocity d deltaTime)
                               deltaTime))).

(** resolveCollision(objA, objB, distance, minDistance): the two records
    after the call. *)
Definition resolveCollision (objA objB : PhysicsData) (distance minDistance : Q)
  : PhysicsData * PhysicsData :=
  let normal := Vec.normalize Math_sqrt (Vec.sub (position objB) (position objA)) in
  let overlap := minDistance - distance in
  let separation := Vec.multiplyScalar normal (overlap * 0.5) in
  let posA := if isStatic objA then position objA
              else Vec.sub (position objA) separation in
  let posB := if isStatic objB then position objB
              else Vec.add (position objB) separation in
  let relativeVelocity := Vec.sub (velocity objB) (velocity objA) in
  let velocityAlongNormal := Vec.dot relativeVelocity normal in
  if JS.ltb 0 velocityAlongNormal then
    (with_kinematics posA (velocity objA) (acceleration objA) objA,
     with_kinematics posB (velocity objB) (acceleration objB) objB)
  else
    let restitution := Qmin (restitution objA) (restitution objB) in
    let impulseScalar := - (1 + restitution) * velocityAlongNormal in
    let impulseScalar := impulseScalar / (1 / mass objA + 1 / mass objB) in
    let impulse := Vec.multiplyScalar normal impulseScalar in
    let velA := if isStatic objA then velocity objA
                else Vec.sub (velocity objA)
                       (Vec.multiplyScalar impulse (1 / mass objA)) in
    let velB := if isStatic objB then velocity objB
                else Vec.add (velocity objB)
                       (Vec.multiplyScalar impulse (1 / mass objB)) in
    (with_kinematics posA velA (acceleration objA) objA,
     with_kinematics posB velB (acceleration objB) objB).

(** The body of the inner loop of checkInterObjectCollisions, on the
    objects at the indices [i] and [j]. *)
Definition collidePair (i j : nat) (l : list PhysicsData) : list PhysicsData :=
  match l !! i, l !! j with
  | Some objA, Some objB =>
    if negb (isActive objA) || negb (isActive objB) then l
    else
      let distance := THREE.distanceTo Math_sqrt (position objA) (position objB) in
      let minDistance := radius objA + radius objB in
      if JS.ltb distance minDistance then
        let '(a, b) := resolveCollision objA objB distance minDistance in
        <[j := b]> (<[i := a]> l)
      else l
  | _, _ => l
  end.

(** checkInterObjectCollisions(): every pair [i < j], in order. *)
Definition checkInterObjectCollisions (l : list PhysicsData)
  : list PhysicsData :=
  let n := List.length l in
  fold_left
    (fun l i => fold_left (fun l j => collidePair i j l)
                          (seq (S i) (n - S i)) l)
    (seq 0 n) l.

(** cleanup() *)
Definition cleanup (l : list PhysicsData) : list PhysicsData :=
  List.filter
    (fun d => negb (JS.ltb 100 (THREE.length Math_sqrt (position d))
                    || negb (isActive d)))
    l.
End Math.

End PhysicsPool.

(** The pool part of update(deltaTime): the time step is clamped, every
    record is stepped, then the pairs are resolved.  A collision callback
    is taken to leave the records alone. *)
Definition updatePool (Math_sqrt : Q -> Q) (deltaTime : Q)
    (l : list PhysicsPool.PhysicsData) : list PhysicsPool.PhysicsData :=
  let deltaTime := Qmin deltaTime (1 / 30) in
  PhysicsPool.checkInterObjectCollisions Math_sqrt
    (PhysicsPool.step Math_sqrt deltaTime <$> l).

(** ** Utils (js/utils.js) *)

Module Utils.

Definition map (value inMin inMax outMin outMax : Q) : Q :=
  ((value - inMin) * (outMax - outMin)) / (inMax - inMin) + outMin.

Definition easeInQuad (t : Q) : Q := t * t.

Definition calculateCatapultPower (tension : Q) : Q :=
  let minPower := 10 in
  let maxPower := 30 in
  let normalizedTension := easeInQuad (tension / 100) in
  map normalizedTension 0 1 minPower maxPower.

End Utils.

(** Example data: two balls of the pool, one unit apart on the x axis,
    approaching each other. *)
Definition ball (o : nat) (x vx m e : Q) : PhysicsPool.PhysicsData :=
  PhysicsPool.mkPhysicsData o (mkVector3 x 5 0) (mkVector3 vx 0 0)
    (mkVector3 0 0 0) m e 0.8 false true 1 false true.

Definition ball_A : PhysicsPool.PhysicsData := ball 1 0 2 1 0.6.
Definition ball_B : PhysicsPool.PhysicsData := ball 2 1 (-1) 3 0.3.

(** A ball that has left the box on the left and below. *)
Definition ball_out : PhysicsPool.PhysicsData :=
  PhysicsPool.mkPhysicsData 3 (mkVector3 (-60) (-2) 70) (mkVector3 (-4) (-6) 5)
    (mkVector3 0 0 0) 1 0.6 0.8 false true 1 false true.

(** A static anchor of the pool. *)
Definition anchor : PhysicsPool.PhysicsData :=
  PhysicsPool.mkPhysicsData 4 (mkVector3 0.5 5 0) (mkVector3 0 0 0)
    (mkVector3 0 0 0) 1 0.6 0.8 true false 1 false true.

Definition no_properties : PhysicsPool.Properties :=
  PhysicsPool.mkProperties None None None None None false None None false.

(** ** Materials and the damage visuals *)

(** A THREE.Color: its three components. *)
Record Color := mkColor { col_r : Q; col_g : Q; col_b : Q }.

Module DamageVisuals.

(** Color.lerp(color, alpha) *)
Definition lerp (c target : Color) (alpha : Q) : Color :=
  mkColor (col_r c + (col_r target - col_r c) * alpha)
          (col_g c + (col_g target - col_g c) * alpha)
          (col_b c + (col_b target - col_b c) * alpha).

(** [new THREE.Color()] and [new THREE.Color(undefined)]: white. *)
Definition white : Color := mkColor 1 1 1.

(** A material object: its colour, if it has one. *)
Record Material := mkMaterial { color : option Color }.

(** What the visuals read and write on an object, besides the health of
    its userData: whether it is a mesh, the material it points to, and the
    two userData entries of the damage state. *)
Record Look := mkLook {
  isMesh : bool;
  material : option nat;
  hasClonedMaterialForDamageState : bool;
  originalMaterialBaseColorHex : option Z
}.

(** The material objects by identity, and the look of every object.  Two
    objects with the same [material] share the material object. *)
Record Paint := mkPaint {
  mats : gmap nat Material;
  looks : gmap nat Look
}.

(** [object.material.color], when both exist. *)
Definition colorOf (pt : Paint) (id : nat) : option Color :=
  lk ← looks pt !! id;
  mid ← material lk;
  mat ← mats pt !! mid;
  color mat.

(** [object.material.color.copy(c)] (or [setHex]), when both exist. *)
Definition setColor (id : nat) (c : Color) (pt : Paint) : Paint :=
  match looks pt !! id with
  | Some lk =>
    match material lk with
    | Some mid =>
      match mats pt !! mid with
      | Some (mkMaterial (Some _)) =>
        mkPaint (<[mid := mkMaterial (Some c)]> (mats pt)) (looks pt)
      | _ => pt
      end
    | None => pt
    end
  | None => pt
  end.

(** A JavaScript number that may not be finite. *)
Inductive Number := Finite (q : Q) | PosInfinity | NegInfinity | NaN.

(** [a / b] on numbers that may be [undefined]. *)
Definition div (a b : option Q) : Number :=
  match a, b with
  | Some x, Some y =>
    if JS.truthy y then Finite (x / y)
    else if JS.ltb 0 x then PosInfinity
    else if JS.ltb x 0 then NegInfinity
    else NaN
  | _, _ => NaN
  end.

(** [n > q] *)
Definition gtb (n : Number) (q : Q) : bool :=
  match n with
  | Finite x => JS.ltb q x
  | PosInfinity => true
  | NegInfinity | NaN => false
  end.

(** CollisionManager.getDamageColor(healthPercent): 0xffcccc, 0xff6666,
    0xff0000. *)
Definition getDamageColor (healthPercent : Number) : Z :=
  if gtb healthPercent 0.7 then 16764108%Z
  else if gtb healthPercent 0.3 then 16737894%Z
  else 16711680%Z.

Section Hex.
(** [new THREE.Color(hex)] / [setHex(hex)] and [getHex()]. *)
Variable ofHex : Z -> Color.
Variable getHex : Color -> Z.
(** The material objects the [materials] object of materials.js holds. *)
Variable globals : list nat.

(** The material state applyDamageVisuals works on after its cloning
    step: the material the mesh points to, the original hex colour, the
    material objects, and the flag. *)
Record Cloned := mkCloned {
  c_material : nat;
  c_hex : option Z;
  c_mats : gmap nat Material;
  c_flag : bool
}.

(** The cloning step of applyDamageVisuals, for a mesh with the look
    [lk] on the material [mid], the object [mat] of colour [col]. *)
Definition cloneForDamageState (pt : Paint) (lk : Look) (mid : nat)
    (mat : Material) (col : Color) : Cloned :=
  let flagged := hasClonedMaterialForDamageState lk in
  (* flagged, but still on a global material: force cloning *)
  let forced := flagged && bool_decide (mid ∈ globals) in
  let needsCloning := negb flagged || forced in
  let hex0 := if forced then None else originalMaterialBaseColorHex lk in
  if needsCloning then
    let hex1 :=
      match hex0 with
      | None => Some (getHex col)
      | Some x => Some x
      end in
    let clone := fresh (dom (mats pt)) in
    mkCloned clone hex1 (<[clone := mat]> (mats pt)) true
  else mkCloned mid hex0 (mats pt) flagged.

(** The colour applyDamageVisuals computes for a mesh whose original
    colour has the hex value [hex], at health [h] of [mh]: the original
    colour moved towards red by [(1 - max(0, h / mh)) * 0.7]. *)
Definition tintOf (hex : option Z) (h mh : Q) : Color :=
  let healthPercent := Qmax 0 (h / mh) in
  let baseColorForTint :=
    match hex with Some x => ofHex x | None => white end in
  if JS.ltb healthPercent 1.0 then
    let tintStrength := (1.0 - healthPercent) * 0.7 in
    lerp baseColorForTint (ofHex 16711680) tintStrength
  else baseColorForTint.

(** DamageHandler.applyDamageVisuals(target, damageDealt), for the target
    whose mesh is the object [id] with the heap entry [m]: the materials
    and looks afterwards and the call of createDamageParticles, if any. *)
Definition applyDamageVisuals (effectsManager : bool) (pt : Paint) (id : nat)
    (m : Object3D) (damageDealt : Q) : Paint * option (Vector3 * Q) :=
  match looks pt !! id with
  | None => (pt, None)
  | Some lk =>
    match material lk with
    | None => (pt, None)
    | Some mid =>
      match mats pt !! mid with
      | None => (pt, None)
      | Some mat =>
        match color mat with
        | None => (pt, None)
        | Some col =>
          match health (userData m), maxHealth (userData m) with
          | Some h, Some mh =>
            if JS.leb mh 0 then (pt, None)
            else
              let cl := cloneForDamageState pt lk mid mat col in
              let baseColorForTint := tintOf (c_hex cl) h mh in
              (mkPaint
                 (<[c_material cl := mkMaterial (Some baseColorForTint)]>
                    (c_mats cl))
                 (<[id := mkLook (isMesh lk) (Some (c_material cl))
                            (c_flag cl) (c_hex cl)]>
                    (looks pt)),
               if effectsManager
               then Some (Vec.add (position m) (mkVector3 0 2 0), damageDealt)
               else None)
          | _, _ => (pt, None)
          end
        end
      end
    end
  end.

(** The objects showDamageIndication recolours: for a group the meshes
    among [visited], the objects [traverse] visits, that have a material
    with a colour; else the mesh itself if it has one. *)
Definition meshesToChange (pt : Paint) (isGroup : bool) (id : nat)
    (visited : list nat) : list nat :=
  if isGroup then
    List.filter
      (fun child =>
         match looks pt !! child with
         | Some lk => isMesh lk && bool_decide (is_Some (colorOf pt child))
         | None => false
         end)
      visited
  else if bool_decide (is_Some (colorOf pt id)) then [id] else [].

(** CollisionManager.showDamageIndication(target, damage) up to its
    setTimeout: the materials afterwards, the call of
    createDamageParticles and what the timer callback holds, the objects
    and the colours saved for them. *)
Definition showDamageIndication (effectsManager : bool) (pt : Paint)
    (isGroup : bool) (id : nat) (visited : list nat) (m : Object3D)
    (damage : Q)
  : Paint * option (Vector3 * Q) * list (nat * Color) :=
  if negb effectsManager then (pt, None, [])
  else
    let healthPercent := div (health (userData m)) (maxHealth (userData m)) in
    let color := getDamageColor healthPercent in
    let meshes := meshesToChange pt isGroup id visited in
    let originalColors :=
      omap (fun mesh => c ← colorOf pt mesh; Some (mesh, c)) meshes in
    let pt1 := fold_left (fun pt mesh => setColor mesh (ofHex color) pt)
                         meshes pt in
    (pt1, Some (Vec.add (position m) (mkVector3 0 2 0), damage),
     originalColors).

(** The timer callback of showDamageIndication, 200 ms later. *)
Definition resetColors (saved : list (nat * Color)) (pt : Paint) : Paint :=
  fold_left (fun pt '(mesh, c) => setColor mesh c pt) saved pt.
End Hex.

(** The colour of a hex triplet and back, without colour management. *)
Definition hexColor (hex : Z) : Color :=
  mkColor (inject_Z ((hex / 65536) mod 256) / 255)
          (inject_Z ((hex / 256) mod 256) / 255)
          (inject_Z (hex mod 256) / 255).

Definition colorHex (c : Color) : Z :=
  let byte x := Qfloor (JS.clamp (x * 255) 0 255 + 0.5) in
  (byte (col_r c) * 65536 + byte (col_g c) * 256 + byte (col_b c))%Z.

End DamageVisuals.

(** Example data: a wall at half health that still wears the shared stone
    material, object 1 on material 10; a second wall, object 2, shares
    the material. *)
Definition stone_grey : Color := DamageVisuals.hexColor 8421504.

Definition paint_shared : DamageVisuals.Paint :=
  DamageVisuals.mkPaint
    {[ 10%nat := DamageVisuals.mkMaterial (Some stone_grey) ]}
    {[ 1%nat := DamageVisuals.mkLook true (Some 10%nat) false None;
       2%nat := DamageVisuals.mkLook true (Some 10%nat) false None ]}.

Definition wall_half : Object3D :=
  mkObject3D "w" "wall" (mkVector3 3 0 0)
    (mkBox3 (mkVector3 2 0 (-1)) (mkVector3 4 2 1)) true
    (mkUserData (Some "wall") (Some 100) (Some 200) false false false false).

(** Whether recolouring the object [x] writes to the material [k]: the
    object points to it and the material has a colour. *)
Definition paints (pt : DamageVisuals.Paint) (x k : nat) : bool :=
  bool_decide (DamageVisuals.looks pt !! x ≫= DamageVisuals.material = Some k)
  && bool_decide (is_Some (DamageVisuals.mats pt !! k ≫= DamageVisuals.color)).

(** The same wall at a quarter of its health. *)
Definition wall_quarter : Object3D :=
  mkObject3D "w" "wall" (mkVector3 3 0 0)
    (mkBox3 (mkVector3 2 0 (-1)) (mkVector3 4 2 1)) true
    (mkUserData (Some "wall") (Some 50) (Some 200) false false false false).
(** * Properties *)

(** ** Comparisons and truthiness *)

Lemma ltb_lt a b : JS.ltb a b = true <-> a < b.
Proof.
  unfold JS.ltb. rewrite negb_true_iff. split.
  - intros H. apply Qnot_le_lt. intros Hle.
    apply Qle_bool_iff in Hle. congruence.
  - intros H. destruct (Qle_bool b a) eqn:E; [|reflexivity].
    apply Qle_bool_iff in E. exfalso. apply (Qlt_not_le _ _ H E).
Qed.

Lemma ltb_ge a b : JS.ltb a b = false <-> b <= a.
Proof.
  unfold JS.ltb. rewrite negb_false_iff. apply Qle_bool_iff.
Qed.

Lemma leb_le a b : JS.leb a b = true <-> a <= b.
Proof. apply Qle_bool_iff. Qed.

Lemma leb_gt a b : JS.leb a b = false <-> b < a.
Proof.
  unfold JS.leb. split.
  - intros H. apply Qnot_le_lt. intros Hle.
    apply Qle_bool_iff in Hle. congruence.
  - intros H. destruct (Qle_bool a b) eqn:E; [|reflexivity].
    apply Qle_bool_iff in E. exfalso. apply (Qlt_not_le _ _ H E).
Qed.

Lemma truthy_true x : JS.truthy x = true <-> ~ x == 0.
Proof.
  unfold JS.truthy. rewrite negb_true_iff. split.
  - intros H E. apply Qeq_bool_iff in E. congruence.
  - intros H. destruct (Qeq_bool x 0) eqn:E; [|reflexivity].
    apply Qeq_bool_iff in E. contradiction.
Qed.

Lemma truthy_false x : JS.truthy x = false <-> x == 0.
Proof.
  unfold JS.truthy. rewrite negb_false_iff. apply Qeq_bool_iff.
Qed.

Lemma Qmax_nonneg_l a : 0 <= Qmax 0 a.
Proof. apply Q.le_max_l. Qed.

(** Validation keeps a number and a vector that are there. *)
Lemma sanitizeNumber_valid (x d : Q) :
  Validation.sanitizeNumber (Some x) d = x.
Proof. reflexivity. Qed.

Lemma sanitizeVector3_valid (v d : Vector3) :
  Validation.sanitizeVector3 (Some v) d = v.
Proof. destruct v; reflexivity. Qed.

(** ** Direct-hit damage *)

(** The lookup in the object literal, by cases on the key. *)
Lemma resistances_lookup (ty : string) :
  CollisionManager.resistances !! ty =
    if String.eqb ty "wall" then Some 0.3
    else if String.eqb ty "tower" then Some 0.4
    else if String.eqb ty "siegeTower" then Some 0.2
    else if String.eqb ty "barrel" then Some 0
    else None.
Proof.
  unfold CollisionManager.resistances.
  destruct (String.eqb_spec ty "wall") as [->|Hw]; [reflexivity|].
  destruct (String.eqb_spec ty "tower") as [->|Ht]; [reflexivity|].
  destruct (String.eqb_spec ty "siegeTower") as [->|Hs]; [reflexivity|].
  destruct (String.eqb_spec ty "barrel") as [->|Hb]; [reflexivity|].
  rewrite !lookup_insert_ne by congruence.
  apply lookup_singleton_ne. congruence.
Qed.

Lemma getTargetResistance_table (target : Target) :
  CollisionManager.getTargetResistance target = spec_resistance (type target).
Proof.
  unfold CollisionManager.getTargetResistance, spec_resistance.
  rewrite resistances_lookup.
  destruct (String.eqb (type target) "wall"); [reflexivity|].
  destruct (String.eqb (type target) "tower"); [reflexivity|].
  destruct (String.eqb (type target) "siegeTower"); [reflexivity|].
  destruct (String.eqb (type target) "barrel"); reflexivity.
Qed.

Lemma spec_resistance_range (ty : string) :
  0 <= spec_resistance ty /\ spec_resistance ty <= 1.
Proof.
  unfold spec_resistance.
  destruct (String.eqb ty "wall"); [split; discriminate|].
  destruct (String.eqb ty "tower"); [split; discriminate|].
  destruct (String.eqb ty "siegeTower"); [split; discriminate|].
  destruct (String.eqb ty "barrel"); split; discriminate.
Qed.

(** C1.  For a target whose health is initialised (a number other than 0),
    applyDamage returns [damage * (1 - resistance)], which is non-negative
    for a non-negative damage, and leaves the health at
    [max(0, health_before - damage * (1 - resistance))]; the resistance is
    the one of the table wall=0.3, tower=0.4, siegeTower=0.2, barrel=0,
    default=0, and lies in [0, 1].  Nothing else changes. *)
Theorem applyDamage_initialized (hp : Heap) (target : Target) (o : Object3D)
    (h damage : Q) :
  hp !! mesh target = Some o ->
  health (userData o) = Some h ->
  ~ h == 0 ->
  let resistance := spec_resistance (type target) in
  0 <= resistance /\ resistance <= 1 /\
  exists hp' actualDamage o',
    CollisionManager.applyDamage hp target damage = Some (hp', actualDamage) /\
    actualDamage == damage * (1 - resistance) /\
    (0 <= damage -> 0 <= actualDamage) /\
    hp' !! mesh target = Some o' /\
    (exists h', health (userData o') = Some h' /\
                h' == Qmax 0 (h - damage * (1 - resistance)) /\ 0 <= h') /\
    maxHealth (userData o') = maxHealth (userData o) /\
    (forall id, id <> mesh target -> hp' !! id = hp !! id).
Proof.
  intros Hm Hh Hnz resistance.
  destruct (spec_resistance_range (type target)) as [Hr0 Hr1].
  split; [exact Hr0|]. split; [exact Hr1|].
  unfold CollisionManager.applyDamage. rewrite Hm. simpl.
  rewrite Hh. simpl.
  apply truthy_true in Hnz. rewrite Hnz. simpl. rewrite Hh. simpl.
  rewrite getTargetResistance_table. fold resistance.
  eexists _, _, _. split; [reflexivity|].
  split; [reflexivity|].
  split.
  { intros Hd. apply Qmult_le_0_compat; [exact Hd|].
    unfold Qminus. rewrite <- Qle_minus_iff. exact Hr1. }
  split; [apply lookup_insert_eq|].
  split.
  { eexists. simpl. split; [reflexivity|]. split; [reflexivity|].
    apply Qmax_nonneg_l. }
  split; [reflexivity|].
  intros id Hid. apply lookup_insert_ne. congruence.
Qed.

(** C10.  applyDamage takes a health of exactly 0 for an uninitialised one:
    health and maxHealth are first reset to the base value of the type,
    then the resistance-adjusted damage is subtracted, so that a hit weaker
    than the base health leaves a depleted target with positive health. *)
Theorem applyDamage_zero_health_reset (hp : Heap) (target : Target)
    (o : Object3D) (h damage : Q) :
  hp !! mesh target = Some o ->
  health (userData o) = Some h ->
  h == 0 ->
  let base := CollisionManager.getBaseHealth (type target) in
  let actual := damage * (1 - CollisionManager.getTargetResistance target) in
  exists hp' o' h',
    CollisionManager.applyDamage hp target damage = Some (hp', actual) /\
    hp' !! mesh target = Some o' /\
    maxHealth (userData o') = Some base /\
    health (userData o') = Some h' /\
    h' == Qmax 0 (base - actual) /\
    (actual < base -> 0 < h').
Proof.
  intros Hm Hh Hz base actual.
  unfold CollisionManager.applyDamage. rewrite Hm. simpl.
  rewrite Hh. simpl.
  apply truthy_false in Hz. rewrite Hz. simpl.
  eexists _, _, _. split; [reflexivity|].
  split; [apply lookup_insert_eq|].
  split; [reflexivity|]. split; [reflexivity|].
  split; [reflexivity|].
  intros Hlt. fold base. fold actual.
  apply Qlt_le_trans with (y := base - actual).
  - unfold Qminus. rewrite <- Qlt_minus_iff. exact Hlt.
  - apply Q.le_max_r.
Qed.

Lemma applyDamage_initialized_witness :
  exists hp' o',
    CollisionManager.applyDamage {[ 1%nat := wall_A ]}
      (wrapper_of 1 "wall" wall_A) 100 = Some (hp', 100 * (1 - 0.3)) /\
    hp' !! 1%nat = Some o' /\
    exists h', health (userData o') = Some h' /\ h' == 130.
Proof.
  destruct (applyDamage_initialized {[ 1%nat := wall_A ]}
              (wrapper_of 1 "wall" wall_A) wall_A 200 100)
    as (_ & _ & hp' & actual & o' & Hrun & _ & _ & Hlook & (h' & Hh & Heq & _)
        & _).
  - reflexivity.
  - reflexivity.
  - intros H. vm_compute in H. discriminate H.
  - exists hp', o'. split; [|split; [exact Hlook|]].
    + rewrite Hrun. vm_compute in Hrun.
      injection Hrun as _ <-. reflexivity.
    + exists h'. split; [exact Hh|]. rewrite Heq. reflexivity.
Defined.

Lemma applyDamage_zero_health_reset_witness :
  exists hp' o' h',
    CollisionManager.applyDamage {[ 1%nat := wall_depleted ]}
      (wrapper_of 1 "wall" wall_depleted) 100 = Some (hp', 100 * (1 - 0.3)) /\
    hp' !! 1%nat = Some o' /\
    maxHealth (userData o') = Some 200 /\
    health (userData o') = Some h' /\
    h' == 130.
Proof.
  destruct (applyDamage_zero_health_reset {[ 1%nat := wall_depleted ]}
              (wrapper_of 1 "wall" wall_depleted) wall_depleted 0 100)
    as (hp' & o' & h' & Hrun & Hlook & Hmax & Hh & Heq & _).
  - reflexivity.
  - reflexivity.
  - reflexivity.
  - exists hp', o', h'.
    split; [exact Hrun|]. split; [exact Hlook|]. split; [exact Hmax|].
    split; [exact Hh|]. rewrite Heq. reflexivity.
Defined.

(** ** Base health for explosion damage *)

(** A stone hit first by an explosion starts from 100 health points, not
    from the 300 a direct hit gives it. *)
Lemma C7_explosion_default_differs :
  DamageHandler.getBaseHealthForExplosion "stone" == 100 /\
  CollisionManager.getBaseHealth "stone" == 300 /\
  ~ DamageHandler.getBaseHealthForExplosion "stone" == 300.
Proof.
  split; [reflexivity|]. split; [reflexivity|].
  intros H. vm_compute in H. discriminate H.
Qed.

(** C7 (as amended).  The base-health table of the explosion pass gives
    wall, tower and siegeTower 200, as the direct-hit table does; a barrel
    gets 50 where a direct hit gives 100; every other type gets 100 where
    a direct hit gives 300. *)
Theorem getBaseHealthForExplosion_table (ty : string) :
  (ty = "wall" \/ ty = "tower" \/ ty = "siegeTower" ->
   DamageHandler.getBaseHealthForExplosion ty = 200 /\
   CollisionManager.getBaseHealth ty = 200) /\
  (ty = "barrel" ->
   DamageHandler.getBaseHealthForExplosion ty = 50 /\
   CollisionManager.getBaseHealth ty = 100) /\
  (ty <> "wall" -> ty <> "tower" -> ty <> "siegeTower" -> ty <> "barrel" ->
   DamageHandler.getBaseHealthForExplosion ty = 100 /\
   CollisionManager.getBaseHealth ty = 300).
Proof.
  unfold DamageHandler.getBaseHealthForExplosion, CollisionManager.getBaseHealth.
  split; [|split].
  - intros [-> | [-> | ->]]; split; reflexivity.
  - intros ->. split; reflexivity.
  - intros Hw Ht Hs Hb.
    destruct (String.eqb_spec ty "wall"); [contradiction|].
    destruct (String.eqb_spec ty "tower"); [contradiction|].
    destruct (String.eqb_spec ty "siegeTower"); [contradiction|].
    destruct (String.eqb_spec ty "barrel"); [contradiction|].
    split; reflexivity.
Qed.

Lemma getBaseHealthForExplosion_table_witness :
  DamageHandler.getBaseHealthForExplosion "gate" = 100 /\
  CollisionManager.getBaseHealth "gate" = 300.
Proof.
  apply (getBaseHealthForExplosion_table "gate"); discriminate.
Defined.

(** ** Explosion area damage *)

Lemma ensureHealth_health (ty : string) (u : UserData) :
  health (DamageHandler.ensureHealth ty u) =
    Some (default (DamageHandler.getBaseHealthForExplosion ty) (health u)).
Proof.
  unfold DamageHandler.ensureHealth.
  destruct (health u) as [h|] eqn:Hh, (maxHealth u) as [mh|] eqn:Hm;
    simpl; rewrite ?Hh, ?Hm; simpl; try reflexivity; rewrite ?Hh; reflexivity.
Qed.

Lemma damageable_true (t : Target) :
  damageable t = true <-> type t <> "ground".
Proof.
  unfold damageable. destruct (String.eqb_spec (type t) "ground"); simpl.
  - split; [discriminate | contradiction].
  - split; [by intros _ | reflexivity].
Qed.

Section Explosion.
Variable Math_sqrt : Q -> Q.
Variables (center : Vector3) (radius maxDamage : Q).

Local Abbreviation visit :=
  (DamageHandler.explosionDamage_visit Math_sqrt center radius maxDamage).
Local Abbreviation run :=
  (DamageHandler.explosionDamage Math_sqrt center radius maxDamage).
Local Abbreviation dist m := (Double.distanceTo Math_sqrt center (position m)).

(** A visit writes the mesh of the visited wrapper only. *)
Lemma visit_frame hp tw hp1 info id :
  visit hp tw = (hp1, info) -> id <> mesh tw -> hp1 !! id = hp !! id.
Proof.
  unfold DamageHandler.explosionDamage_visit. intros H Hid.
  destruct (hp !! mesh tw) as [m|]; [|by inversion H].
  destruct (JS.ltb _ radius); [|by inversion H].
  destruct (negb _); [|by inversion H].
  destruct (health _); inversion H; subst; [|reflexivity].
  apply lookup_insert_ne. congruence.
Qed.

Lemma visit_target hp tw hp1 info :
  visit hp tw = (hp1, info) -> DamageHandler.target info = tw.
Proof.
  unfold DamageHandler.explosionDamage_visit. intros H.
  destruct (hp !! mesh tw) as [m|]; [|by inversion H].
  destruct (JS.ltb _ radius); [|by inversion H].
  destruct (negb _); [|by inversion H].
  destruct (health _); by inversion H.
Qed.

(** The visit of a ground wrapper does nothing. *)
Lemma visit_ground hp tw :
  type tw = "ground" -> visit hp tw = (hp, DamageHandler.mkInfo tw false).
Proof.
  intros Hty. unfold DamageHandler.explosionDamage_visit. rewrite Hty.
  destruct (hp !! mesh tw); [|reflexivity].
  destruct (JS.ltb _ radius); reflexivity.
Qed.

(** What one visit does to a target inside the radius that is not the
    ground. *)
Lemma visit_damaged hp tw m :
  hp !! mesh tw = Some m ->
  dist m < radius ->
  type tw <> "ground" ->
  exists m' h',
    visit hp tw =
      (<[mesh tw := m']> hp, DamageHandler.mkInfo tw (JS.leb h' 0)) /\
    health (userData m') = Some h' /\
    h' = Qmax 0 (Double.sub (healthBeforeExplosion (type tw) m)
                   (double_explosion_damage maxDamage radius (dist m))).
Proof.
  intros Hm Hd Hty.
  unfold DamageHandler.explosionDamage_visit. rewrite Hm.
  apply ltb_lt in Hd. rewrite Hd.
  destruct (String.eqb_spec (type tw) "ground") as [E|_]; [contradiction|].
  simpl negb. cbv iota.
  rewrite ensureHealth_health.
  eexists _, _. split; [reflexivity|]. split; reflexivity.
Qed.

(** The pass writes the meshes of the wrappers that are not ground
    wrappers, and no other. *)
Lemma run_frame targets : forall hp hp' infos id,
  run targets hp = (hp', infos) ->
  id ∉ mesh <$> List.filter damageable targets -> hp' !! id = hp !! id.
Proof.
  induction targets as [|tw rest IH]; intros hp hp' infos id H Hid.
  - by inversion H.
  - simpl in H.
    destruct (visit hp tw) as [hp1 info] eqn:Hv.
    destruct (run rest hp1) as [hp2 infos'] eqn:Hr.
    inversion H; subst. simpl in Hid.
    destruct (damageable tw) eqn:Hdm.
    + simpl in Hid. apply not_elem_of_cons in Hid as [Hne Hrest].
      rewrite (IH _ _ _ _ Hr Hrest). eapply visit_frame; eauto.
    + assert (Hty : type tw = "ground").
      { unfold damageable in Hdm. apply negb_false_iff in Hdm.
        by apply String.eqb_eq. }
      rewrite (visit_ground hp tw Hty) in Hv. inversion Hv; subst.
      eapply IH; eauto.
Qed.

Lemma run_targets targets : forall hp hp' infos,
  run targets hp = (hp', infos) -> DamageHandler.target <$> infos = targets.
Proof.
  induction targets as [|tw rest IH]; intros hp hp' infos H.
  - by inversion H.
  - simpl in H.
    destruct (visit hp tw) as [hp1 info] eqn:Hv.
    destruct (run rest hp1) as [hp2 infos'] eqn:Hr.
    inversion H; subst. simpl. f_equal; [eapply visit_target|]; eauto.
Qed.

(** Ground wrappers are answered with "not destroyed". *)
Lemma run_ground targets : forall hp hp' infos tw,
  run targets hp = (hp', infos) ->
  tw ∈ targets -> type tw = "ground" ->
  DamageHandler.mkInfo tw false ∈ infos.
Proof.
  induction targets as [|t rest IH]; intros hp hp' infos tw H Hin Hty.
  - by apply elem_of_nil in Hin.
  - simpl in H.
    destruct (visit hp t) as [hp1 info] eqn:Hv.
    destruct (run rest hp1) as [hp2 infos'] eqn:Hr.
    inversion H; subst. apply elem_of_cons in Hin as [-> | Hin].
    + rewrite (visit_ground hp t Hty) in Hv. inversion Hv; subst.
      apply elem_of_cons. by left.
    + apply elem_of_cons. right. eapply IH; eauto.
Qed.

(** The wrappers that are not ground wrappers, when they hold pairwise
    distinct meshes, each take the damage of their distance. *)
Lemma run_damaged targets : forall hp hp' infos,
  NoDup (mesh <$> List.filter damageable targets) ->
  run targets hp = (hp', infos) ->
  forall tw m,
    tw ∈ targets -> type tw <> "ground" ->
    hp !! mesh tw = Some m -> dist m < radius ->
    exists m' h' b,
      hp' !! mesh tw = Some m' /\
      health (userData m') = Some h' /\
      h' = Qmax 0 (Double.sub (healthBeforeExplosion (type tw) m)
                     (double_explosion_damage maxDamage radius (dist m))) /\
      DamageHandler.mkInfo tw b ∈ infos /\
      b = JS.leb h' 0.
Proof.
  induction targets as [|t rest IH]; intros hp hp' infos Hnd Hrun tw m Hin.
  - by apply elem_of_nil in Hin.
  - intros Hty Hm Hd. simpl in Hrun.
    destruct (visit hp t) as [hp1 info] eqn:Hv.
    destruct (run rest hp1) as [hp2 infos'] eqn:Hr.
    inversion Hrun; subst hp' infos. clear Hrun.
    simpl in Hnd.
    apply elem_of_cons in Hin as [-> | Hin].
    + (* the visited target: nothing later writes its mesh *)
      apply damageable_true in Hty as Hdm. rewrite Hdm in Hnd.
      simpl in Hnd. apply NoDup_cons in Hnd as [Hfresh _].
      destruct (visit_damaged hp t m Hm Hd Hty) as (m' & h' & Hv' & Hh & ->).
      rewrite Hv in Hv'. inversion Hv'; subst hp1 info.
      eexists m', _, _. split.
      { rewrite (run_frame _ _ _ _ _ Hr Hfresh). apply lookup_insert_eq. }
      split; [exact Hh|]. split; [reflexivity|].
      split; [apply elem_of_cons; by left | reflexivity].
    + (* a later target: the visit of [t] did not touch its mesh *)
      assert (Hin' : mesh tw ∈ mesh <$> List.filter damageable rest).
      { apply list_elem_of_fmap_2. apply list_elem_of_In, filter_In.
        split; [by apply list_elem_of_In | by apply damageable_true]. }
      assert (Hm1 : hp1 !! mesh tw = Some m /\
                    NoDup (mesh <$> List.filter damageable rest)).
      { destruct (damageable t) eqn:Hdm.
        - simpl in Hnd. apply NoDup_cons in Hnd as [Hfresh Hnd]. split; [|done].
          rewrite (visit_frame _ _ _ _ _ Hv); [exact Hm|].
          intros E. apply Hfresh. by rewrite <- E.
        - split; [|done].
          assert (Hg : type t = "ground").
          { unfold damageable in Hdm. apply negb_false_iff in Hdm.
            by apply String.eqb_eq. }
          rewrite (visit_ground hp t Hg) in Hv. by inversion Hv; subst. }
      destruct Hm1 as [Hm1 Hnd'].
      destruct (IH hp1 hp2 infos' Hnd' Hr tw m Hin Hty Hm1 Hd)
        as (m' & h' & b & H1 & H2 & H3 & H4 & H5).
      exists m', h', b. repeat split; try assumption.
      apply elem_of_cons. by right.
Qed.

(** C5.  explosionDamage answers for every target of the list, in order.
    When the wrappers other than ground wrappers hold pairwise distinct
    meshes: a target other than the ground at distance [d < radius] ends
    with the health [max(0, health - floor(maxDamage * (1 - d / radius)))],
    every operation of the formula returning a double as in the program
    (the floor is that of the rounded product, which can be one away from
    the floor of the exact one), and is reported destroyed iff that health
    is [<= 0]; a ground target is
    reported not destroyed and, unless another wrapper presents its mesh as
    something else, keeps its state.  With [maxDamage = 150] and
    [radius = 8] the damage at distance 3 is 93. *)
Theorem explosionDamage_falloff (targets : list Target) (hp hp' : Heap)
    (infos : list DamageHandler.Info) :
  NoDup (mesh <$> List.filter damageable targets) ->
  run targets hp = (hp', infos) ->
  DamageHandler.target <$> infos = targets /\
  (forall tw m,
     tw ∈ targets -> hp !! mesh tw = Some m -> dist m < radius ->
     (type tw <> "ground" ->
      exists m' h' b,
        hp' !! mesh tw = Some m' /\
        health (userData m') = Some h' /\
        h' = Qmax 0 (Double.sub (healthBeforeExplosion (type tw) m)
                       (double_explosion_damage maxDamage radius (dist m))) /\
        DamageHandler.mkInfo tw b ∈ infos /\
        (b = true <-> h' <= 0)) /\
     (type tw = "ground" ->
      DamageHandler.mkInfo tw false ∈ infos /\
      (mesh tw ∉ mesh <$> List.filter damageable targets ->
       hp' !! mesh tw = Some m))) /\
  double_explosion_damage 150 8 3 == 93.
Proof.
  intros Hnd Hrun.
  split; [eapply run_targets; eauto|]. split; [|vm_compute; reflexivity].
  intros tw m Hin Hm Hd. split.
  - intros Hty.
    destruct (run_damaged targets hp hp' infos Hnd Hrun tw m Hin Hty Hm Hd)
      as (m' & h' & b & H1 & H2 & -> & H4 & ->).
    eexists m', _, _. split; [exact H1|]. split; [exact H2|].
    split; [reflexivity|]. split; [exact H4|]. apply leb_le.
  - intros Hty. split; [eapply run_ground; eauto|].
    intros Hfree. rewrite (run_frame _ _ _ _ _ Hrun Hfree). exact Hm.
Qed.
End Explosion.

Lemma explosionDamage_falloff_witness :
  let hp' := fst (DamageHandler.explosionDamage Qsqrt origin 8 150
                    targets_BG heap_BG) in
  (exists m' h',
     hp' !! 1%nat = Some m' /\ health (userData m') = Some h' /\ h' == 7) /\
  hp' !! 2%nat = Some ground_G.
Proof.
  destruct (DamageHandler.explosionDamage Qsqrt origin 8 150 targets_BG heap_BG)
    as [hp' infos] eqn:E.
  destruct (explosionDamage_falloff Qsqrt origin 8 150 targets_BG
              heap_BG hp' infos) as (_ & Hall & _).
  - simpl. apply NoDup_singleton.
  - exact E.
  - simpl. split.
    + destruct (Hall (wrapper_of 1 "barrel" barrel_B) barrel_B) as [Hdam _].
      * apply elem_of_cons. by left.
      * reflexivity.
      * reflexivity.
      * destruct Hdam as (m' & h' & b & H1 & H2 & H3 & _); [discriminate|].
        exists m', h'. split; [exact H1|]. split; [exact H2|].
        rewrite H3. reflexivity.
    + destruct (Hall (wrapper_of 2 "ground" ground_G) ground_G) as [_ Hgr].
      * apply elem_of_cons. right. apply elem_of_cons. by left.
      * reflexivity.
      * reflexivity.
      * apply Hgr; [reflexivity|]. simpl.
        intros H. apply list_elem_of_singleton in H. discriminate H.
Defined.

(** The damage is not the floor of the exact product.  With [Math.sqrt]
    correctly rounded, a wall of health 200 at the double nearest to 3.2
    from an explosion of radius 8 and maximal damage 150 takes 90 and is
    left with 110, where the exact product [150 * (1 - d / 8)] lies just
    below 90 and its floor is 89: the difference [1 - d / 8] is rounded up
    to the double nearest to 0.6, and the product is rounded up to 90.  At
    the double nearest to 6.4 the wall takes 29 and is left with 171, as
    the exact product gives at that double, while at the decimal 6.4 itself
    the formula gives 30. *)
Lemma C5_damage_rounded_before_floor :
  let d := Double.distanceTo JS.sqrt origin (position wall_at_3_2) in
  d = JS.double 3.2 /\ d < 8 /\
  (health ∘ userData) <$>
    (fst (DamageHandler.explosionDamage JS.sqrt origin 8 150
            [wrapper_of 2 "wall" wall_at_3_2] {[ 2%nat := wall_at_3_2 ]})
     !! 2%nat) = Some (Some 110) /\
  double_explosion_damage 150 8 d == 90 /\
  spec_explosion_damage 150 8 d == 89 /\
  (health ∘ userData) <$>
    (fst (DamageHandler.explosionDamage JS.sqrt origin 8 150
            [wrapper_of 2 "wall" wall_at_6_4] {[ 2%nat := wall_at_6_4 ]})
     !! 2%nat) = Some (Some 171) /\
  spec_explosion_damage 150 8 (JS.double 6.4) == 29 /\
  spec_explosion_damage 150 8 6.4 == 30.
Proof.
  repeat split; vm_compute; reflexivity.
Qed.

(** ** Dragged targets *)

(** C3.  The explosion pass does not look at [isDragging]: a wall that is
    being dragged, three units from an explosion of radius 8 and maximal
    damage 150, loses 93 of its 200 health points. *)
Theorem explosionDamage_hits_dragged_wall :
  isDragging (userData wall_dragged) = true /\
  health (userData wall_dragged) = Some 200 /\
  Double.distanceTo Qsqrt origin (position wall_dragged) == 3 /\
  exists m',
    fst (DamageHandler.explosionDamage Qsqrt origin 8 150
           [wrapper_of 1 "wall" wall_dragged] {[ 1%nat := wall_dragged ]})
      !! 1%nat = Some m' /\
    isDragging (userData m') = true /\
    health (userData m') = Some 107.
Proof.
  split; [reflexivity|]. split; [reflexivity|]. split; [reflexivity|].
  eexists. split; [vm_compute; reflexivity|].
  split; reflexivity.
Qed.

(** ** The velocity-scaled projectile radius *)

(** At speed 12 the radius 0.4 grows to 0.48, not to 0.6: a wall face half
    a unit away is not hit. *)
Lemma C4_radius_at_speed_12 :
  THREE.length Qsqrt (mkVector3 0 0 (-12)) == 12 /\
  CollisionDetector.projectileRadius Qsqrt brisk_projectile == 0.48 /\
  spec_effective_radius 0.4 12 == 0.6 /\
  fst (CollisionDetector.checkProjectileTargetCollision Qsqrt
         CollisionDetector.new 0 {[ 1%nat := wall_A ]} brisk_projectile
         (wrapper_of 1 "wall" wall_A)) = false /\
  CollisionDetector.checkSphereBoxCollision Qsqrt (p_position brisk_projectile)
    (spec_effective_radius 0.4 12) (Some (worldBox wall_A)) = true.
Proof.
  repeat split; vm_compute; reflexivity.
Qed.

(** Below speed 10 the scale is under 1: at speed 5 a radius of 0.4 shrinks
    to 0.2, and a wall 0.3 away is missed. *)
Lemma slow_projectile_radius_shrinks :
  THREE.length Qsqrt (mkVector3 0 0 (-5)) == 5 /\
  CollisionDetector.projectileRadius Qsqrt slow_projectile == 0.2 /\
  fst (CollisionDetector.checkProjectileTargetCollision Qsqrt
         CollisionDetector.new 0 {[ 1%nat := wall_A ]} slow_projectile
         (wrapper_of 1 "wall" wall_A)) = false /\
  CollisionDetector.checkSphereBoxCollision Qsqrt (p_position slow_projectile)
    0.4 (Some (worldBox wall_A)) = true.
Proof.
  repeat split; vm_compute; reflexivity.
Qed.

Section Radius.
Variable Math_sqrt : Q -> Q.

Lemma velocityScale_le (p : Projectile) :
  CollisionDetector.velocityScale Math_sqrt p <= 1.5.
Proof.
  unfold CollisionDetector.velocityScale.
  destruct (p_velocity p); [apply Q.le_min_r | discriminate].
Qed.

(** The scale below speed 10. *)
Lemma velocityScale_slow (p : Projectile) (v : Vector3) :
  p_velocity p = Some v ->
  THREE.length Math_sqrt v < 10 ->
  CollisionDetector.velocityScale Math_sqrt p
    == 0.1 * THREE.length Math_sqrt v /\
  CollisionDetector.velocityScale Math_sqrt p < 1.
Proof.
  intros Hv Hs. unfold CollisionDetector.velocityScale. rewrite Hv.
  rewrite Q.min_l by lra. split; lra.
Qed.

(** C4 (as amended).  Against a wall or a tower the sphere-vs-box test is
    run with the radius [r * s], where [r] is the projectile's radius (0.3
    when it has none) and [s] is the velocity scale.  [s] never exceeds 1.5
    and is 1 for a projectile without velocity.  From speed 10 on, [s] is
    [min(0.1 * |v|, 1.5)] and at least 1 (it is 1.5 from speed 15 on), so
    that the radius used is then never smaller than a positive [r], and at
    most [1.5 * r]. *)
Theorem wall_test_radius (d : CollisionDetector.t) (now : Z) (hp : Heap)
    (p : Projectile) (target : Target) (m : Object3D) :
  hp !! mesh target = Some m ->
  type target = "wall" \/ type target = "tower" ->
  let r := JS.or_default (p_radius p) 0.3 in
  let s := CollisionDetector.velocityScale Math_sqrt p in
  let box := match boundingBox target with
             | Some b => (Some b, d)
             | None => CollisionDetector.getBoundingBox d now (Some m)
             end in
  CollisionDetector.checkProjectileTargetCollision Math_sqrt d now hp p target
    = (CollisionDetector.checkSphereBoxCollision Math_sqrt (p_position p)
         (r * s) (fst box), snd box) /\
  s <= 1.5 /\
  (p_velocity p = None -> s == 1) /\
  (forall v, p_velocity p = Some v ->
     let speed := THREE.length Math_sqrt v in
     10 <= speed ->
     s == Qmin (0.1 * speed) 1.5 /\ 1 <= s /\ (15 <= speed -> s == 1.5)) /\
  (0 < r -> r * s <= 1.5 * r /\ (1 <= s -> r <= r * s)).
Proof.
  intros Hm Hty r s box.
  split; [|split; [apply velocityScale_le|split; [|split]]].
  - unfold CollisionDetector.checkProjectileTargetCollision. rewrite Hm.
    assert (Hb : String.eqb (type target) "wall"
                 || String.eqb (type target) "tower" = true).
    { destruct Hty as [-> | ->]; reflexivity. }
    rewrite Hb. subst box.
    destruct (boundingBox target) as [b|]; [reflexivity|].
    destruct (CollisionDetector.getBoundingBox d now (Some m)); reflexivity.
  - intros Hv. subst s. unfold CollisionDetector.velocityScale.
    rewrite Hv. reflexivity.
  - intros v Hv speed Hs. subst s. unfold CollisionDetector.velocityScale.
    rewrite Hv. fold speed.
    assert (Hcomm : speed * 0.1 == 0.1 * speed) by ring.
    split; [rewrite Hcomm; reflexivity|]. split.
    + apply Q.min_glb; [|discriminate]. lra.
    + intros H15. rewrite Q.min_r by lra. reflexivity.
  - intros Hr. pose proof (velocityScale_le p) as Hs. fold s in Hs.
    split; [nra|]. intros H; nra.
Qed.
End Radius.

Lemma wall_test_radius_witness :
  CollisionDetector.checkProjectileTargetCollision Qsqrt
    CollisionDetector.new 0 {[ 1%nat := wall_A ]} brisk_projectile
    (wrapper_of 1 "wall" wall_A)
  = (CollisionDetector.checkSphereBoxCollision Qsqrt
       (p_position brisk_projectile)
       (0.4 * CollisionDetector.velocityScale Qsqrt brisk_projectile)
       (Some (worldBox wall_A)), CollisionDetector.new).
Proof.
  apply (wall_test_radius Qsqrt CollisionDetector.new 0 {[ 1%nat := wall_A ]}
           brisk_projectile (wrapper_of 1 "wall" wall_A) wall_A).
  - reflexivity.
  - left. reflexivity.
Defined.

(** ** Ground impacts seen by the collision manager *)

(** A projectile that comes to rest at speed 0.1 after three bounces
    leaves a crater, far below the force 1.2. *)
Lemma C6_final_stop_crater_below_threshold :
  let r := CollisionManager.checkGroundCollision Qsqrt
             (world_of_projectile final_roller) 1 final_roller
             (p_position final_roller) in
  fst r = true /\
  THREE.length Qsqrt (mkVector3 0.1 0 0) == 0.1 /\
  p_bounces final_roller = Some 3%nat /\
  spec_ground_force 0.1 <= 1.2 /\
  CollisionManager.groundImpactForce Qsqrt final_roller
    (CollisionManager.groundCollisionData Qsqrt final_roller) <= 1.2 /\
  existsb is_crater (CollisionManager.effects (snd r)) = true.
Proof.
  repeat split; vm_compute; try reflexivity; discriminate.
Qed.

Lemma effects_emit es w :
  CollisionManager.effects (CollisionManager.emit es w)
  = CollisionManager.effects w ++ es.
Proof. reflexivity. Qed.

Lemma groundVisuals_dust pos F fin :
  existsb is_dust (CollisionManager.groundVisuals pos F fin) = JS.ltb 0.8 F.
Proof.
  unfold CollisionManager.groundVisuals. rewrite existsb_app.
  destruct (JS.ltb 0.8 F); simpl.
  - reflexivity.
  - destruct (JS.ltb 1.2 F || fin); reflexivity.
Qed.

Lemma groundVisuals_crater pos F fin :
  existsb is_crater (CollisionManager.groundVisuals pos F fin)
  = JS.ltb 1.2 F || fin.
Proof.
  unfold CollisionManager.groundVisuals. rewrite existsb_app.
  destruct (JS.ltb 0.8 F); simpl.
  - destruct (JS.ltb 1.2 F); simpl; [reflexivity|].
    destruct fin; reflexivity.
  - destruct (JS.ltb 1.2 F || fin); reflexivity.
Qed.

Section Ground.
Variable Math_sqrt : Q -> Q.

Local Abbreviation force p cd :=
  (CollisionManager.groundImpactForce Math_sqrt p cd).

Lemma groundImpactForce_le p cd : force p cd <= 2.0.
Proof. apply Q.le_min_r. Qed.

(** Below the gate [impactSpeed > 0.3] the force is under both
    thresholds. *)
Lemma groundImpactForce_gate p cd :
  JS.ltb 0.3 (CollisionManager.impactSpeed Math_sqrt p cd) = false ->
  JS.ltb 0.8 (force p cd) = false /\ JS.ltb 1.2 (force p cd) = false.
Proof.
  intros Hg. apply ltb_ge in Hg.
  assert (Hle : force p cd <= 0.45).
  { unfold CollisionManager.groundImpactForce.
    eapply Qle_trans; [apply Q.le_min_l|]. lra. }
  split; apply ltb_ge; lra.
Qed.

(** The collaborator calls of handleGroundCollision, with an effects
    manager, on a projectile that has not collided yet. *)
Lemma handleGroundCollision_effects w pid p pos cd :
  CollisionManager.effectsManager w = true ->
  p_hasCollided p = false ->
  exists es,
    CollisionManager.effects
      (CollisionManager.handleGroundCollision Math_sqrt w pid p pos cd)
    = CollisionManager.effects w ++ es /\
    existsb is_dust es = JS.ltb 0.8 (force p cd) /\
    existsb is_crater es
    = JS.ltb 1.2 (force p cd) || CollisionManager.cd_final cd.
Proof.
  intros Hem Hnc. unfold CollisionManager.handleGroundCollision.
  rewrite Hnc, Hem.
  destruct (JS.ltb 0.3 (CollisionManager.impactSpeed Math_sqrt p cd)) eqn:Hg;
    [|destruct (CollisionManager.cd_final cd) eqn:Hf]; simpl orb; cbv iota.
  - (* the gate is open *)
    destruct (JS.ltb 0.1 _).
    + exists (CollisionManager.groundVisuals pos (force p cd)
                (CollisionManager.cd_final cd)
              ++ [PlaySound "sounds/effects/impact"
                    (JS.clamp
                       (Qmin (force p cd * 0.3) 0.8
                        * Qpower 0.5
                            (Z.of_nat (CollisionManager.cd_bounceCount cd)))
                       0.1 0.8)]).
      split.
      * destruct (CollisionManager.cd_final cd); simpl;
          rewrite <- app_assoc; reflexivity.
      * rewrite !existsb_app, groundVisuals_dust, groundVisuals_crater.
        simpl. rewrite !orb_false_r. split; reflexivity.
    + exists (CollisionManager.groundVisuals pos (force p cd)
                (CollisionManager.cd_final cd)).
      split.
      * destruct (CollisionManager.cd_final cd); reflexivity.
      * rewrite groundVisuals_dust, groundVisuals_crater. split; reflexivity.
  - (* a final stop below the gate *)
    destruct (JS.ltb 0.1 _).
    + exists (CollisionManager.groundVisuals pos (force p cd) true
              ++ [PlaySound "sounds/effects/impact"
                    (JS.clamp
                       (Qmin (force p cd * 0.3) 0.8
                        * Qpower 0.5
                            (Z.of_nat (CollisionManager.cd_bounceCount cd)))
                       0.1 0.8)]).
      split.
      * simpl. rewrite <- app_assoc. reflexivity.
      * rewrite !existsb_app, groundVisuals_dust, groundVisuals_crater.
        simpl. rewrite !orb_false_r. split; reflexivity.
    + exists (CollisionManager.groundVisuals pos (force p cd) true).
      split; [reflexivity|].
      rewrite groundVisuals_dust, groundVisuals_crater. split; reflexivity.
  - (* nothing happens *)
    exists []. split; [symmetry; apply app_nil_r|].
    destruct (groundImpactForce_gate p cd Hg) as [-> ->]. split; reflexivity.
Qed.

(** C6 (as amended).  When the ground check of the collision manager
    triggers for a projectile with bounce count [b] that has not collided
    yet, the contact is final iff [b >= 3]; the impact force [F] the handler
    works with never exceeds 2.0; with an effects manager, dust is raised
    iff [F > 0.8], whether the contact is final or not, and a crater is
    made iff [F > 1.2] or the contact is final. *)
Theorem ground_impact_effects (w : CollisionManager.World) (pid : nat)
    (p : Projectile) (pos : Vector3) :
  CollisionManager.effectsManager w = true ->
  p_hasCollided p = false ->
  vec_y pos <= Qmax (JS.or_default (p_radius p) 0.3 * 1.5) 0.5 ->
  let b := JS.nat_or (p_bounces p) 0 in
  let cd := CollisionManager.groundCollisionData Math_sqrt p in
  let F := force p cd in
  let r := CollisionManager.checkGroundCollision Math_sqrt w pid p pos in
  fst r = true /\
  (CollisionManager.cd_final cd = true <-> (3 <= b)%nat) /\
  F <= 2.0 /\
  exists es,
    CollisionManager.effects (snd r) = CollisionManager.effects w ++ es /\
    (existsb is_dust es = true <-> 0.8 < F) /\
    (existsb is_crater es = true <-> 1.2 < F \/ (3 <= b)%nat).
Proof.
  intros Hem Hnc Hy b cd F r.
  assert (Hfin : CollisionManager.cd_final cd = true <-> (3 <= b)%nat).
  { subst cd b. unfold CollisionManager.groundCollisionData.
    cbn [CollisionManager.cd_final]. apply Nat.leb_le. }
  subst r. unfold CollisionManager.checkGroundCollision.
  apply leb_le in Hy. rewrite Hy. simpl fst. simpl snd.
  split; [reflexivity|]. split; [exact Hfin|].
  split; [apply groundImpactForce_le|].
  destruct (handleGroundCollision_effects w pid p pos cd Hem Hnc)
    as (es & Hes & Hdust & Hcrater).
  exists es. split; [exact Hes|]. split.
  - rewrite Hdust. apply ltb_lt.
  - rewrite Hcrater, orb_true_iff, Hfin. rewrite ltb_lt. reflexivity.
Qed.
End Ground.

Lemma ground_impact_effects_witness :
  exists es,
    CollisionManager.effects
      (snd (CollisionManager.checkGroundCollision Qsqrt
              (world_of_projectile final_roller) 1 final_roller
              (p_position final_roller)))
    = [] ++ es /\
    (existsb is_dust es = true <->
     0.8 < CollisionManager.groundImpactForce Qsqrt final_roller
             (CollisionManager.groundCollisionData Qsqrt final_roller)) /\
    (existsb is_crater es = true <->
     1.2 < CollisionManager.groundImpactForce Qsqrt final_roller
             (CollisionManager.groundCollisionData Qsqrt final_roller)
     \/ (3 <= 3)%nat).
Proof.
  apply (ground_impact_effects Qsqrt (world_of_projectile final_roller) 1
           final_roller (p_position final_roller)).
  - reflexivity.
  - reflexivity.
  - vm_compute. discriminate.
Defined.

(** ** The projectile integrator *)

Lemma mayBounce_lt (bounces maxBounces : option nat) :
  PhysicsEngine.mayBounce bounces (JS.nat_or maxBounces 3) = true
  <-> (JS.nat_or bounces 0 < JS.nat_or maxBounces 3)%nat.
Proof.
  assert (Hpos : (0 < JS.nat_or maxBounces 3)%nat).
  { destruct maxBounces as [[|n]|]; simpl; lia. }
  destruct bounces as [[|b]|];
    cbn [PhysicsEngine.mayBounce]; unfold JS.nat_or at 2.
  - split; [intros _; exact Hpos | reflexivity].
  - apply Nat.ltb_lt.
  - split; [intros _; exact Hpos | reflexivity].
Qed.

Section Integrator.
Variable Math_sqrt : Q -> Q.

Local Abbreviation visit := (PhysicsEngine.update_visit Math_sqrt).
Local Abbreviation ticks := (PhysicsEngine.ticks Math_sqrt).

(** A projectile at rest is not stepped. *)
Lemma update_visit_idle dt p :
  p_active p = false \/ p_hasCollided p = true -> visit dt p = Some (p, []).
Proof.
  unfold PhysicsEngine.update_visit.
  intros [-> | ->]; [reflexivity|].
  rewrite andb_false_r. reflexivity.
Qed.

Lemma update_visit_flying dt p :
  flying p -> exists p' calls, visit dt p = Some (p', calls) /\ flying p'.
Proof.
  intros [[v Hv] Hact]. unfold PhysicsEngine.update_visit.
  destruct (p_active p) eqn:Ha, (p_hasCollided p) eqn:Hc; simpl;
    try (eexists _, _; split; [reflexivity|];
         split; [by exists v | by rewrite ?Hc]).
  - rewrite Hv. simpl.
    destruct (JS.leb _ 0.3);
      [destruct (JS.ltb 1.0 _ && PhysicsEngine.mayBounce _ _)|];
      eexists _, _; (split; [reflexivity|]); split; simpl;
      try (by eexists); try done.
  - specialize (Hact eq_refl). discriminate.
Qed.

Lemma ticks_flying n : forall dt p,
  flying p -> exists p' calls, ticks n dt p = Some (p', calls) /\ flying p'.
Proof.
  induction n as [|n IH]; intros dt p Hp.
  - exists p, []. split; [reflexivity | exact Hp].
  - destruct (update_visit_flying dt p Hp) as (p1 & c1 & H1 & Hp1).
    destruct (IH dt p1 Hp1) as (p2 & c2 & H2 & Hp2).
    exists p2, (c1 ++ c2). split; [|exact Hp2].
    simpl. rewrite H1. simpl. rewrite H2. reflexivity.
Qed.

(** One step of an active projectile that has not collided, by the three
    cases of the code: off the ground, a bounce, the terminal stop. *)
Lemma update_visit_cases (dt : Q) (p : Projectile) (v : Vector3) :
  p_active p = true ->
  p_hasCollided p = false ->
  p_velocity p = Some v ->
  let v1 := mkVector3 (vec_x v) (vec_y v + p_gravity p * dt) (vec_z v) in
  let pos1 := mkVector3 (vec_x (p_position p) + vec_x v1 * dt)
                        (vec_y (p_position p) + vec_y v1 * dt)
                        (vec_z (p_position p) + vec_z v1 * dt) in
  let pos0 := mkVector3 (vec_x pos1) 0.3 (vec_z pos1) in
  let v2 := mkVector3 (vec_x v1 * 0.7) (Qabs (vec_y v1) * 0.5)
                      (vec_z v1 * 0.7) in
  let speed := THREE.length Math_sqrt v1 in
  let b := JS.nat_or (p_bounces p) 0 in
  let maxBounces := JS.nat_or (p_maxBounces p) 3 in
  (0.3 < vec_y pos1 ->
   visit dt p
   = Some (PhysicsEngine.with_motion pos1 v1 (p_bounces p) true false p, []))
  /\
  (vec_y pos1 <= 0.3 -> 1 < speed -> (b < maxBounces)%nat ->
   visit dt p
   = Some (PhysicsEngine.with_motion pos0 v2 (Some (b + 1)%nat) true false p,
           if p_onCollision p
           then [OnCollision "ground" pos0 v2 (speed / 10) false]
           else [])) /\
  (vec_y pos1 <= 0.3 -> ~ (1 < speed /\ (b < maxBounces)%nat) ->
   visit dt p
   = Some (PhysicsEngine.with_motion pos0 (mkVector3 0 0 0) (p_bounces p)
             false true p,
           if p_onCollision p
           then [OnCollision "ground" pos0 (mkVector3 0 0 0) (speed / 10) true]
           else [])).
Proof.
  intros Ha Hc Hv. cbv zeta.
  unfold PhysicsEngine.update_visit. rewrite Ha, Hc, Hv.
  cbn [andb negb mbind option_bind vec_x vec_y vec_z].
  split; [|split].
  - intros Hy. apply leb_gt in Hy. rewrite Hy. reflexivity.
  - intros Hy Hs Hb. apply leb_le in Hy. rewrite Hy.
    assert (Hs' : JS.ltb 1.0 (THREE.length Math_sqrt
                    (mkVector3 (vec_x v) (vec_y v + p_gravity p * dt)
                       (vec_z v))) = true) by (apply ltb_lt; lra).
    rewrite Hs'. apply mayBounce_lt in Hb. rewrite Hb. reflexivity.
  - intros Hy Hno. apply leb_le in Hy. rewrite Hy.
    destruct (JS.ltb 1.0 _) eqn:Hs; cbn [andb]; [|reflexivity].
    destruct (PhysicsEngine.mayBounce _ _) eqn:Hb; [|reflexivity].
    exfalso. apply Hno. split.
    + apply ltb_lt in Hs. lra.
    + by apply mayBounce_lt.
Qed.

Lemma update_visit_some dt p :
  is_Some (p_velocity p) ->
  exists p' own, visit dt p = Some (p', own) /\ is_Some (p_velocity p').
Proof.
  intros [v Hv]. unfold PhysicsEngine.update_visit.
  destruct (p_active p && negb (p_hasCollided p));
    [|eexists _, _; split; [reflexivity | by exists v]].
  rewrite Hv. cbn [mbind option_bind].
  destruct (JS.leb _ 0.3);
    [destruct (JS.ltb 1.0 _ && PhysicsEngine.mayBounce _ _)|];
    eexists _, _; (split; [reflexivity | by eexists]).
Qed.

(** The traversal steps every projectile of the scene with the same time
    step, and hands on the calls each step makes. *)
Lemma traverse_total dt objects :
  (forall o, o ∈ objects -> is_Some (p_velocity o)) ->
  exists objects' calls,
    PhysicsEngine.traverse Math_sqrt dt objects = Some (objects', calls) /\
    (forall o, o ∈ objects' -> is_Some (p_velocity o)).
Proof.
  induction objects as [|o rest IH]; intros Hall.
  - exists [], []. split; [reflexivity|]. by intros o ?%elem_of_nil.
  - destruct (update_visit_some dt o) as (o' & own & Ho & Hvo).
    { apply Hall. apply elem_of_cons. by left. }
    destruct IH as (rest' & calls & Hr & Hvr).
    { intros x Hx. apply Hall. apply elem_of_cons. by right. }
    exists (o' :: rest'), (own ++ calls). split.
    + cbn [PhysicsEngine.traverse]. rewrite Ho. cbn [mbind option_bind].
      rewrite Hr. reflexivity.
    + intros x [-> | Hx]%elem_of_cons; [exact Hvo | by apply Hvr].
Qed.

Lemma traverse_lookup dt objects : forall objects' calls i p,
  PhysicsEngine.traverse Math_sqrt dt objects = Some (objects', calls) ->
  objects !! i = Some p ->
  exists p' own,
    visit dt p = Some (p', own) /\ objects' !! i = Some p' /\
    (forall c, c ∈ own -> c ∈ calls).
Proof.
  induction objects as [|o rest IH]; intros objects' calls i p Ht Hi.
  - discriminate.
  - cbn [PhysicsEngine.traverse] in Ht.
    destruct (visit dt o) as [[o' own]|] eqn:Ho;
      cbn [mbind option_bind] in Ht; [|discriminate].
    destruct (PhysicsEngine.traverse Math_sqrt dt rest) as [[rest' calls']|]
      eqn:Hr; cbn [mbind option_bind] in Ht; [|discriminate].
    injection Ht as <- <-. destruct i as [|i].
    + injection Hi as <-. exists o', own. split; [exact Ho|].
      split; [reflexivity|]. intros c Hc. apply elem_of_app. by left.
    + destruct (IH rest' calls' i p eq_refl Hi) as (p' & own' & H1 & H2 & H3).
      exists p', own'. split; [exact H1|]. split; [exact H2|].
      intros c Hc. apply elem_of_app. right. by apply H3.
Qed.

(** After [n] frames the projectile at a place of the scene is the one
    stepped [n] times with the clamped time step. *)
Lemma frames_lookup deltaTime n : forall objects i p,
  (forall o, o ∈ objects -> is_Some (p_velocity o)) ->
  objects !! i = Some p ->
  exists objects' calls p' own,
    PhysicsEngine.frames Math_sqrt n deltaTime objects = Some (objects', calls)
    /\ objects' !! i = Some p' /\
    ticks n (Qmin deltaTime (1 / 30)) p = Some (p', own) /\
    (forall c, c ∈ own -> c ∈ calls).
Proof.
  induction n as [|n IH]; intros objects i p Hall Hi.
  - exists objects, [], p, []. repeat split; auto.
  - destruct (traverse_total (Qmin deltaTime (1 / 30)) objects Hall)
      as (objects1 & calls1 & Ht & Hall1).
    destruct (traverse_lookup _ _ _ _ i p Ht Hi) as (p1 & own1 & Hv & Hi1 & Hs1).
    destruct (IH objects1 i p1 Hall1 Hi1)
      as (objects2 & calls2 & p2 & own2 & Hf & Hi2 & Hk & Hs2).
    exists objects2, (calls1 ++ calls2), p2, (own1 ++ own2).
    split; [|split; [exact Hi2|split]].
    + cbn [PhysicsEngine.frames]. unfold PhysicsEngine.update. rewrite Ht.
      cbn [mbind option_bind]. rewrite Hf. reflexivity.
    + cbn [PhysicsEngine.ticks]. rewrite Hv. cbn [mbind option_bind].
      rewrite Hk. reflexivity.
    + intros c [Hc | Hc]%elem_of_app; apply elem_of_app;
        [left; by apply Hs1 | right; by apply Hs2].
Qed.

Lemma ticks_idle n : forall dt p,
  p_active p = false \/ p_hasCollided p = true -> ticks n dt p = Some (p, []).
Proof.
  induction n as [|n IH]; intros dt p Hidle; [reflexivity|].
  cbn [PhysicsEngine.ticks]. rewrite (update_visit_idle dt p Hidle).
  cbn [mbind option_bind]. rewrite (IH dt p Hidle). reflexivity.
Qed.

(** What a flight of [n] steps keeps: the projectile is active and has not
    collided, or it is inactive and has collided; the bounce counter has
    only grown, by the number of bounces made, and not beyond
    [maxBounces]; with a callback installed, every bounce has called it
    once without [final], and the terminal stop once with [final]. *)
Lemma ticks_run dt n : forall p,
  p_active p = true -> p_hasCollided p = false -> is_Some (p_velocity p) ->
  exists p' own,
    ticks n dt p = Some (p', own) /\
    (p_active p' = true /\ p_hasCollided p' = false \/
     p_active p' = false /\ p_hasCollided p' = true) /\
    (bounces_of p <= bounces_of p')%nat /\
    (bounces_of p'
     <= Nat.max (bounces_of p) (JS.nat_or (p_maxBounces p) 3))%nat /\
    List.length (List.filter is_final_call own)
    = (if p_onCollision p && negb (p_active p') then 1 else 0)%nat /\
    List.length (List.filter is_bounce_call own)
    = (if p_onCollision p then bounces_of p' - bounces_of p else 0)%nat.
Proof.
  induction n as [|n IH]; intros p Ha Hc [v Hv].
  - exists p, []. split; [reflexivity|]. split; [by left|].
    split; [lia|]. split; [lia|]. rewrite Ha, andb_false_r, Nat.sub_diag.
    split; [reflexivity | by destruct (p_onCollision p)].
  - destruct (update_visit_cases dt p v Ha Hc Hv) as (Hair & Hbounce & Hstop).
    cbv zeta in Hair, Hbounce, Hstop.
    set (v1 := mkVector3 (vec_x v) (vec_y v + p_gravity p * dt) (vec_z v)) in *.
    set (y1 := vec_y (p_position p) + vec_y v1 * dt) in *.
    cbn [vec_y] in Hair, Hbounce, Hstop. fold y1 in Hair, Hbounce, Hstop.
    cbn [PhysicsEngine.ticks].
    destruct (Qlt_le_dec 0.3 y1) as [Hy | Hy].
    + (* off the ground *)
      rewrite (Hair Hy). cbn [mbind option_bind].
      match goal with
      | |- context [ticks n dt ?q] =>
          destruct (IH q eq_refl eq_refl)
            as (p' & own & Hk & Hfl & Hlo & Hhi & Hf & Hb); [by eexists|]
      end.
      rewrite Hk. exists p', own. split; [reflexivity|]. split; [exact Hfl|].
      split; [exact Hlo|]. split; [exact Hhi|]. split; [exact Hf | exact Hb].
    + destruct (Qlt_le_dec 1 (THREE.length Math_sqrt v1)) as [Hs | Hs];
        [destruct (lt_dec (JS.nat_or (p_bounces p) 0)
                     (JS.nat_or (p_maxBounces p) 3)) as [Hb | Hb]|].
      * (* a bounce *)
        rewrite (Hbounce Hy Hs Hb). cbn [mbind option_bind].
        match goal with
        | |- context [ticks n dt ?q] => set (p1 := q)
        end.
        destruct (IH p1 eq_refl eq_refl)
          as (p' & own & Hk & Hfl & Hlo & Hhi & Hf & Hbc); [by eexists|].
        rewrite Hk.
        assert (Hb1 : bounces_of p1 = S (bounces_of p)).
        { unfold bounces_of, p1, PhysicsEngine.with_motion. cbn [p_bounces].
          rewrite Nat.add_1_r. reflexivity. }
        assert (Hm1 : p_maxBounces p1 = p_maxBounces p) by reflexivity.
        assert (Ho1 : p_onCollision p1 = p_onCollision p) by reflexivity.
        rewrite Hb1 in Hlo, Hhi, Hbc. rewrite Hm1 in Hhi. rewrite Ho1 in Hf, Hbc.
        change (JS.nat_or (p_bounces p) 0) with (bounces_of p) in Hb.
        eexists p', _. split; [reflexivity|]. split; [exact Hfl|].
        split; [lia|]. split; [lia|].
        rewrite !List.filter_app, !length_app.
        destruct (p_onCollision p).
        -- cbn [List.filter is_final_call is_bounce_call negb List.length].
           split; [exact Hf | lia].
        -- split; [exact Hf | exact Hbc].
      * (* too many bounces: the terminal stop *)
        rewrite Hstop; [|exact Hy | intros [_ Hlt]; contradiction].
        cbn [mbind option_bind].
        rewrite ticks_idle by (by left).
        eexists _, _. split; [reflexivity|]. split; [by right|].
        unfold bounces_of, PhysicsEngine.with_motion. cbn [p_bounces p_active].
        split; [lia|]. split; [lia|]. rewrite Nat.sub_diag, app_nil_r.
        destruct (p_onCollision p); split; reflexivity.
      * (* too slow: the terminal stop *)
        rewrite Hstop; [|exact Hy | intros [Hlt _]; lra].
        cbn [mbind option_bind].
        rewrite ticks_idle by (by left).
        eexists _, _. split; [reflexivity|]. split; [by right|].
        unfold bounces_of, PhysicsEngine.with_motion. cbn [p_bounces p_active].
        split; [lia|]. split; [lia|]. rewrite Nat.sub_diag, app_nil_r.
        destruct (p_onCollision p); split; reflexivity.
Qed.

(** A projectile is only stopped by a terminal contact: if it is inactive
    after [n] steps, one of these steps found it active, brought it to the
    ground and found it too slow to bounce or out of bounces. *)
Lemma ticks_stopped dt n : forall p p' own,
  p_active p = true -> p_hasCollided p = false ->
  ticks n dt p = Some (p', own) ->
  p_active p' = false ->
  exists m q ownq vq,
    (m < n)%nat /\ ticks m dt p = Some (q, ownq) /\
    p_active q = true /\ p_hasCollided q = false /\
    p_velocity q = Some vq /\ p_maxBounces q = p_maxBounces p /\
    let v1 := mkVector3 (vec_x vq) (vec_y vq + p_gravity q * dt) (vec_z vq) in
    vec_y (p_position q) + vec_y v1 * dt <= 0.3 /\
    ~ (1 < THREE.length Math_sqrt v1 /\
       (bounces_of q < JS.nat_or (p_maxBounces p) 3)%nat).
Proof.
  induction n as [|n IH]; intros p p' own Ha Hc Hk Hoff.
  - injection Hk as <- _. congruence.
  - cbn [PhysicsEngine.ticks] in Hk.
    destruct (p_velocity p) as [v|] eqn:Hv.
    2:{ unfold PhysicsEngine.update_visit in Hk. rewrite Ha, Hc, Hv in Hk.
        discriminate. }
    destruct (update_visit_cases dt p v Ha Hc Hv) as (Hair & Hbounce & Hstop).
    cbv zeta in Hair, Hbounce, Hstop. cbn [vec_y] in Hair, Hbounce, Hstop.
    assert (Hnext : forall p1 own1,
              visit dt p = Some (p1, own1) ->
              p_active p1 = true -> p_hasCollided p1 = false ->
              p_maxBounces p1 = p_maxBounces p ->
              exists m q ownq vq,
                (m < S n)%nat /\ ticks m dt p = Some (q, ownq) /\
                p_active q = true /\ p_hasCollided q = false /\
                p_velocity q = Some vq /\ p_maxBounces q = p_maxBounces p /\
                vec_y (p_position q)
                + vec_y (mkVector3 (vec_x vq) (vec_y vq + p_gravity q * dt)
                           (vec_z vq)) * dt <= 0.3 /\
                ~ (1 < THREE.length Math_sqrt
                         (mkVector3 (vec_x vq) (vec_y vq + p_gravity q * dt)
                            (vec_z vq)) /\
                   (bounces_of q < JS.nat_or (p_maxBounces p) 3)%nat)).
    { intros p1 own1 Hvis Ha1 Hc1 Hm1. rewrite Hvis in Hk.
      cbn [mbind option_bind] in Hk.
      destruct (ticks n dt p1) as [[p2 own2]|] eqn:Hk1;
        cbn [mbind option_bind] in Hk; [|discriminate].
      injection Hk as <- _.
      destruct (IH p1 p2 own2 Ha1 Hc1 Hk1 Hoff)
        as (m & q & ownq & vq & Hlt & Hkm & Haq & Hcq & Hvq & Hmq & Hyq & Hno).
      exists (S m), q, (own1 ++ ownq), vq.
      split; [lia|]. split.
      { cbn [PhysicsEngine.ticks]. rewrite Hvis. cbn [mbind option_bind].
        rewrite Hkm. reflexivity. }
      split; [exact Haq|]. split; [exact Hcq|]. split; [exact Hvq|].
      split; [congruence|]. split; [exact Hyq|]. rewrite <- Hm1. exact Hno. }
    set (v1 := mkVector3 (vec_x v) (vec_y v + p_gravity p * dt) (vec_z v)) in *.
    destruct (Qlt_le_dec 0.3 (vec_y (p_position p) + vec_y v1 * dt))
      as [Hy | Hy].
    + exact (Hnext _ _ (Hair Hy) eq_refl eq_refl eq_refl).
    + destruct (Qlt_le_dec 1 (THREE.length Math_sqrt v1)) as [Hs | Hs];
        [destruct (lt_dec (JS.nat_or (p_bounces p) 0)
                     (JS.nat_or (p_maxBounces p) 3)) as [Hb | Hb]|].
      * exact (Hnext _ _ (Hbounce Hy Hs Hb) eq_refl eq_refl eq_refl).
      * exists 0%nat, p, [], v. split; [lia|]. split; [reflexivity|].
        split; [exact Ha|]. split; [exact Hc|]. split; [exact Hv|].
        split; [reflexivity|]. cbv zeta. fold v1. split; [exact Hy|].
        intros [_ Hlt]. exact (Hb Hlt).
      * exists 0%nat, p, [], v. split; [lia|]. split; [reflexivity|].
        split; [exact Ha|]. split; [exact Hc|]. split; [exact Hv|].
        split; [reflexivity|]. cbv zeta. fold v1. split; [exact Hy|].
        intros [Hlt _]. lra.
Qed.

(** C8.  For an active projectile of the scene that has not collided,
    stepped by update (every projectile of the scene having a velocity,
    without which update throws), with the time step [dt] update clamps the
    frame to.  A step that ends above the ground height 0.3 moves the
    projectile and keeps its flags and its bounce counter.  A step that
    brings it to the ground with a speed above 1 and fewer than
    [maxBounces] (3 by default) bounces sets the vertical velocity to
    [|vy| * 0.5], scales the horizontal velocity by 0.7, raises the bounce
    counter by one, leaves the projectile active and calls the callback, if
    any, without [final].  Any other ground contact zeroes the velocity,
    sets [active = false] and [hasCollided = true] and calls the callback,
    if any, once with [final = true]; no later update changes the
    projectile again.  Hence, after any number of frames, the projectile is
    either active and not collided or inactive and collided, its bounce
    counter has grown by the bounces it made and not beyond [maxBounces],
    each bounce has called the callback once without [final], and the call
    with [final] has been made once if the projectile has stopped and not
    at all if it is still active; and a projectile that has stopped was
    stopped by a terminal contact: one of the frames found it active at the
    ground, too slow to bounce or with [maxBounces] bounces made, so that a
    projectile whose ground contacts all came with a speed above 1 and
    fewer than [maxBounces] bounces is still active. *)
Theorem projectile_ground_contact (deltaTime : Q) (objects : list Projectile)
    (i : nat) (p : Projectile) (v : Vector3) :
  (forall o, o ∈ objects -> is_Some (p_velocity o)) ->
  objects !! i = Some p ->
  p_active p = true ->
  p_hasCollided p = false ->
  p_velocity p = Some v ->
  let dt := Qmin deltaTime (1 / 30) in
  let v1 := mkVector3 (vec_x v) (vec_y v + p_gravity p * dt) (vec_z v) in
  let pos1 := mkVector3 (vec_x (p_position p) + vec_x v1 * dt)
                        (vec_y (p_position p) + vec_y v1 * dt)
                        (vec_z (p_position p) + vec_z v1 * dt) in
  let pos0 := mkVector3 (vec_x pos1) 0.3 (vec_z pos1) in
  let v2 := mkVector3 (vec_x v1 * 0.7) (Qabs (vec_y v1) * 0.5)
                      (vec_z v1 * 0.7) in
  let speed := THREE.length Math_sqrt v1 in
  let b := JS.nat_or (p_bounces p) 0 in
  let maxBounces := JS.nat_or (p_maxBounces p) 3 in
  (p_maxBounces p = None -> maxBounces = 3%nat) /\
  (exists objects' calls p' own,
     PhysicsEngine.update Math_sqrt deltaTime objects = Some (objects', calls)
     /\ objects' !! i = Some p' /\
     visit dt p = Some (p', own) /\ (forall c, c ∈ own -> c ∈ calls) /\
     (0.3 < vec_y pos1 ->
      p_position p' = pos1 /\ p_velocity p' = Some v1 /\
      p_bounces p' = p_bounces p /\
      p_active p' = true /\ p_hasCollided p' = false /\ own = []) /\
     (vec_y pos1 <= 0.3 -> 1 < speed -> (b < maxBounces)%nat ->
      p_position p' = pos0 /\ p_velocity p' = Some v2 /\
      p_bounces p' = Some (b + 1)%nat /\
      p_active p' = true /\ p_hasCollided p' = false /\
      own = (if p_onCollision p
             then [OnCollision "ground" pos0 v2 (speed / 10) false]
             else [])) /\
     (vec_y pos1 <= 0.3 -> ~ (1 < speed /\ (b < maxBounces)%nat) ->
      p_position p' = pos0 /\ p_velocity p' = Some (mkVector3 0 0 0) /\
      p_bounces p' = p_bounces p /\
      p_active p' = false /\ p_hasCollided p' = true /\
      own = (if p_onCollision p
             then [OnCollision "ground" pos0 (mkVector3 0 0 0) (speed / 10)
                               true]
             else []) /\
      forall deltaTime' objects2 j objects3 calls3,
        objects2 !! j = Some p' ->
        PhysicsEngine.update Math_sqrt deltaTime' objects2
        = Some (objects3, calls3) ->
        objects3 !! j = Some p')) /\
  (forall n, exists objects' calls p' own,
     PhysicsEngine.frames Math_sqrt n deltaTime objects = Some (objects', calls)
     /\ objects' !! i = Some p' /\
     ticks n dt p = Some (p', own) /\ (forall c, c ∈ own -> c ∈ calls) /\
     (p_active p' = true /\ p_hasCollided p' = false \/
      p_active p' = false /\ p_hasCollided p' = true) /\
     (bounces_of p <= bounces_of p')%nat /\
     (bounces_of p' <= Nat.max (bounces_of p) maxBounces)%nat /\
     List.length (List.filter is_final_call own)
     = (if p_onCollision p && negb (p_active p') then 1 else 0)%nat /\
     List.length (List.filter is_bounce_call own)
     = (if p_onCollision p then bounces_of p' - bounces_of p else 0)%nat /\
     (p_active p' = false ->
      exists m q ownq vq,
        (m < n)%nat /\ ticks m dt p = Some (q, ownq) /\
        p_active q = true /\ p_hasCollided q = false /\
        p_velocity q = Some vq /\ p_maxBounces q = p_maxBounces p /\
        let w1 := mkVector3 (vec_x vq) (vec_y vq + p_gravity q * dt)
                    (vec_z vq) in
        vec_y (p_position q) + vec_y w1 * dt <= 0.3 /\
        ~ (1 < THREE.length Math_sqrt w1 /\
           (bounces_of q < maxBounces)%nat))).
Proof.
  intros Hall Hi Ha Hc Hv. cbv zeta.
  split; [intros ->; reflexivity|]. split.
  - destruct (traverse_total (Qmin deltaTime (1 / 30)) objects Hall)
      as (objects' & calls & Ht & _).
    destruct (traverse_lookup _ _ _ _ i p Ht Hi) as (p' & own & Hvis & Hi' & Hsub).
    exists objects', calls, p', own.
    split; [exact Ht|]. split; [exact Hi'|]. split; [exact Hvis|].
    split; [exact Hsub|].
    destruct (update_visit_cases (Qmin deltaTime (1 / 30)) p v Ha Hc Hv)
      as (Hair & Hbounce & Hstop). cbv zeta in Hair, Hbounce, Hstop.
    split; [|split].
    + intros Hy. rewrite (Hair Hy) in Hvis. injection Hvis as <- <-.
      repeat split.
    + intros Hy Hs Hb. rewrite (Hbounce Hy Hs Hb) in Hvis.
      injection Hvis as <- <-. repeat split.
    + intros Hy Hno. rewrite (Hstop Hy Hno) in Hvis.
      injection Hvis as <- <-.
      split; [reflexivity|]. split; [reflexivity|]. split; [reflexivity|].
      split; [reflexivity|]. split; [reflexivity|]. split; [reflexivity|].
      intros deltaTime' objects2 j objects3 calls3 Hj Hup.
      destruct (traverse_lookup _ _ _ _ j _ Hup Hj) as (q & own' & Hq & Hj3 & _).
      rewrite update_visit_idle in Hq by (by left).
      injection Hq as <- _. exact Hj3.
  - intros n.
    destruct (frames_lookup deltaTime n objects i p Hall Hi)
      as (objects' & calls & p' & own & Hf & Hi' & Hk & Hsub).
    destruct (ticks_run (Qmin deltaTime (1 / 30)) n p Ha Hc)
      as (p'' & own' & Hk' & Hfl & Hlo & Hhi & Hfin & Hbn); [by exists v|].
    rewrite Hk in Hk'. injection Hk' as <- <-.
    exists objects', calls, p', own.
    split; [exact Hf|]. split; [exact Hi'|]. split; [exact Hk|].
    split; [exact Hsub|]. split; [exact Hfl|]. split; [exact Hlo|].
    split; [exact Hhi|]. split; [exact Hfin|]. split; [exact Hbn|].
    intros Hoff.
    exact (ticks_stopped (Qmin deltaTime (1 / 30)) n p p' own Ha Hc Hk Hoff).
Qed.
End Integrator.

Lemma projectile_ground_contact_witness :
  exists objects' calls p',
    PhysicsEngine.update Qsqrt 1 [falling_fast; falling_spent]
    = Some (objects', calls) /\
    objects' !! 0%nat = Some p' /\
    p_bounces p' = Some 2%nat /\
    p_active p' = true.
Proof.
  destruct (projectile_ground_contact Qsqrt 1 [falling_fast; falling_spent] 0
              falling_fast (mkVector3 8 (-6) 0)) as (_ & Hstep & _).
  - intros o Ho. apply elem_of_cons in Ho as [-> | Ho]; [by eexists|].
    apply list_elem_of_singleton in Ho. subst o. by eexists.
  - reflexivity.
  - reflexivity.
  - reflexivity.
  - reflexivity.
  - destruct Hstep as (objects' & calls & p' & own & Hup & Hi & _ & _ & _ & Hb & _).
    destruct Hb as (_ & _ & Hbn & Hact & _).
    + vm_compute. discriminate.
    + vm_compute. reflexivity.
    + vm_compute. lia.
    + exists objects', calls, p'.
      split; [exact Hup|]. split; [exact Hi|]. split; [exact Hbn | exact Hact].
Defined.

(** After three bounces the same fall ends the flight. *)
Lemma falling_spent_stops :
  exists p' calls,
    PhysicsEngine.update_visit Qsqrt (1 / 30) falling_spent = Some (p', calls) /\
    p_active p' = false /\ p_hasCollided p' = true /\
    p_velocity p' = Some (mkVector3 0 0 0) /\ p_bounces p' = Some 3%nat.
Proof.
  eexists _, _. split; [vm_compute; reflexivity|]. repeat split.
Qed.

(** ** The bounding-box cache *)

(** What getBoundingBox does for an object that has no entry yet: the box
    is computed from the geometry and cached, and the time stamp set. *)
Lemma getBoundingBox_first (d : CollisionDetector.t) (now : Z)
    (o : Object3D) :
  CollisionDetector.boundingBoxCache d !! uuid o = None ->
  CollisionDetector.getBoundingBox d now (Some o)
  = (Some (worldBox o),
     CollisionDetector.mk
       (<[uuid o := worldBox o]> (CollisionDetector.boundingBoxCache d)) now).
Proof.
  intros Hnone. unfold CollisionDetector.getBoundingBox. rewrite Hnone.
  rewrite !sanitizeVector3_valid.
  assert (Hbox : mkBox3 (box_min (worldBox o)) (box_max (worldBox o))
                 = worldBox o) by (destruct (worldBox o); reflexivity).
  rewrite Hbox. reflexivity.
Qed.

(** C9.  A box returned from the cache need not be fresh.  getBoundingBox
    compares the time of the call with the one time stamp of the whole
    cache, which every write for any object resets: the box computed for an
    object at time [t0] is returned again at any later time [t2], however
    long after [t0] and even when the object has moved since, as soon as a
    box for another object was written less than 100 ms before [t2].  The
    specification has such a request recompute the box, and the field is
    commented as the time-out of the cache. *)
Theorem stale_box_served_from_cache (d : CollisionDetector.t) (t0 t1 t2 : Z)
    (o other o' : Object3D) :
  CollisionDetector.boundingBoxCache d !! uuid o = None ->
  CollisionDetector.boundingBoxCache d !! uuid other = None ->
  uuid other <> uuid o ->
  uuid o' = uuid o ->
  (100 <= t2 - t0)%Z ->
  (t2 - t1 < 100)%Z ->
  let d1 := snd (CollisionDetector.getBoundingBox d t0 (Some o)) in
  let d2 := snd (CollisionDetector.getBoundingBox d1 t1 (Some other)) in
  fst (CollisionDetector.getBoundingBox d t0 (Some o)) = Some (worldBox o) /\
  CollisionDetector.getBoundingBox d2 t2 (Some o') = (Some (worldBox o), d2).
Proof.
  intros Ho Hother Hne Huuid _ Hlt. cbv zeta.
  rewrite (getBoundingBox_first d t0 o Ho). cbn [fst snd].
  split; [reflexivity|].
  rewrite (getBoundingBox_first _ t1 other);
    [|cbn [CollisionDetector.boundingBoxCache];
      etransitivity; [apply lookup_insert_ne; congruence | exact Hother]].
  cbn [snd].
  assert (Hl : (<[uuid other := worldBox other]>
                  (<[uuid o := worldBox o]>
                     (CollisionDetector.boundingBoxCache d)))
               !! uuid o' = Some (worldBox o)).
  { rewrite Huuid. etransitivity; [apply lookup_insert_ne; exact Hne|].
    apply lookup_insert_eq. }
  unfold CollisionDetector.getBoundingBox at 1.
  cbn [CollisionDetector.boundingBoxCache CollisionDetector.lastCacheUpdate].
  rewrite Hl. unfold CollisionDetector.cacheTimeout.
  apply Z.ltb_lt in Hlt. rewrite Hlt. reflexivity.
Qed.

Lemma stale_box_served_from_cache_witness :
  let d1 := snd (CollisionDetector.getBoundingBox CollisionDetector.new 1000
                   (Some crate_1)) in
  let d2 := snd (CollisionDetector.getBoundingBox d1 1090 (Some crate_2)) in
  (fst (CollisionDetector.getBoundingBox CollisionDetector.new 1000
          (Some crate_1)) = Some (worldBox crate_1) /\
   CollisionDetector.getBoundingBox d2 1150 (Some crate_1_moved)
   = (Some (worldBox crate_1), d2)) /\
  worldBox crate_1_moved <> worldBox crate_1.
Proof.
  split.
  - apply (stale_box_served_from_cache CollisionDetector.new 1000 1090 1150
             crate_1 crate_2 crate_1_moved).
    + reflexivity.
    + reflexivity.
    + discriminate.
    + reflexivity.
    + vm_compute. discriminate.
    + reflexivity.
  - vm_compute. discriminate.
Defined.

(** ** Barrels: direct hits and the cascade *)

Section Barrels.
Variable Math_sqrt : Q -> Q.
Variable random : nat -> Q.

(** The cascade scan passes over a barrel that is already exploding. *)
Lemma scanChild_skips_exploding barrel center w id child :
  CollisionManager.heap w !! id = Some child ->
  isExploding (userData child) = true ->
  CollisionManager.scanChild Math_sqrt random barrel center w id = w.
Proof.
  intros Hc He. unfold CollisionManager.scanChild. rewrite Hc, He.
  simpl. rewrite andb_false_r. reflexivity.
Qed.

(** A barrel the scan takes is flagged before its detonation is put on a
    timer, and the delay lies in [100, 300). *)
Lemma scanChild_schedules barrel center w id child :
  CollisionManager.heap w !! id = Some child ->
  0 <= random (CollisionManager.randomCalls w) ->
  random (CollisionManager.randomCalls w) < 1 ->
  CollisionManager.scanChild Math_sqrt random barrel center w id = w \/
  exists delay child',
    100 <= delay /\ delay < 300 /\
    isExploding (userData child) = false /\
    CollisionManager.heap
      (CollisionManager.scanChild Math_sqrt random barrel center w id) !! id
      = Some child' /\
    isExploding (userData child') = true /\
    CollisionManager.tasks
      (CollisionManager.scanChild Math_sqrt random barrel center w id)
      = CollisionManager.tasks w ++ [Detonate delay id].
Proof.
  intros Hc H0 H1. unfold CollisionManager.scanChild. rewrite Hc.
  destruct (isExploding (userData child)) eqn:He.
  { left. simpl. rewrite andb_false_r. reflexivity. }
  destruct (bool_decide _ && bool_decide _ && negb false && inScene child);
    [|by left].
  destruct (JS.ltb _ 8); [|by left].
  right. eexists _, _. split; [|split; [|split; [reflexivity|]]].
  3: { split; [apply lookup_insert_eq|]. split; reflexivity. }
  - lra.
  - lra.
Qed.

(** handleBarrelImpact would leave an exploding barrel alone. *)
Lemma handleBarrelImpact_guard w target impactPoint m :
  CollisionManager.heap w !! mesh target = Some m ->
  isExploding (userData m) = true ->
  CollisionManager.handleBarrelImpact w target impactPoint = w.
Proof.
  intros Hm He. unfold CollisionManager.handleBarrelImpact.
  rewrite Hm, He. reflexivity.
Qed.

(** handleImpactEffects does not ask: a barrel in the scene that is not
    being dragged starts its chain reaction, exploding already or not. *)
Lemma handleImpactEffects_unguarded w target impactPoint impactForce m :
  type target = "barrel" ->
  CollisionManager.heap w !! mesh target = Some m ->
  inScene m = true ->
  isDragging (userData m) = false ->
  CollisionManager.tasks
    (CollisionManager.handleImpactEffects w target impactPoint impactForce)
  = CollisionManager.tasks w
    ++ [ChainReaction (mkTarget (mesh target) "barrel" None true) (position m);
        RemoveBarrel (mkTarget (mesh target) "barrel" None true)].
Proof.
  intros Hty Hm Hin Hdr. unfold CollisionManager.handleImpactEffects.
  rewrite Hty, Hm. simpl String.eqb. cbv iota.
  unfold CollisionManager.triggerBarrelExplosion. simpl mesh.
  rewrite Hm, Hin, Hdr. simpl negb. simpl orb. cbv iota.
  destruct (bool_decide _); simpl from_option; rewrite ?Hdr; simpl;
    destruct (CollisionManager.effectsManager w); simpl;
    rewrite <- app_assoc; reflexivity.
Qed.
End Barrels.

(** C2.  Two fresh barrels six units apart.  A shot hits the first one; its
    chain reaction flags the second barrel and puts its detonation on a
    timer.  A second shot then hits the second barrel: although the barrel
    is flagged, its chain reaction starts, and it starts once more when the
    timer fires. *)
Theorem direct_hit_retriggers_exploding_barrel :
  (isExploding ∘ userData) <$> CollisionManager.heap after_cascade !! 2%nat
    = Some true /\
  existsb (is_detonate_of 2) (CollisionManager.tasks after_cascade) = true /\
  chain_count 2 (CollisionManager.tasks after_cascade) = 0%nat /\
  chain_count 2 (CollisionManager.tasks after_second_hit) = 1%nat /\
  existsb (is_detonate_of 2) (CollisionManager.tasks after_second_hit) = true /\
  chain_count 2 (CollisionManager.tasks after_timer) = 2%nat.
Proof.
  repeat split; vm_compute; reflexivity.
Qed.

(** ** What the per-tick check leaves alone *)

Section Tick.
Variable Math_sqrt : Q -> Q.
Variable Math_pow : Q -> Q -> Q.

(** The force the ground check hands over is the speed itself, not the
    speed over 10 that the integrator's callback and the fallback of the
    handler use. *)
Lemma checkGroundCollision_force_unscaled p v :
  p_velocity p = Some v ->
  CollisionManager.impactSpeed Math_sqrt p
    (CollisionManager.groundCollisionData Math_sqrt p)
  == THREE.length Math_sqrt v.
Proof.
  intros Hv.
  unfold CollisionManager.impactSpeed, CollisionManager.groundCollisionData.
  rewrite Hv. simpl.
  destruct (JS.truthy (THREE.length Math_sqrt v)) eqn:Ht; simpl.
  - rewrite Ht. reflexivity.
  - change (JS.truthy 0) with false. cbv iota.
    apply truthy_false in Ht. rewrite Ht. reflexivity.
Qed.

Lemma applyDamage_frame hp target damage hp' dealt id :
  CollisionManager.applyDamage hp target damage = Some (hp', dealt) ->
  id <> mesh target -> hp' !! id = hp !! id.
Proof.
  unfold CollisionManager.applyDamage. intros H Hid.
  destruct (hp !! mesh target) as [o|]; simpl in H; [|discriminate].
  destruct (health (userData (if JS.falsy (health (userData o))
                              then CollisionManager.initializeTargetHealth
                                     target o
                              else o))); simpl in H; [|discriminate].
  injection H as <- _. apply lookup_insert_ne. congruence.
Qed.

Lemma triggerBarrelExplosion_frame w barrel at_ id :
  id <> mesh barrel ->
  CollisionManager.heap (CollisionManager.triggerBarrelExplosion w barrel at_)
    !! id = CollisionManager.heap w !! id.
Proof.
  intros Hid. unfold CollisionManager.triggerBarrelExplosion.
  destruct (CollisionManager.heap w !! mesh barrel) as [m|]; [|reflexivity].
  destruct (negb (inScene m) || isDragging (userData m)); [reflexivity|].
  destruct (from_option _ false _); [reflexivity|].
  simpl. destruct (CollisionManager.effectsManager w); simpl;
    apply lookup_insert_ne; congruence.
Qed.

Lemma handleImpactEffects_frame w target impactPoint impactForce id :
  id <> mesh target ->
  CollisionManager.heap
    (CollisionManager.handleImpactEffects w target impactPoint impactForce)
    !! id = CollisionManager.heap w !! id.
Proof.
  intros Hid. unfold CollisionManager.handleImpactEffects.
  destruct (String.eqb (type target) "barrel").
  { destruct (CollisionManager.heap w !! mesh target); [|reflexivity].
    by apply triggerBarrelExplosion_frame. }
  destruct (String.eqb (type target) "wall" || String.eqb (type target) "tower").
  { unfold CollisionManager.handleStructureImpact. simpl.
    destruct (CollisionManager.effectsManager w); reflexivity. }
  destruct (String.eqb (type target) "siegeTower"); [|reflexivity].
  unfold CollisionManager.handleSiegeTowerImpact. simpl.
  destruct (CollisionManager.effectsManager w); reflexivity.
Qed.

(** A hit writes the mesh of the target hit, and nothing when that mesh is
    being dragged. *)
Lemma handleTargetCollision_spares_dragged w pid p target id m :
  CollisionManager.heap w !! id = Some m ->
  isDragging (userData m) = true ->
  CollisionManager.heap
    (CollisionManager.handleTargetCollision Math_sqrt Math_pow w pid p target)
    !! id = Some m.
Proof.
  intros Hm Hd. unfold CollisionManager.handleTargetCollision.
  destruct (CollisionManager.heap w !! mesh target) as [m0|] eqn:H0;
    [|exact Hm].
  destruct (p_hasCollided p || isDragging (userData m0)) eqn:Hg; [exact Hm|].
  assert (Hid : id <> mesh target).
  { intros ->. rewrite H0 in Hm. injection Hm as ->.
    rewrite Hd, orb_true_r in Hg. discriminate. }
  destruct (CollisionManager.applyDamage _ target _) as [[hp dealt]|] eqn:Ha;
    [|exact Hm].
  change (CollisionManager.heap (CollisionManager.defer ?ts ?w0))
    with (CollisionManager.heap w0).
  rewrite handleImpactEffects_frame by exact Hid.
  simpl. rewrite (applyDamage_frame _ _ _ _ _ _ Ha Hid). exact Hm.
Qed.

(** The per-tick target loop never touches an object that is being
    dragged, whatever it overlaps. *)
Lemma checkTargets_spares_dragged now pid p targets : forall w id m,
  CollisionManager.heap w !! id = Some m ->
  isDragging (userData m) = true ->
  CollisionManager.heap
    (snd (CollisionManager.checkTargets Math_sqrt Math_pow now w pid p targets))
    !! id = Some m.
Proof.
  induction targets as [|target rest IH]; intros w id m Hm Hd.
  - exact Hm.
  - simpl.
    destruct (CollisionManager.heap w !! mesh target) as [m0|] eqn:H0;
      [|by apply IH].
    destruct (isDragging (userData m0)); [by apply IH|].
    destruct (CollisionDetector.checkProjectileTargetCollision _ _ _ _ _ _)
      as [hit d].
    destruct hit.
    + simpl. by apply handleTargetCollision_spares_dragged.
    + by apply IH.
Qed.

(** A target that is being dragged is passed over by the loop. *)
Lemma checkTargets_skips_dragged now w pid p target rest m :
  CollisionManager.heap w !! mesh target = Some m ->
  isDragging (userData m) = true ->
  CollisionManager.checkTargets Math_sqrt Math_pow now w pid p (target :: rest)
  = CollisionManager.checkTargets Math_sqrt Math_pow now w pid p rest.
Proof.
  intros Hm Hd. simpl. rewrite Hm, Hd. reflexivity.
Qed.
End Tick.

(** ** The targets collected from the scene *)

(** The wrappers of one object all hold that object, and at most one of
    them is not a ground wrapper. *)
Lemma targetsOfObject_wrappers d now id o :
  let ts := fst (CollisionDetector.targetsOfObject d now id o) in
  (forall t, t ∈ ts -> mesh t = id) /\
  (List.length (List.filter damageable ts) <= 1)%nat.
Proof.
  unfold CollisionDetector.targetsOfObject.
  destruct (isProjectile (userData o)).
  { simpl. split; [intros t H; by apply elem_of_nil in H | lia]. }
  destruct (ud_type (userData o)) as [ty|]; [destruct (JS.nonempty ty)|];
    repeat (cbn beta iota zeta; rewrite ?andb_false_r, ?andb_true_r;
            match goal with
            | |- context [CollisionDetector.getBoundingBox ?a ?b ?c] =>
                destruct (CollisionDetector.getBoundingBox a b c)
            | |- context [String.eqb (name o) ?s] =>
                destruct (String.eqb (name o) s)
            end);
    simpl;
    (split;
     [intros tx Hx; repeat (apply elem_of_cons in Hx as [-> | Hx]);
      try reflexivity; by apply elem_of_nil in Hx
     |repeat (match goal with
              | |- context [damageable ?t] => destruct (damageable t); simpl
              end); lia]).
Qed.

Lemma getCollisionTargets_meshes hp cs : forall d now t,
  t ∈ fst (CollisionDetector.getCollisionTargets d now hp cs) -> mesh t ∈ cs.
Proof.
  induction cs as [|id rest IH]; intros d now t Hin.
  - by apply elem_of_nil in Hin.
  - simpl in Hin. destruct (hp !! id) as [o|].
    + destruct (CollisionDetector.targetsOfObject d now id o) as [ts d1] eqn:Ho.
      destruct (CollisionDetector.getCollisionTargets d1 now hp rest)
        as [ts' d2] eqn:Hr.
      simpl in Hin. apply elem_of_app in Hin as [Hin | Hin].
      * destruct (targetsOfObject_wrappers d now id o) as [Hmesh _].
        rewrite Ho in Hmesh. rewrite (Hmesh t Hin). apply elem_of_cons. by left.
      * apply elem_of_cons. right. apply (IH d1 now). by rewrite Hr.
    + apply elem_of_cons. right. by apply (IH d now).
Qed.

(** Over a scene without repeated children, the targets collected meet the
    condition under which the explosion pass was described: the wrappers
    other than ground wrappers hold pairwise distinct meshes. *)
Lemma getCollisionTargets_distinct hp cs : forall d now,
  NoDup cs ->
  NoDup (mesh <$> List.filter damageable
           (fst (CollisionDetector.getCollisionTargets d now hp cs))).
Proof.
  induction cs as [|id rest IH]; intros d now Hnd.
  - simpl. apply NoDup_nil_2.
  - apply NoDup_cons in Hnd as [Hfresh Hnd]. simpl.
    destruct (hp !! id) as [o|]; [|by apply IH].
    destruct (CollisionDetector.targetsOfObject d now id o) as [ts d1] eqn:Ho.
    destruct (CollisionDetector.getCollisionTargets d1 now hp rest)
      as [ts' d2] eqn:Hr.
    simpl. rewrite List.filter_app, fmap_app.
    destruct (targetsOfObject_wrappers d now id o) as [Hmesh Hone].
    rewrite Ho in Hmesh, Hone. simpl in Hmesh, Hone.
    apply NoDup_app. split; [|split].
    + destruct (List.filter damageable ts) as [|t1 [|t2 l]];
        [apply NoDup_nil_2 | apply NoDup_singleton | simpl in Hone; lia].
    + intros x Hx Hx'.
      apply list_elem_of_fmap in Hx as (t & -> & Ht).
      apply list_elem_of_fmap in Hx' as (t' & E & Ht').
      apply list_elem_of_In, filter_In in Ht as [Ht _].
      apply list_elem_of_In, filter_In in Ht' as [Ht' _].
      apply list_elem_of_In in Ht, Ht'.
      rewrite (Hmesh t Ht) in E.
      apply Hfresh. rewrite E.
      apply (getCollisionTargets_meshes hp rest d1 now). by rewrite Hr.
    + specialize (IH d1 now Hnd). by rewrite Hr in IH.
Qed.

Lemma getCollisionTargets_ground_twice :
  fst (CollisionDetector.getCollisionTargets CollisionDetector.new 0 heap_BG
         [1%nat; 2%nat]) = targets_BG.
Proof. vm_compute. reflexivity. Qed.

(** * Further properties of the detector *)

(** isOutOfBounds answers "no" exactly on the closed box of the bounds. *)
Lemma isOutOfBounds_closed_box (p : Vector3)
    (bounds : option CollisionDetector.Bounds) :
  let b := default CollisionDetector.defaultBounds bounds in
  CollisionDetector.isOutOfBounds p bounds = false <->
  (CollisionDetector.r_min (CollisionDetector.b_x b) <= vec_x p /\
   vec_x p <= CollisionDetector.r_max (CollisionDetector.b_x b)) /\
  (CollisionDetector.r_min (CollisionDetector.b_y b) <= vec_y p /\
   vec_y p <= CollisionDetector.r_max (CollisionDetector.b_y b)) /\
  (CollisionDetector.r_min (CollisionDetector.b_z b) <= vec_z p /\
   vec_z p <= CollisionDetector.r_max (CollisionDetector.b_z b)).
Proof.
  intros b. unfold CollisionDetector.isOutOfBounds, Validation.sanitizeVector3.
  fold b. rewrite !orb_false_iff, !ltb_ge. tauto.
Qed.

Lemma radii_lookup (ty : string) :
  CollisionDetector.radii !! ty =
    if String.eqb ty "barrel" then Some 1.0
    else if String.eqb ty "wall" then Some 2.0
    else if String.eqb ty "tower" then Some 3.0
    else if String.eqb ty "siegeTower" then Some 2.5
    else if String.eqb ty "ground" then Some 0.5
    else if String.eqb ty "default" then Some 1.0
    else None.
Proof.
  unfold CollisionDetector.radii.
  destruct (String.eqb_spec ty "barrel") as [->|H1]; [reflexivity|].
  destruct (String.eqb_spec ty "wall") as [->|H2]; [reflexivity|].
  destruct (String.eqb_spec ty "tower") as [->|H3]; [reflexivity|].
  destruct (String.eqb_spec ty "siegeTower") as [->|H4]; [reflexivity|].
  destruct (String.eqb_spec ty "ground") as [->|H5]; [reflexivity|].
  destruct (String.eqb_spec ty "default") as [->|H6]; [reflexivity|].
  rewrite !lookup_insert_ne by congruence.
  apply lookup_singleton_ne. congruence.
Qed.

(** X2.  Every target type has a collision radius between 0.5 and 3, so
    the sphere test never runs with a vanishing radius; a type the table
    does not know gets the default 1.0. *)
Theorem getCollisionRadius_range (ty : string) :
  0.5 <= CollisionDetector.getCollisionRadius ty /\
  CollisionDetector.getCollisionRadius ty <= 3 /\
  (ty <> "barrel" -> ty <> "wall" -> ty <> "tower" -> ty <> "siegeTower" ->
   ty <> "ground" -> CollisionDetector.getCollisionRadius ty == 1).
Proof.
  unfold CollisionDetector.getCollisionRadius, Validation.sanitizeNumber.
  rewrite (radii_lookup ty), (radii_lookup "default").
  destruct (String.eqb_spec ty "barrel");
    [repeat split; try discriminate; intros; contradiction|].
  destruct (String.eqb_spec ty "wall");
    [repeat split; try discriminate; intros; contradiction|].
  destruct (String.eqb_spec ty "tower");
    [repeat split; try discriminate; intros; contradiction|].
  destruct (String.eqb_spec ty "siegeTower");
    [repeat split; try discriminate; intros; contradiction|].
  destruct (String.eqb_spec ty "ground");
    [repeat split; try discriminate; intros; contradiction|].
  destruct (String.eqb ty "default"); repeat split; try discriminate;
    intros; reflexivity.
Qed.

Lemma getCollisionRadius_range_witness :
  CollisionDetector.getCollisionRadius "gate" == 1.
Proof.
  apply (getCollisionRadius_range "gate"); discriminate.
Defined.

(** After a call the detector holds an entry for the object. *)
Lemma getBoundingBox_cached d now o :
  CollisionDetector.boundingBoxCache
    (snd (CollisionDetector.getBoundingBox d now (Some o))) !! uuid o
  = fst (CollisionDetector.getBoundingBox d now (Some o)) /\
  is_Some (fst (CollisionDetector.getBoundingBox d now (Some o))) /\
  (now - CollisionDetector.lastCacheUpdate
           (snd (CollisionDetector.getBoundingBox d now (Some o)))
   < 100)%Z.
Proof.
  unfold CollisionDetector.getBoundingBox, CollisionDetector.cacheTimeout.
  destruct (CollisionDetector.boundingBoxCache d !! uuid o) as [cached|] eqn:Hc.
  - destruct (now - CollisionDetector.lastCacheUpdate d <? 100)%Z eqn:Ht; simpl.
    + split; [exact Hc|]. split; [by eexists|]. by apply Z.ltb_lt.
    + split; [apply lookup_insert_eq|]. split; [by eexists|]. lia.
  - simpl. split; [apply lookup_insert_eq|]. split; [by eexists|]. lia.
Qed.

(** X3.  What getBoundingBox has answered for an object it answers again,
    without touching the detector, for as long as less than 100 ms have
    passed since the last cache write, even when the object has moved in
    the meantime; asking twice at the same instant always gives the same
    box. *)
Theorem getBoundingBox_served_again (d : CollisionDetector.t) (now now2 : Z)
    (o o' : Object3D) :
  uuid o' = uuid o ->
  let r := CollisionDetector.getBoundingBox d now (Some o) in
  ((now2 - CollisionDetector.lastCacheUpdate (snd r) < 100)%Z ->
   CollisionDetector.getBoundingBox (snd r) now2 (Some o') = r) /\
  CollisionDetector.getBoundingBox (snd r) now (Some o') = r.
Proof.
  intros Hid r.
  destruct (getBoundingBox_cached d now o) as (Hc & [box Hbox] & Ht).
  fold r in Hc, Hbox, Ht.
  assert (Hserve : forall t,
            (t - CollisionDetector.lastCacheUpdate (snd r) < 100)%Z ->
            CollisionDetector.getBoundingBox (snd r) t (Some o') = r).
  { intros t Hlt. unfold CollisionDetector.getBoundingBox at 1.
    rewrite Hid, Hc, Hbox. unfold CollisionDetector.cacheTimeout.
    apply Z.ltb_lt in Hlt. rewrite Hlt. rewrite <- Hbox.
    destruct r; reflexivity. }
  split; [apply Hserve | by apply Hserve].
Qed.

Lemma getBoundingBox_served_again_witness :
  let r := CollisionDetector.getBoundingBox CollisionDetector.new 1000
             (Some crate_1) in
  CollisionDetector.getBoundingBox (snd r) 1099 (Some crate_1_moved) = r.
Proof.
  destruct (getBoundingBox_served_again CollisionDetector.new 1000 1099
              crate_1 crate_1_moved) as [Hserve _].
  - reflexivity.
  - apply Hserve. vm_compute. reflexivity.
Defined.

(** X4.  getBoundingBox never drops an entry of the cache, whatever the
    object and the time; only clearCache empties it, and the first call
    after clearCache computes the box from the geometry again, however
    recent the last write was. *)
Theorem boundingBoxCache_lifecycle (d : CollisionDetector.t) (now : Z)
    (o : Object3D) :
  (forall object k,
     is_Some (CollisionDetector.boundingBoxCache d !! k) ->
     is_Some (CollisionDetector.boundingBoxCache
                (snd (CollisionDetector.getBoundingBox d now object)) !! k)) /\
  (forall k, CollisionDetector.boundingBoxCache
               (CollisionDetector.clearCache d) !! k = None) /\
  fst (CollisionDetector.getBoundingBox (CollisionDetector.clearCache d) now
         (Some o)) = Some (worldBox o) /\
  CollisionDetector.boundingBoxCache
    (snd (CollisionDetector.getBoundingBox (CollisionDetector.clearCache d)
            now (Some o))) !! uuid o = Some (worldBox o).
Proof.
  split; [|split; [|split]].
  - intros [obj|] k Hk; [|exact Hk].
    unfold CollisionDetector.getBoundingBox.
    assert (Hins : forall b,
              is_Some (<[uuid obj := b]>
                         (CollisionDetector.boundingBoxCache d) !! k)).
    { intros b. destruct (decide (uuid obj = k)) as [<-|Hne].
      - rewrite lookup_insert_eq. by eexists.
      - by rewrite lookup_insert_ne. }
    destruct (CollisionDetector.boundingBoxCache d !! uuid obj);
      [destruct (_ <? _)%Z|]; simpl; auto.
  - intros k. apply lookup_empty.
  - rewrite getBoundingBox_first by apply lookup_empty. reflexivity.
  - rewrite getBoundingBox_first by apply lookup_empty.
    cbn [snd CollisionDetector.boundingBoxCache]. apply lookup_insert_eq.
Qed.

(** What a wrapper built for the object [o] stored at [id] looks like. *)
Lemma targetsOfObject_sound d now id o t :
  t ∈ fst (CollisionDetector.targetsOfObject d now id o) ->
  mesh t = id /\ isProjectile (userData o) = false /\
  t_explosive t = false /\ is_Some (boundingBox t) /\
  (ud_type (userData o) = Some (type t) \/ name o = type t).
Proof.
  unfold CollisionDetector.targetsOfObject.
  destruct (isProjectile (userData o)) eqn:Hp.
  { simpl. intros H. by apply elem_of_nil in H. }
  match goal with
  | |- context [let '(typed, d1) := ?X in _] =>
      destruct X as [typed d1] eqn:Htyped
  end.
  match goal with
  | |- context [let '(named, d2) := ?X in _] =>
      destruct X as [named d2] eqn:Hnamed
  end.
  simpl. intros Hin. apply elem_of_app in Hin as [Hin | Hin].
  - destruct (ud_type (userData o)) as [ty|] eqn:Hty;
      [destruct (JS.nonempty ty)|].
    + destruct (CollisionDetector.getBoundingBox d now (Some o))
        as [box d'] eqn:Hb.
      injection Htyped as <- <-.
      apply list_elem_of_singleton in Hin. subst t. simpl.
      destruct (getBoundingBox_cached d now o) as (_ & Hsome & _).
      rewrite Hb in Hsome. simpl in Hsome. repeat split; auto.
    + injection Htyped as <- <-. by apply elem_of_nil in Hin.
    + injection Htyped as <- <-. by apply elem_of_nil in Hin.
  - destruct (String.eqb_spec (name o) "ground") as [Hg|_].
    + destruct (CollisionDetector.getBoundingBox d1 now (Some o))
        as [box d'] eqn:Hb.
      injection Hnamed as <- <-.
      apply list_elem_of_singleton in Hin. subst t. simpl.
      destruct (getBoundingBox_cached d1 now o) as (_ & Hsome & _).
      rewrite Hb in Hsome. simpl in Hsome. repeat split; auto.
    + destruct ((String.eqb (name o) "wall" || String.eqb (name o) "tower"
                 || String.eqb (name o) "siegeTower") && _).
      * destruct (CollisionDetector.getBoundingBox d1 now (Some o))
          as [box d'] eqn:Hb.
        injection Hnamed as <- <-.
        apply list_elem_of_singleton in Hin. subst t. simpl.
        destruct (getBoundingBox_cached d1 now o) as (_ & Hsome & _).
        rewrite Hb in Hsome. simpl in Hsome. repeat split; auto.
      * injection Hnamed as <- <-. by apply elem_of_nil in Hin.
Qed.

(** X5.  Every target getCollisionTargets lists wraps an object of the
    scene that is not a projectile, carries a bounding box, and is typed by
    the object's [userData.type] or, failing that, by its name; it never
    carries the [explosive] mark. *)
Theorem getCollisionTargets_sound (hp : Heap) (cs : list nat)
    (d : CollisionDetector.t) (now : Z) (t : Target) :
  t ∈ fst (CollisionDetector.getCollisionTargets d now hp cs) ->
  mesh t ∈ cs /\
  exists o,
    hp !! mesh t = Some o /\
    isProjectile (userData o) = false /\
    t_explosive t = false /\
    is_Some (boundingBox t) /\
    (ud_type (userData o) = Some (type t) \/ name o = type t).
Proof.
  revert d. induction cs as [|id rest IH]; intros d Hin.
  - by apply elem_of_nil in Hin.
  - simpl in Hin. destruct (hp !! id) as [o|] eqn:Ho.
    + destruct (CollisionDetector.targetsOfObject d now id o) as [ts d1] eqn:Hts.
      destruct (CollisionDetector.getCollisionTargets d1 now hp rest)
        as [ts' d2] eqn:Hr.
      simpl in Hin. apply elem_of_app in Hin as [Hin | Hin].
      * destruct (targetsOfObject_sound d now id o t) as (Hm & Hrest).
        { by rewrite Hts. }
        rewrite Hm. split; [apply elem_of_cons; by left|].
        exists o. split; [exact Ho | exact Hrest].
      * destruct (IH d1) as [Hcs Hex]; [by rewrite Hr|].
        split; [apply elem_of_cons; by right | exact Hex].
    + destruct (IH d Hin) as [Hcs Hex].
      split; [apply elem_of_cons; by right | exact Hex].
Qed.

Lemma getCollisionTargets_sound_witness :
  exists o,
    heap_BG !! 1%nat = Some o /\
    isProjectile (userData o) = false /\
    t_explosive (wrapper_of 1 "barrel" barrel_B) = false /\
    is_Some (boundingBox (wrapper_of 1 "barrel" barrel_B)) /\
    (ud_type (userData o) = Some "barrel" \/ name o = "barrel").
Proof.
  apply (getCollisionTargets_sound heap_BG [1%nat; 2%nat]
           CollisionDetector.new 0 (wrapper_of 1 "barrel" barrel_B)).
  vm_compute. apply elem_of_cons. by left.
Defined.

(** A typed object of the scene is listed under its type. *)
Lemma getCollisionTargets_complete hp cs : forall d now id o ty,
  id ∈ cs -> hp !! id = Some o ->
  isProjectile (userData o) = false ->
  ud_type (userData o) = Some ty -> JS.nonempty ty = true ->
  exists box,
    mkTarget id ty box false
      ∈ fst (CollisionDetector.getCollisionTargets d now hp cs).
Proof.
  induction cs as [|c rest IH]; intros d now id o ty Hin Ho Hp Hty Hne.
  - by apply elem_of_nil in Hin.
  - simpl. destruct (hp !! c) as [oc|] eqn:Hc.
    + destruct (CollisionDetector.targetsOfObject d now c oc) as [ts d1] eqn:Hts.
      destruct (CollisionDetector.getCollisionTargets d1 now hp rest)
        as [ts' d2] eqn:Hr.
      simpl. destruct (decide (c = id)) as [->|Hne'].
      * rewrite Ho in Hc. injection Hc as <-.
        unfold CollisionDetector.targetsOfObject in Hts.
        rewrite Hp, Hty, Hne in Hts.
        destruct (CollisionDetector.getBoundingBox d now (Some o)) as [box d'].
        exists box. apply elem_of_app. left.
        match type of Hts with
        | (let '(named, d2) := ?X in _) = _ => destruct X as [named dn]
        end.
        injection Hts as <- _. apply elem_of_cons. by left.
      * apply elem_of_cons in Hin as [-> | Hin]; [contradiction|].
        destruct (IH d1 now id o ty Hin Ho Hp Hty Hne) as [box Hbox].
        rewrite Hr in Hbox. exists box. apply elem_of_app. by right.
    + apply elem_of_cons in Hin as [-> | Hin]; [congruence|].
      by apply (IH d now id o ty).
Qed.

(** * Further properties of the per-tick check *)

Lemma applyDamage_total hp target damage o :
  hp !! mesh target = Some o ->
  exists hp' dealt,
    CollisionManager.applyDamage hp target damage = Some (hp', dealt).
Proof.
  intros Ho. unfold CollisionManager.applyDamage. rewrite Ho. simpl.
  destruct (health (userData o)) as [h|] eqn:Hh; simpl.
  - destruct (JS.truthy h); simpl; rewrite ?Hh; simpl; by eexists _, _.
  - by eexists _, _.
Qed.

Lemma triggerBarrelExplosion_tasks w barrel at_ :
  exists ts,
    CollisionManager.tasks (CollisionManager.triggerBarrelExplosion w barrel at_)
    = CollisionManager.tasks w ++ ts /\
    (forall task, task ∈ ts ->
       task = ChainReaction barrel at_ \/ task = RemoveBarrel barrel).
Proof.
  unfold CollisionManager.triggerBarrelExplosion.
  destruct (CollisionManager.heap w !! mesh barrel) as [m|].
  2: { exists []. split; [by rewrite app_nil_r|].
       intros task H. by apply elem_of_nil in H. }
  destruct (negb (inScene m) || isDragging (userData m)).
  { exists []. split; [by rewrite app_nil_r|].
    intros task H. by apply elem_of_nil in H. }
  destruct (from_option _ false _).
  { exists []. split; [by rewrite app_nil_r|].
    intros task H. by apply elem_of_nil in H. }
  exists [ChainReaction barrel at_; RemoveBarrel barrel]. split.
  - simpl. destruct (CollisionManager.effectsManager w); simpl;
      rewrite <- app_assoc; reflexivity.
  - intros task H. apply elem_of_cons in H as [-> | H]; [by left|].
    apply list_elem_of_singleton in H. by right.
Qed.

Lemma handleImpactEffects_tasks w target impactPoint impactForce :
  exists ts,
    CollisionManager.tasks
      (CollisionManager.handleImpactEffects w target impactPoint impactForce)
    = CollisionManager.tasks w ++ ts /\
    (forall pid t dealt, FinishTargetCollision pid t dealt ∉ ts).
Proof.
  unfold CollisionManager.handleImpactEffects.
  assert (Hnil : exists ts : list Task,
            CollisionManager.tasks w = CollisionManager.tasks w ++ ts /\
            (forall pid t dealt, FinishTargetCollision pid t dealt ∉ ts)).
  { exists []. split; [by rewrite app_nil_r|].
    intros pid t dealt H. by apply elem_of_nil in H. }
  destruct (String.eqb (type target) "barrel").
  { destruct (CollisionManager.heap w !! mesh target) as [m|]; [|exact Hnil].
    destruct (triggerBarrelExplosion_tasks w
                (mkTarget (mesh target) "barrel" None true) (position m))
      as (ts & Hts & Hkind).
    exists ts. split; [exact Hts|].
    intros pid t dealt Hin. destruct (Hkind _ Hin); discriminate. }
  destruct (String.eqb (type target) "wall" || String.eqb (type target) "tower").
  { unfold CollisionManager.handleStructureImpact. simpl.
    destruct (CollisionManager.effectsManager w); exact Hnil. }
  destruct (String.eqb (type target) "siegeTower"); [|exact Hnil].
  unfold CollisionManager.handleSiegeTowerImpact. simpl.
  destruct (CollisionManager.effectsManager w); exact Hnil.
Qed.

Section Tick2.
Variable Math_sqrt : Q -> Q.
Variable Math_pow : Q -> Q -> Q.

Local Abbreviation checkTargets :=
  (CollisionManager.checkTargets Math_sqrt Math_pow).
Local Abbreviation visitProjectile :=
  (CollisionManager.checkCollisions_visit Math_sqrt Math_pow).

Lemma handleGroundCollision_heap w pid p pos cd :
  CollisionManager.heap
    (CollisionManager.handleGroundCollision Math_sqrt w pid p pos cd)
  = CollisionManager.heap w.
Proof.
  unfold CollisionManager.handleGroundCollision.
  repeat (match goal with
          | |- context [if ?b then _ else _] => destruct b
          end); reflexivity.
Qed.

Lemma handleTargetCollision_frame w pid p target id :
  id <> mesh target ->
  CollisionManager.heap
    (CollisionManager.handleTargetCollision Math_sqrt Math_pow w pid p target)
    !! id = CollisionManager.heap w !! id.
Proof.
  intros Hid. unfold CollisionManager.handleTargetCollision.
  destruct (CollisionManager.heap w !! mesh target) as [m0|]; [|reflexivity].
  destruct (p_hasCollided p || isDragging (userData m0)); [reflexivity|].
  destruct (CollisionManager.applyDamage _ target _) as [[hp dealt]|] eqn:Ha;
    [|reflexivity].
  change (CollisionManager.heap (CollisionManager.defer ?ts ?w0))
    with (CollisionManager.heap w0).
  rewrite handleImpactEffects_frame by exact Hid.
  simpl. apply (applyDamage_frame _ _ _ _ _ _ Ha Hid).
Qed.

(** A collision that is handled leaves the rest of handleTargetCollision as
    the last task of the queue. *)
Lemma handleTargetCollision_tasks w pid p target m :
  CollisionManager.heap w !! mesh target = Some m ->
  p_hasCollided p = false -> isDragging (userData m) = false ->
  exists dealt ts,
    CollisionManager.tasks
      (CollisionManager.handleTargetCollision Math_sqrt Math_pow w pid p target)
    = CollisionManager.tasks w ++ ts ++ [FinishTargetCollision pid target dealt]
    /\ (forall pid' t' dealt', FinishTargetCollision pid' t' dealt' ∉ ts).
Proof.
  intros Hm Hc Hd. unfold CollisionManager.handleTargetCollision.
  rewrite Hm, Hc, Hd. simpl orb. cbv iota.
  destruct (applyDamage_total (CollisionManager.heap w) target
              (CollisionManager.calculateDamage Math_pow p
                 (Qmin (match p_velocity p with
                        | Some v => JS.or_default
                                      (Some (THREE.length Math_sqrt v)) 0
                        | None => 0
                        end / 10) 3.0)) m Hm) as (hp & dealt & Ha).
  rewrite Ha.
  destruct (handleImpactEffects_tasks (CollisionManager.with_heap hp w) target
              (p_position p)
              (Qmin (match p_velocity p with
                     | Some v => JS.or_default
                                   (Some (THREE.length Math_sqrt v)) 0
                     | None => 0
                     end / 10) 3.0)) as (ts & Hts & Hno).
  exists dealt, ts. split; [|exact Hno].
  change (CollisionManager.tasks (CollisionManager.defer ?ts0 ?w0))
    with (CollisionManager.tasks w0 ++ ts0).
  rewrite Hts. by rewrite <- app_assoc.
Qed.

(** X7.  checkCollisions, over any projectiles and targets, leaves every
    object that is being dragged exactly as it was: neither its health nor
    any other field of it changes, whatever overlaps it. *)
Theorem checkCollisions_spares_dragged (now : Z) (pids : list nat)
    (targets : option (list Target)) (w : CollisionManager.World) (id : nat)
    (m : Object3D) :
  CollisionManager.heap w !! id = Some m ->
  isDragging (userData m) = true ->
  CollisionManager.heap
    (CollisionManager.checkCollisions Math_sqrt Math_pow now w pids targets)
    !! id = Some m.
Proof.
  intros Hm Hd.
  assert (Hvisit : forall ts pid w0,
            CollisionManager.heap w0 !! id = Some m ->
            CollisionManager.heap (visitProjectile now ts w0 pid) !! id
            = Some m).
  { intros ts pid w0 H0. unfold CollisionManager.checkCollisions_visit.
    destruct (CollisionManager.projectiles w0 !! pid) as [p|]; [|exact H0].
    destruct (negb (CollisionManager.isValidProjectile p)); [exact H0|].
    unfold CollisionManager.checkGroundCollision.
    destruct (JS.leb _ _).
    { by rewrite handleGroundCollision_heap. }
    pose proof (checkTargets_spares_dragged Math_sqrt Math_pow now pid p ts
                  w0 id m H0 Hd) as Hts.
    destruct (checkTargets now w0 pid p ts) as [hit w2]. simpl in Hts.
    destruct hit; [exact Hts|].
    destruct (CollisionDetector.isOutOfBounds _ _); exact Hts. }
  assert (Hfold : forall ts ps w0,
            CollisionManager.heap w0 !! id = Some m ->
            CollisionManager.heap (fold_left (visitProjectile now ts) ps w0)
              !! id = Some m).
  { intros ts ps. induction ps as [|pid ps IH]; intros w0 H0; [exact H0|].
    simpl. apply IH. by apply Hvisit. }
  unfold CollisionManager.checkCollisions.
  destruct pids as [|pid ps]; [exact Hm|].
  destruct targets as [ts|].
  - by apply Hfold.
  - destruct (CollisionDetector.getCollisionTargets _ _ _ _) as [ts d].
    by apply Hfold.
Qed.

(** X8.  checkCollisions ignores a projectile that has already collided
    or has no velocity: over projectiles of that kind only, and with the
    targets handed in, the world is left as it was; and an empty list of
    projectiles returns at once, before the scene is even scanned. *)
Theorem checkCollisions_ignores_invalid (now : Z) (pids : list nat)
    (ts : list Target) (w : CollisionManager.World) :
  (forall pid p, pid ∈ pids -> CollisionManager.projectiles w !! pid = Some p ->
                 p_hasCollided p = true \/ p_velocity p = None) ->
  CollisionManager.checkCollisions Math_sqrt Math_pow now w pids (Some ts) = w /\
  CollisionManager.checkCollisions Math_sqrt Math_pow now w [] None = w.
Proof.
  intros Hinv. split; [|reflexivity].
  unfold CollisionManager.checkCollisions.
  destruct pids as [|pid0 ps0]; [reflexivity|].
  remember (pid0 :: ps0) as ps eqn:E. clear E.
  induction ps as [|pid ps IH]; [reflexivity|].
  simpl.
  assert (Hv : visitProjectile now ts w pid = w).
  { unfold CollisionManager.checkCollisions_visit.
    destruct (CollisionManager.projectiles w !! pid) as [p|] eqn:Hp;
      [|reflexivity].
    assert (Hbad : CollisionManager.isValidProjectile p = false).
    { unfold CollisionManager.isValidProjectile.
      destruct (Hinv pid p) as [-> | ->]; [apply elem_of_cons; by left|exact Hp
                                           |reflexivity|].
      rewrite andb_false_iff. right. apply bool_decide_eq_false.
      intros [v Hv]. discriminate. }
    by rewrite Hbad. }
  rewrite Hv. apply IH.
  intros pid' p' Hin. apply Hinv. apply elem_of_cons. by right.
Qed.

(** X9.  The target loop resolves at most one collision for a projectile:
    it writes at most one object of the heap, and when no target is hit it
    changes nothing but the bounding-box cache.  When a target is hit by a
    projectile that has not collided, the rest of that one collision is
    the last task queued, and no other collision is queued. *)
Theorem checkTargets_one_collision (now : Z) (pid : nat) (p : Projectile)
    (targets : list Target) (w : CollisionManager.World) :
  let r := checkTargets now w pid p targets in
  (exists id0, forall id, id <> id0 ->
     CollisionManager.heap (snd r) !! id = CollisionManager.heap w !! id) /\
  (fst r = false ->
   CollisionManager.heap (snd r) = CollisionManager.heap w /\
   CollisionManager.tasks (snd r) = CollisionManager.tasks w /\
   CollisionManager.effects (snd r) = CollisionManager.effects w /\
   CollisionManager.projectiles (snd r) = CollisionManager.projectiles w) /\
  (fst r = true -> p_hasCollided p = false ->
   exists target dealt ts,
     target ∈ targets /\
     CollisionManager.tasks (snd r)
     = CollisionManager.tasks w ++ ts ++ [FinishTargetCollision pid target dealt]
     /\ (forall pid' t' dealt', FinishTargetCollision pid' t' dealt' ∉ ts)).
Proof.
  revert w. induction targets as [|target rest IH]; intros w r.
  - subst r. simpl. split; [by exists 0%nat|]. split; [done|]. discriminate.
  - subst r. simpl.
    destruct (CollisionManager.heap w !! mesh target) as [m|] eqn:Hm.
    2: { destruct (IH w) as (H1 & H2 & H3). split; [exact H1|].
         split; [exact H2|]. intros Hhit Hc.
         destruct (H3 Hhit Hc) as (t & dealt & ts & Hin & Hts).
         exists t, dealt, ts. split; [apply elem_of_cons; by right | exact Hts]. }
    destruct (isDragging (userData m)) eqn:Hd.
    { destruct (IH w) as (H1 & H2 & H3). split; [exact H1|].
      split; [exact H2|]. intros Hhit Hc.
      destruct (H3 Hhit Hc) as (t & dealt & ts & Hin & Hts).
      exists t, dealt, ts. split; [apply elem_of_cons; by right | exact Hts]. }
    destruct (CollisionDetector.checkProjectileTargetCollision _ _ _ _ _ _)
      as [hit d].
    destruct hit.
    + simpl. split; [|split; [discriminate|]].
      * exists (mesh target). intros id Hid.
        by rewrite handleTargetCollision_frame.
      * intros _ Hc.
        destruct (handleTargetCollision_tasks
                    (CollisionManager.with_detector d w) pid p target m Hm Hc Hd)
          as (dealt & ts & Hts & Hno).
        exists target, dealt, ts. split; [apply elem_of_cons; by left|].
        split; [exact Hts | exact Hno].
    + destruct (IH (CollisionManager.with_detector d w)) as (H1 & H2 & H3).
      split; [exact H1|]. split; [exact H2|]. intros Hhit Hc.
      destruct (H3 Hhit Hc) as (t & dealt & ts & Hin & Hts).
      exists t, dealt, ts. split; [apply elem_of_cons; by right | exact Hts].
Qed.

(** A target loop without a hit has only written the bounding-box cache. *)
Lemma checkTargets_miss now pid p targets : forall w w2,
  checkTargets now w pid p targets = (false, w2) ->
  w2 = CollisionManager.with_detector (CollisionManager.detector w2) w.
Proof.
  induction targets as [|target rest IH]; intros w w2 Hct.
  - injection Hct as <-. by destruct w.
  - cbn [CollisionManager.checkTargets] in Hct.
    destruct (CollisionManager.heap w !! mesh target) as [m|];
      [|by apply IH].
    destruct (isDragging (userData m)); [by apply IH|].
    destruct (CollisionDetector.checkProjectileTargetCollision _ _ _ _ _ _)
      as [hit d].
    destruct hit; [discriminate|].
    by rewrite (IH _ _ Hct) at 1.
Qed.

End Tick2.


Lemma checkCollisions_spares_dragged_witness :
  CollisionManager.heap
    (CollisionManager.checkCollisions Qsqrt (fun x _ => Qpow15 x) 0
       (CollisionManager.mkWorld {[ 1%nat := wall_dragged ]} [1%nat]
          {[ 1%nat := projectile_at (mkVector3 3 1 0.5) (mkVector3 0 0 (-20)) 0 ]}
          CollisionDetector.new true 0 [] [])
       [1%nat] None) !! 1%nat = Some wall_dragged.
Proof.
  apply (checkCollisions_spares_dragged Qsqrt (fun x _ => Qpow15 x) 0).
  - reflexivity.
  - reflexivity.
Defined.

Lemma checkCollisions_ignores_invalid_witness :
  CollisionManager.checkCollisions Qsqrt (fun x _ => Qpow15 x) 0
    (world_with_wall spent_projectile) [1%nat]
    (Some [wrapper_of 1 "wall" wall_A])
  = world_with_wall spent_projectile.
Proof.
  apply (checkCollisions_ignores_invalid Qsqrt (fun x _ => Qpow15 x) 0 [1%nat]
           [wrapper_of 1 "wall" wall_A] (world_with_wall spent_projectile)).
  intros pid p Hin Hp. apply list_elem_of_singleton in Hin. subst pid.
  vm_compute in Hp. injection Hp as <-. left. reflexivity.
Defined.

Lemma checkTargets_one_collision_witness :
  exists target dealt ts,
    target ∈ [wrapper_of 1 "wall" wall_A] /\
    CollisionManager.tasks
      (snd (CollisionManager.checkTargets Qsqrt (fun x _ => Qpow15 x) 0
              (world_with_wall shot_A) 1 shot_A [wrapper_of 1 "wall" wall_A]))
    = [] ++ ts ++ [FinishTargetCollision 1 target dealt] /\
    (forall pid' t' dealt', FinishTargetCollision pid' t' dealt' ∉ ts).
Proof.
  apply (checkTargets_one_collision Qsqrt (fun x _ => Qpow15 x) 0 1 shot_A
           [wrapper_of 1 "wall" wall_A] (world_with_wall shot_A)).
  - vm_compute. reflexivity.
  - reflexivity.
Defined.

(** * Further properties of the barrel cascade *)

Lemma heap_insert_eq (hp : Heap) (i : nat) (x : Object3D) :
  <[i := x]> hp !! i = Some x.
Proof. apply lookup_insert_eq. Qed.

Lemma heap_insert_ne (hp : Heap) (i j : nat) (x : Object3D) :
  i <> j -> <[i := x]> hp !! j = hp !! j.
Proof. apply lookup_insert_ne. Qed.

Lemma heap_alter_eq (hp : Heap) (f : Object3D -> Object3D) (i : nat) :
  alter f i hp !! i = f <$> hp !! i.
Proof. apply lookup_alter_eq. Qed.

Lemma heap_alter_ne (hp : Heap) (f : Object3D -> Object3D) (i j : nat) :
  i <> j -> alter f i hp !! j = hp !! j.
Proof. apply lookup_alter_ne. Qed.

Section Cascade.
Variable Math_sqrt : Q -> Q.
Variable random : nat -> Q.
Hypothesis random_unit : forall k, 0 <= random k /\ random k < 1.

Local Abbreviation scanChild := (CollisionManager.scanChild Math_sqrt random).

(** One child of the scan: passed over, or flagged and put on a timer. *)
Lemma scanChild_step barrel center w id :
  scanChild barrel center w id = w \/
  exists child delay,
    CollisionManager.heap w !! id = Some child /\
    ud_type (userData child) = Some "barrel" /\ id <> mesh barrel /\
    isExploding (userData child) = false /\ inScene child = true /\
    THREE.distanceTo Math_sqrt center (position child) < 8 /\
    100 <= delay /\ delay < 300 /\
    CollisionManager.heap (scanChild barrel center w id)
    = <[id := flagged child]> (CollisionManager.heap w) /\
    CollisionManager.tasks (scanChild barrel center w id)
    = CollisionManager.tasks w ++ [Detonate delay id] /\
    CollisionManager.children (scanChild barrel center w id)
    = CollisionManager.children w /\
    CollisionManager.effects (scanChild barrel center w id)
    = CollisionManager.effects w.
Proof.
  unfold CollisionManager.scanChild.
  destruct (CollisionManager.heap w !! id) as [child|]; [|by left].
  destruct (bool_decide (ud_type (userData child) = Some "barrel")) eqn:Hty;
    [|by left].
  destruct (bool_decide (id ≠ mesh barrel)) eqn:Hne; [|by left].
  destruct (isExploding (userData child)) eqn:He; [by left|].
  destruct (inScene child) eqn:Hin; [|by left].
  simpl andb. cbv iota.
  destruct (JS.ltb _ 8) eqn:Hd; [|by left].
  right. exists child, (100 + random (CollisionManager.randomCalls w) * 200).
  apply bool_decide_eq_true in Hty. apply bool_decide_eq_true in Hne.
  apply ltb_lt in Hd.
  destruct (random_unit (CollisionManager.randomCalls w)) as [H0 H1].
  split; [reflexivity|]. split; [exact Hty|]. split; [exact Hne|].
  split; [exact He|]. split; [exact Hin|]. split; [exact Hd|].
  split; [lra|]. split; [lra|]. repeat split.
Qed.

Lemma cascade_scan_inv barrel center cs : forall w,
  let w' := fold_left (scanChild barrel center) cs w in
  exists new,
    CollisionManager.tasks w' = CollisionManager.tasks w ++ new /\
    (forall task, task ∈ new ->
       exists delay id child,
         task = Detonate delay id /\ 100 <= delay /\ delay < 300 /\
         id ∈ cs /\ id <> mesh barrel /\
         CollisionManager.heap w !! id = Some child /\
         ud_type (userData child) = Some "barrel" /\
         isExploding (userData child) = false /\ inScene child = true /\
         THREE.distanceTo Math_sqrt center (position child) < 8 /\
         CollisionManager.heap w' !! id = Some (flagged child)) /\
    (forall i, CollisionManager.heap w' !! i = CollisionManager.heap w !! i \/
               exists c, CollisionManager.heap w !! i = Some c /\
                         isExploding (userData c) = false /\
                         CollisionManager.heap w' !! i = Some (flagged c)) /\
    CollisionManager.children w' = CollisionManager.children w /\
    CollisionManager.effects w' = CollisionManager.effects w.
Proof.
  induction cs as [|id rest IH]; intros w w'.
  - exists []. subst w'. simpl. rewrite app_nil_r.
    repeat split; auto. intros task H. by apply elem_of_nil in H.
  - subst w'. simpl.
    destruct (IH (scanChild barrel center w id))
      as (new1 & Ht & Hnew & Hrel & Hch & Hef).
    destruct (scanChild_step barrel center w id)
      as [Hsame | (child & delay & Hc & Hty & Hne & He & Hin & Hd & Hlo & Hhi
                   & Hheap & Htasks & Hchildren & Heffects)].
    + rewrite Hsame in *. exists new1. split; [exact Ht|]. split; [|auto].
      intros task Hin. destruct (Hnew task Hin)
        as (dl & i & c & -> & H1 & H2 & H3 & Hrest).
      exists dl, i, c. repeat split; try tauto. apply elem_of_cons. by right.
    + set (w1 := scanChild barrel center w id) in *.
      assert (Hfl : CollisionManager.heap
                      (fold_left (scanChild barrel center) rest w1) !! id
                    = Some (flagged child)).
      { destruct (Hrel id) as [-> | (c & Hc1 & Hfalse & _)].
        - rewrite Hheap. apply lookup_insert_eq.
        - rewrite Hheap, heap_insert_eq in Hc1. injection Hc1 as <-.
          discriminate Hfalse. }
      exists (Detonate delay id :: new1).
      split; [rewrite Ht, Htasks, <- app_assoc; reflexivity|].
      split; [|split; [|split; congruence]].
      * intros task Hin'. apply elem_of_cons in Hin' as [-> | Hin'].
        -- exists delay, id, child. repeat split; auto.
           apply elem_of_cons. by left.
        -- destruct (Hnew task Hin')
             as (dl & i & c & -> & H1 & H2 & H3 & H4 & H5 & H6 & H7 & H8 & H9
                 & H10).
           assert (Hi : i <> id).
           { intros ->. rewrite Hheap, heap_insert_eq in H5.
             injection H5 as <-. discriminate H7. }
           rewrite Hheap, heap_insert_ne in H5 by congruence.
           exists dl, i, c. repeat split; auto. apply elem_of_cons. by right.
      * intros i. destruct (decide (i = id)) as [-> | Hi].
        -- right. exists child. auto.
        -- destruct (Hrel i) as [Heq | (c & Hc1 & Hf & Hc2)].
           ++ left. rewrite Heq, Hheap. by apply lookup_insert_ne.
           ++ right. exists c.
              rewrite Hheap, heap_insert_ne in Hc1 by congruence. auto.
Qed.

(** X10.  The barrel scan of a chain reaction, over all the children of the
    scene.  Every timer it sets is for a barrel other than the exploding
    one that was in the scene, not yet exploding and less than 8 units
    from the centre, with a delay in [100, 300); that barrel is flagged
    before the scan moves on.  A barrel that was already exploding is left
    as it was and gets no timer.  The scan neither removes a child nor
    calls a collaborator. *)
Theorem cascade_scan (barrel : Target) (center : Vector3)
    (w : CollisionManager.World) (cs : list nat) :
  let w' := fold_left (scanChild barrel center) cs w in
  exists new,
    CollisionManager.tasks w' = CollisionManager.tasks w ++ new /\
    (forall task, task ∈ new ->
       exists delay id child,
         task = Detonate delay id /\ 100 <= delay /\ delay < 300 /\
         id ∈ cs /\ id <> mesh barrel /\
         CollisionManager.heap w !! id = Some child /\
         ud_type (userData child) = Some "barrel" /\
         isExploding (userData child) = false /\ inScene child = true /\
         THREE.distanceTo Math_sqrt center (position child) < 8 /\
         CollisionManager.heap w' !! id = Some (flagged child)) /\
    (forall id child,
       CollisionManager.heap w !! id = Some child ->
       isExploding (userData child) = true ->
       CollisionManager.heap w' !! id = Some child /\
       forall delay, Detonate delay id ∉ new) /\
    CollisionManager.children w' = CollisionManager.children w /\
    CollisionManager.effects w' = CollisionManager.effects w.
Proof.
  intros w'.
  destruct (cascade_scan_inv barrel center cs w)
    as (new & Ht & Hnew & Hrel & Hch & Hef).
  exists new. split; [exact Ht|]. split; [exact Hnew|].
  split; [|split; assumption].
  intros id child Hc He. split.
  - destruct (Hrel id) as [Heq | (c & Hc1 & Hf & _)].
    + subst w'. by rewrite Heq.
    + rewrite Hc in Hc1. injection Hc1 as <-. congruence.
  - intros delay Hin.
    destruct (Hnew _ Hin) as (dl & i & c & E & _ & _ & _ & _ & Hc1 & _ & Hf & _).
    injection E as _ <-. rewrite Hc in Hc1. injection Hc1 as <-. congruence.
Qed.
End Cascade.

Lemma cascade_scan_witness :
  exists new,
    CollisionManager.tasks
      (fold_left
         (CollisionManager.scanChild Qsqrt coin
            (mkTarget 1 "barrel" None true) (mkVector3 0 1 0))
         [1%nat; 2%nat] world_two_barrels)
    = [] ++ new /\
    (forall task, task ∈ new ->
       exists delay id, task = Detonate delay id /\ 100 <= delay /\
                        delay < 300).
Proof.
  destruct (cascade_scan Qsqrt coin) with
    (barrel := mkTarget 1 "barrel" None true) (center := mkVector3 0 1 0)
    (w := world_two_barrels) (cs := [1%nat; 2%nat])
    as (new & Ht & Hnew & _).
  - intros k. split; vm_compute; [discriminate | reflexivity].
  - exists new. split; [exact Ht|].
    intros task Hin.
    destruct (Hnew task Hin) as (delay & id & child & E & Hlo & Hhi & _).
    by exists delay, id.
Defined.

(** X11.  triggerBarrelExplosion never detonates a barrel that is being
    dragged or has left the scene: the world is returned as it is.  For
    any other barrel, exploding already or not, it sets [isExploding] and
    [explosive], queues the chain reaction and then the removal, and leaves
    the barrel among the children of the scene until that removal runs. *)
Theorem triggerBarrelExplosion_guards (w : CollisionManager.World)
    (barrel : Target) (at_ : Vector3) (m : Object3D) :
  CollisionManager.heap w !! mesh barrel = Some m ->
  (inScene m = false \/ isDragging (userData m) = true ->
   CollisionManager.triggerBarrelExplosion w barrel at_ = w) /\
  (inScene m = true -> isDragging (userData m) = false ->
   let w' := CollisionManager.triggerBarrelExplosion w barrel at_ in
   CollisionManager.heap w'
   = <[mesh barrel := with_userData (set_exploding true true (userData m)) m]>
       (CollisionManager.heap w) /\
   CollisionManager.tasks w'
   = CollisionManager.tasks w
     ++ [ChainReaction barrel at_; RemoveBarrel barrel] /\
   CollisionManager.children w' = CollisionManager.children w /\
   CollisionManager.projectiles w' = CollisionManager.projectiles w).
Proof.
  intros Hm. unfold CollisionManager.triggerBarrelExplosion. rewrite Hm.
  split.
  - intros [-> | ->]; [reflexivity|]. by rewrite orb_true_r.
  - intros -> Hd. rewrite Hd. simpl negb. simpl orb. cbv iota.
    destruct (bool_decide _); simpl from_option; rewrite ?Hd; simpl;
      destruct (CollisionManager.effectsManager w); simpl;
      rewrite <- app_assoc; repeat split.
Qed.

Lemma triggerBarrelExplosion_guards_witness :
  CollisionManager.triggerBarrelExplosion
    (CollisionManager.mkWorld
       {[ 1%nat := object_of "barrel-1" "barrel" (mkVector3 0 1 0) None true
                     false ]}
       [1%nat] ∅ CollisionDetector.new true 0 [] [])
    (mkTarget 1 "barrel" None true) (mkVector3 0 1 0)
  = CollisionManager.mkWorld
      {[ 1%nat := object_of "barrel-1" "barrel" (mkVector3 0 1 0) None true
                    false ]}
      [1%nat] ∅ CollisionDetector.new true 0 [] [].
Proof.
  eapply triggerBarrelExplosion_guards.
  - reflexivity.
  - right. reflexivity.
Defined.

Lemma scene_remove_gone id w :
  id ∉ CollisionManager.children (CollisionManager.scene_remove id w).
Proof.
  unfold CollisionManager.scene_remove.
  destruct (bool_decide (id ∈ CollisionManager.children w)) eqn:Hin.
  - simpl. intros H. apply list_elem_of_filter in H as [Hne _]. by apply Hne.
  - by apply bool_decide_eq_false in Hin.
Qed.

Lemma scene_remove_inScene id w o :
  id ∈ CollisionManager.children w ->
  CollisionManager.heap w !! id = Some o ->
  CollisionManager.heap (CollisionManager.scene_remove id w) !! id
  = Some (with_inScene false o).
Proof.
  intros Hin Ho. unfold CollisionManager.scene_remove.
  rewrite bool_decide_eq_true_2 by exact Hin. simpl.
  rewrite heap_alter_eq, Ho. reflexivity.
Qed.

(** X12.  Once the removal step of a barrel's explosion has run, the timer
    a cascade had set for that barrel does nothing any more: the callback
    finds the barrel out of the scene and returns. *)
Theorem timer_after_removal (Math_sqrt : Q -> Q) (random : nat -> Q)
    (now now' : Z) (w : CollisionManager.World) (barrel : Target)
    (delay : Q) :
  mesh barrel ∈ CollisionManager.children w ->
  let w1 := CollisionManager.run_task Math_sqrt random now w
              (RemoveBarrel barrel) in
  (mesh barrel ∉ CollisionManager.children w1) /\
  CollisionManager.run_task Math_sqrt random now' w1
    (Detonate delay (mesh barrel)) = w1.
Proof.
  intros Hin w1. subst w1. simpl. split; [apply scene_remove_gone|].
  destruct (CollisionManager.heap w !! mesh barrel) as [o|] eqn:Ho.
  - rewrite (scene_remove_inScene _ _ _ Hin Ho). reflexivity.
  - unfold CollisionManager.scene_remove.
    rewrite bool_decide_eq_true_2 by exact Hin. simpl.
    rewrite heap_alter_eq, Ho. reflexivity.
Qed.

Lemma timer_after_removal_witness :
  let w1 := CollisionManager.run_task Qsqrt coin 300 after_second_hit
              (RemoveBarrel (mkTarget 2 "barrel" None true)) in
  CollisionManager.run_task Qsqrt coin 320 w1 (Detonate 200 2) = w1.
Proof.
  apply (timer_after_removal Qsqrt coin 300 320 after_second_hit
           (mkTarget 2 "barrel" None true) 200).
  vm_compute. apply elem_of_cons. right. apply elem_of_cons. by left.
Defined.

(** The impact effects never touch the health of an object. *)
Lemma handleImpactEffects_health w target impactPoint impactForce id :
  (health ∘ userData) <$>
    (CollisionManager.heap
       (CollisionManager.handleImpactEffects w target impactPoint impactForce)
     !! id)
  = (health ∘ userData) <$> (CollisionManager.heap w !! id).
Proof.
  unfold CollisionManager.handleImpactEffects.
  destruct (String.eqb (type target) "barrel").
  { destruct (CollisionManager.heap w !! mesh target) as [m|] eqn:Hm;
      [|reflexivity].
    unfold CollisionManager.triggerBarrelExplosion. simpl mesh. rewrite Hm.
    destruct (negb (inScene m) || isDragging (userData m)); [reflexivity|].
    destruct (from_option _ false _); [reflexivity|].
    assert (Hh : forall w0 : CollisionManager.World,
              CollisionManager.heap w0
              = <[mesh target :=
                    with_userData (set_exploding true true (userData m)) m]>
                  (CollisionManager.heap w) ->
              (health ∘ userData) <$> (CollisionManager.heap w0 !! id)
              = (health ∘ userData) <$> (CollisionManager.heap w !! id)).
    { intros w0 ->. destruct (decide (mesh target = id)) as [<-|Hne].
      - rewrite heap_insert_eq, Hm. reflexivity.
      - by rewrite heap_insert_ne. }
    apply Hh. simpl. destruct (CollisionManager.effectsManager w); reflexivity. }
  destruct (String.eqb (type target) "wall" || String.eqb (type target) "tower").
  { unfold CollisionManager.handleStructureImpact. simpl.
    destruct (CollisionManager.effectsManager w); reflexivity. }
  destruct (String.eqb (type target) "siegeTower"); [|reflexivity].
  unfold CollisionManager.handleSiegeTowerImpact. simpl.
  destruct (CollisionManager.effectsManager w); reflexivity.
Qed.

(** What the blast of a chain reaction reads of an object: where it is,
    its type, its health and whether it is a projectile.  The barrel scan
    keeps all four, and the children of the scene. *)
Lemma scanChild_keeps Math_sqrt random barrel center w id :
  CollisionManager.children
    (CollisionManager.scanChild Math_sqrt random barrel center w id)
  = CollisionManager.children w /\
  forall i o,
    CollisionManager.heap w !! i = Some o ->
    exists o',
      CollisionManager.heap
        (CollisionManager.scanChild Math_sqrt random barrel center w id) !! i
      = Some o' /\
      position o' = position o /\
      ud_type (userData o') = ud_type (userData o) /\
      health (userData o') = health (userData o) /\
      isProjectile (userData o') = isProjectile (userData o).
Proof.
  unfold CollisionManager.scanChild.
  destruct (CollisionManager.heap w !! id) as [child|] eqn:Hc;
    [|split; [reflexivity | intros i o Ho; by exists o]].
  destruct (_ && inScene child);
    [|split; [reflexivity | intros i o Ho; by exists o]].
  destruct (JS.ltb _ _);
    [|split; [reflexivity | intros i o Ho; by exists o]].
  split; [reflexivity|]. intros i o Ho.
  change (CollisionManager.heap (CollisionManager.defer ?ts ?w0))
    with (CollisionManager.heap w0).
  cbn [CollisionManager.heap CollisionManager.with_randomCalls
       CollisionManager.with_heap].
  destruct (decide (i = id)) as [->|Hne].
  - rewrite heap_insert_eq. rewrite Hc in Ho. injection Ho as <-.
    eexists. split; [reflexivity|]. repeat split.
  - rewrite heap_insert_ne by congruence. by exists o.
Qed.

Lemma scan_keeps Math_sqrt random barrel center cs : forall w,
  CollisionManager.children
    (fold_left (CollisionManager.scanChild Math_sqrt random barrel center)
       cs w)
  = CollisionManager.children w /\
  forall i o,
    CollisionManager.heap w !! i = Some o ->
    exists o',
      CollisionManager.heap
        (fold_left (CollisionManager.scanChild Math_sqrt random barrel center)
           cs w) !! i
      = Some o' /\
      position o' = position o /\
      ud_type (userData o') = ud_type (userData o) /\
      health (userData o') = health (userData o) /\
      isProjectile (userData o') = isProjectile (userData o).
Proof.
  induction cs as [|id rest IH]; intros w.
  - split; [reflexivity|]. intros i o Ho. by exists o.
  - cbn [fold_left].
    destruct (scanChild_keeps Math_sqrt random barrel center w id)
      as [Hch Hkeep].
    destruct (IH (CollisionManager.scanChild Math_sqrt random barrel center
                    w id)) as [Hch' Hkeep'].
    split; [by rewrite Hch', Hch|]. intros i o Ho.
    destruct (Hkeep i o Ho) as (o1 & Ho1 & E1 & E2 & E3 & E4).
    destruct (Hkeep' i o1 Ho1) as (o2 & Ho2 & F1 & F2 & F3 & F4).
    exists o2. split; [exact Ho2|]. repeat split; congruence.
Qed.

(** Neither the start of a barrel's explosion nor the destruction of a
    target writes the health of any object. *)
Lemma triggerBarrelExplosion_health w barrel at_ id :
  (health ∘ userData) <$>
    (CollisionManager.heap (CollisionManager.triggerBarrelExplosion w barrel at_)
     !! id)
  = (health ∘ userData) <$> (CollisionManager.heap w !! id).
Proof.
  unfold CollisionManager.triggerBarrelExplosion.
  destruct (CollisionManager.heap w !! mesh barrel) as [m|] eqn:Hm;
    [|reflexivity].
  destruct (negb (inScene m) || isDragging (userData m)); [reflexivity|].
  destruct (from_option _ false _); [reflexivity|].
  assert (Hh : forall w0 : CollisionManager.World,
            CollisionManager.heap w0
            = <[mesh barrel :=
                  with_userData (set_exploding true true (userData m)) m]>
                (CollisionManager.heap w) ->
            (health ∘ userData) <$> (CollisionManager.heap w0 !! id)
            = (health ∘ userData) <$> (CollisionManager.heap w !! id)).
  { intros w0 ->. destruct (decide (mesh barrel = id)) as [<-|Hne].
    - rewrite heap_insert_eq, Hm. reflexivity.
    - by rewrite heap_insert_ne. }
  apply Hh. simpl. destruct (CollisionManager.effectsManager w); reflexivity.
Qed.

Lemma finishDestroy_health w target id :
  (health ∘ userData) <$>
    (CollisionManager.heap (CollisionManager.finishDestroy w target) !! id)
  = (health ∘ userData) <$> (CollisionManager.heap w !! id).
Proof.
  unfold CollisionManager.finishDestroy.
  destruct (CollisionManager.heap w !! mesh target) as [m|]; [|reflexivity].
  change (CollisionManager.heap (CollisionManager.emit ?es ?w0))
    with (CollisionManager.heap w0).
  destruct (inScene m); [|reflexivity].
  unfold CollisionManager.scene_remove.
  destruct (bool_decide _); [|reflexivity].
  cbn [CollisionManager.heap CollisionManager.with_children
       CollisionManager.with_heap].
  destruct (decide (mesh target = id)) as [<-|Hne].
  - rewrite heap_alter_eq.
    destruct (CollisionManager.heap w !! mesh target); reflexivity.
  - by rewrite heap_alter_ne.
Qed.

Lemma destroyTarget_health w target at_ id :
  (health ∘ userData) <$>
    (CollisionManager.heap (CollisionManager.destroyTarget w target at_) !! id)
  = (health ∘ userData) <$> (CollisionManager.heap w !! id).
Proof.
  unfold CollisionManager.destroyTarget.
  destruct (CollisionManager.heap w !! mesh target); [|reflexivity].
  destruct (String.eqb (type target) "wall" || String.eqb (type target) "tower");
    [reflexivity|].
  destruct (String.eqb (type target) "siegeTower"); [reflexivity|].
  destruct (String.eqb (type target) "barrel");
    [|apply finishDestroy_health].
  destruct (t_explosive target); [|reflexivity].
  change (CollisionManager.heap (CollisionManager.defer ?ts ?w0))
    with (CollisionManager.heap w0).
  apply triggerBarrelExplosion_health.
Qed.

Lemma destroyDamaged_health infos : forall w id,
  (health ∘ userData) <$>
    (CollisionManager.heap (CollisionManager.destroyDamaged w infos) !! id)
  = (health ∘ userData) <$> (CollisionManager.heap w !! id).
Proof.
  unfold CollisionManager.destroyDamaged.
  induction infos as [|info rest IH]; intros w id; [reflexivity|].
  cbn [fold_left]. rewrite IH.
  destruct (DamageHandler.destroyed info); [|reflexivity].
  destruct (CollisionManager.heap w !! mesh (DamageHandler.target info));
    [|reflexivity].
  apply destroyTarget_health.
Qed.

(** X6.  handleChainReaction, once its sound has played, damages every
    typed object of the scene other than the ground that lies within 8 of
    the explosion, once: in a scene whose children are distinct, an object
    at distance [d < 8] leaves the call with
    [max(0, health - floor(150 * (1 - d / 8)))], every operation returning
    a double as in the program, whatever the barrel scan has flagged on the
    way and whatever has been destroyed after the damage pass; [health] is
    the object's own, or the explosion base health of its type when it had
    none. *)
Theorem handleChainReaction_damage (Math_sqrt : Q -> Q) (random : nat -> Q)
    (now : Z) (w : CollisionManager.World) (barrel : Target)
    (position0 : Vector3) (id : nat) (o : Object3D) (ty : string) :
  NoDup (CollisionManager.children w) ->
  id ∈ CollisionManager.children w ->
  CollisionManager.heap w !! id = Some o ->
  isProjectile (userData o) = false ->
  ud_type (userData o) = Some ty -> JS.nonempty ty = true ->
  ty <> "ground" ->
  Double.distanceTo Math_sqrt position0 (position o) < 8 ->
  let w' := CollisionManager.handleChainReaction Math_sqrt random now w barrel
              position0 in
  (health ∘ userData) <$> (CollisionManager.heap w' !! id)
  = Some (Some (Qmax 0
                  (Double.sub (healthBeforeExplosion ty o)
                     (double_explosion_damage 150 8
                        (Double.distanceTo Math_sqrt position0
                           (position o)))))).
Proof.
  intros Hnd Hin Ho Hp Hty Hne Hg Hd. cbv zeta.
  unfold CollisionManager.handleChainReaction.
  set (w1 := if CollisionManager.effectsManager w then _ else w).
  assert (Hh1 : CollisionManager.heap w1 = CollisionManager.heap w)
    by (unfold w1; by destruct (CollisionManager.effectsManager w)).
  assert (Hc1 : CollisionManager.children w1 = CollisionManager.children w)
    by (unfold w1; by destruct (CollisionManager.effectsManager w)).
  clearbody w1.
  destruct (scan_keeps Math_sqrt random barrel position0
              (CollisionManager.children w1) w1) as [Hch Hkeep].
  set (w2 := fold_left _ (CollisionManager.children w1) w1) in *.
  clearbody w2.
  destruct (Hkeep id o) as (o2 & Ho2 & E1 & E2 & E3 & E4);
    [by rewrite Hh1|].
  rewrite Hc1 in Hch.
  destruct (getCollisionTargets_complete (CollisionManager.heap w2)
              (CollisionManager.children w2) (CollisionManager.detector w2)
              now id o2 ty) as [box Hbox];
    [by rewrite Hch | exact Ho2 | congruence | congruence | exact Hne |].
  pose proof (getCollisionTargets_distinct (CollisionManager.heap w2)
                (CollisionManager.children w2) (CollisionManager.detector w2)
                now) as Hdist.
  rewrite Hch in Hdist at 1. specialize (Hdist Hnd).
  destruct (CollisionDetector.getCollisionTargets _ now _ _) as [targets d].
  cbn [fst] in Hbox, Hdist.
  destruct (DamageHandler.explosionDamage Math_sqrt position0 8 150 targets
              (CollisionManager.heap w2)) as [hp infos] eqn:Hrun.
  rewrite destroyDamaged_health.
  cbn [CollisionManager.heap CollisionManager.with_heap].
  destruct (run_damaged Math_sqrt position0 8 150 targets _ hp infos Hdist Hrun
              (mkTarget id ty box false) o2 Hbox Hg Ho2)
    as (o' & h' & b & H1 & H2 & H3 & _); [by rewrite E1|].
  cbn [mesh type] in H1, H3. rewrite H1. cbn [fmap option_fmap option_map].
  unfold compose. rewrite H2, H3, E1.
  unfold healthBeforeExplosion. rewrite E3. reflexivity.
Qed.

(** With the square root of the program, a wall of health 200 at the double
    nearest to 6.4 from the explosion takes 29 and is left with 171: the
    quotient 6.4 / 8 is the double just above 0.8, and the product falls
    just short of 30. *)
Lemma handleChainReaction_damage_witness :
  (health ∘ userData) <$>
    (CollisionManager.heap
       (CollisionManager.handleChainReaction JS.sqrt coin 0 yard_6_4
          (mkTarget 1 "barrel" None true) origin) !! 2%nat)
  = Some (Some 171).
Proof.
  etransitivity.
  - apply (handleChainReaction_damage JS.sqrt coin 0 yard_6_4
             (mkTarget 1 "barrel" None true) origin 2 wall_at_6_4 "wall").
    + apply NoDup_cons. split; [|apply NoDup_singleton].
      intros H. apply list_elem_of_singleton in H. discriminate H.
    + apply elem_of_cons. right. apply elem_of_cons. by left.
    + reflexivity.
    + reflexivity.
    + reflexivity.
    + reflexivity.
    + discriminate.
    + vm_compute. reflexivity.
  - vm_compute. reflexivity.
Defined.

(** X13.  A hit on a target that is not being dragged, by a projectile
    that has not collided yet, takes [b * f^1.5 * (1 - resistance)] off the
    target's initialised health, never below 0, where [b] is the
    projectile's damage (50 when it has none) and [f] its speed over 10,
    capped at 3; a target that is being dragged is not affected at all. *)
Theorem handleTargetCollision_damage (Math_sqrt : Q -> Q)
    (Math_pow : Q -> Q -> Q) (w : CollisionManager.World) (pid : nat)
    (p : Projectile) (v : Vector3) (target : Target) (m : Object3D) (h : Q) :
  CollisionManager.heap w !! mesh target = Some m ->
  p_velocity p = Some v ->
  p_hasCollided p = false ->
  health (userData m) = Some h -> ~ h == 0 ->
  let w' := CollisionManager.handleTargetCollision Math_sqrt Math_pow w pid p
              target in
  let speed := JS.or_default (Some (THREE.length Math_sqrt v)) 0 in
  let f := Qmin (speed / 10) 3.0 in
  let dealt := JS.or_default (p_damage p) 50 * Math_pow f 1.5
               * (1 - spec_resistance (type target)) in
  speed == THREE.length Math_sqrt v /\
  f <= 3 /\
  (isDragging (userData m) = true -> w' = w) /\
  (isDragging (userData m) = false ->
   (health ∘ userData) <$> (CollisionManager.heap w' !! mesh target)
   = Some (Some (Qmax 0 (h - dealt)))).
Proof.
  intros Hm Hv Hc Hh Hnz w' speed f dealt.
  split.
  { subst speed. simpl.
    destruct (JS.truthy (THREE.length Math_sqrt v)) eqn:Ht; [reflexivity|].
    apply truthy_false in Ht. by rewrite Ht. }
  split; [eapply Qle_trans; [apply Q.le_min_r | discriminate]|]. subst w'.
  unfold CollisionManager.handleTargetCollision. rewrite Hm, Hc, Hv.
  split.
  - intros ->. reflexivity.
  - intros ->. simpl orb. cbv iota.
    unfold CollisionManager.applyDamage. rewrite Hm. simpl.
    rewrite Hh. simpl. apply truthy_true in Hnz. rewrite Hnz. simpl.
    rewrite Hh. simpl.
    change (CollisionManager.heap (CollisionManager.defer ?ts ?w0))
      with (CollisionManager.heap w0).
    rewrite handleImpactEffects_health. simpl.
    rewrite heap_insert_eq. simpl.
    rewrite getTargetResistance_table.
    reflexivity.
Qed.

Lemma handleTargetCollision_damage_witness :
  exists left_over,
    (health ∘ userData) <$>
      (CollisionManager.heap
         (CollisionManager.handleTargetCollision Qsqrt (fun x _ => Qpow15 x)
            (world_with_wall shot_A) 1 shot_A (wrapper_of 1 "wall" wall_A))
       !! 1%nat)
    = Some (Some left_over).
Proof.
  destruct (handleTargetCollision_damage Qsqrt (fun x _ => Qpow15 x)
              (world_with_wall shot_A) 1 shot_A (mkVector3 0 0 (-20))
              (wrapper_of 1 "wall" wall_A) wall_A 200)
    as (_ & _ & _ & Hhit).
  - reflexivity.
  - reflexivity.
  - reflexivity.
  - reflexivity.
  - intros H. vm_compute in H. discriminate H.
  - eexists. apply Hhit. reflexivity.
Defined.

(** X14.  When the destruction of a target completes, the target leaves
    the children of the scene, the other children keep their places, the
    [targetDestroyed] event is sent once, and no later scan of the scene
    lists the target again. *)
Theorem destroyed_target_leaves_scene (w : CollisionManager.World)
    (target : Target) (m : Object3D) :
  CollisionManager.heap w !! mesh target = Some m ->
  inScene m = true ->
  let w' := CollisionManager.finishDestroy w target in
  CollisionManager.children w'
  = filter (fun c => c <> mesh target) (CollisionManager.children w) /\
  (forall d now t,
     t ∈ fst (CollisionDetector.getCollisionTargets d now
                (CollisionManager.heap w') (CollisionManager.children w')) ->
     mesh t <> mesh target) /\
  CollisionManager.effects w'
  = CollisionManager.effects w ++ [DestructionEvent target] /\
  CollisionManager.tasks w' = CollisionManager.tasks w.
Proof.
  intros Hm Hin w'. subst w'. unfold CollisionManager.finishDestroy.
  rewrite Hm, Hin.
  assert (Hch : CollisionManager.children
                  (CollisionManager.scene_remove (mesh target) w)
                = filter (fun c => c <> mesh target)
                    (CollisionManager.children w)).
  { unfold CollisionManager.scene_remove.
    destruct (bool_decide (mesh target ∈ CollisionManager.children w)) eqn:E;
      [reflexivity|].
    apply bool_decide_eq_false in E. simpl.
    induction (CollisionManager.children w) as [|c cs IH]; [reflexivity|].
    apply not_elem_of_cons in E as [Hne Hcs].
    rewrite filter_cons_True by congruence. f_equal. by apply IH. }
  split; [exact Hch|]. split; [|split].
  - intros d now t Ht E.
    apply getCollisionTargets_meshes in Ht. simpl in Ht.
    rewrite E in Ht. by apply scene_remove_gone in Ht.
  - unfold CollisionManager.scene_remove.
    destruct (bool_decide _); reflexivity.
  - unfold CollisionManager.scene_remove.
    destruct (bool_decide _); reflexivity.
Qed.

Lemma destroyed_target_leaves_scene_witness :
  CollisionManager.children
    (CollisionManager.finishDestroy (world_with_wall shot_A)
       (wrapper_of 1 "wall" wall_A))
  = filter (fun c => c <> 1%nat) [1%nat].
Proof.
  apply (destroyed_target_leaves_scene (world_with_wall shot_A)
           (wrapper_of 1 "wall" wall_A) wall_A); reflexivity.
Defined.

Lemma clamp_range (v lo hi : Q) :
  lo <= hi -> lo <= JS.clamp v lo hi /\ JS.clamp v lo hi <= hi.
Proof.
  intros H. unfold JS.clamp. split; [apply Q.le_max_l|].
  apply Q.max_lub; [exact H | apply Q.le_min_l].
Qed.



(** * Further properties of the projectile integrator *)

Lemma Qabs_square (y : Q) : Qabs y * Qabs y == y * y.
Proof.
  rewrite <- Qabs_Qmult. apply Qabs_pos. nra.
Qed.

Section Integrator2.
Variable Math_sqrt : Q -> Q.

Local Abbreviation visit := (PhysicsEngine.update_visit Math_sqrt).
Local Abbreviation ticks := (PhysicsEngine.ticks Math_sqrt).

(** What one step keeps, besides [flying]: the height, the counter. *)
Lemma update_visit_bounds dt p p' calls :
  visit dt p = Some (p', calls) ->
  (0.3 <= vec_y (p_position p) -> 0.3 <= vec_y (p_position p')) /\
  (p_active p = true -> p_hasCollided p = false ->
   0.3 <= vec_y (p_position p')) /\
  p_maxBounces p' = p_maxBounces p /\
  (bounces_of p <= bounces_of p')%nat /\
  (bounces_of p'
   <= Nat.max (bounces_of p) (JS.nat_or (p_maxBounces p) 3))%nat.
Proof.
  unfold PhysicsEngine.update_visit, bounces_of.
  destruct (p_active p) eqn:Ha, (p_hasCollided p) eqn:Hc; simpl;
    try (intros H; injection H as <- _;
         repeat split; try lia; try done; discriminate).
  destruct (p_velocity p) as [v|]; simpl; [|discriminate].
  destruct (JS.leb _ 0.3) eqn:Hy.
  - destruct (JS.ltb 1.0 _) eqn:Hs; simpl andb; cbv iota;
      [destruct (PhysicsEngine.mayBounce _ _) eqn:Hb|];
      intros H; injection H as <- _; simpl;
      repeat split; try lia; try (intros; discriminate).
    + apply mayBounce_lt in Hb. rewrite Nat.add_1_r. cbv iota. lia.
    + apply mayBounce_lt in Hb. rewrite Nat.add_1_r. cbv iota. lia.
  - intros H. injection H as <- _. simpl. apply leb_gt in Hy.
    repeat split; try lia; intros; apply Qlt_le_weak; exact Hy.
Qed.

(** X16.  The integrator never leaves a projectile below the ground
    height 0.3: whatever the time step, one step of an active projectile
    ends at [y >= 0.3], and a projectile with a velocity that starts at or
    above 0.3 stays there over any number of steps, none of which fails. *)
Theorem projectile_stays_above_ground (dt : Q) (p : Projectile) :
  flying p ->
  (p_active p = true -> p_hasCollided p = false ->
   exists p' calls, visit dt p = Some (p', calls) /\
                    0.3 <= vec_y (p_position p')) /\
  (0.3 <= vec_y (p_position p) ->
   forall n, exists p' calls,
     ticks n dt p = Some (p', calls) /\ 0.3 <= vec_y (p_position p')).
Proof.
  intros Hf. split.
  - intros Ha Hc.
    destruct (update_visit_flying Math_sqrt dt p Hf) as (p' & calls & Hv & _).
    exists p', calls. split; [exact Hv|].
    destruct (update_visit_bounds dt p p' calls Hv) as (_ & Hb2 & _).
    exact (Hb2 Ha Hc).
  - intros Hy n. revert p Hf Hy.
    induction n as [|n IH]; intros p Hf Hy.
    + by exists p, [].
    + destruct (update_visit_flying Math_sqrt dt p Hf) as (p1 & c1 & H1 & Hf1).
      destruct (IH p1 Hf1) as (p2 & c2 & H2 & Hy2).
      { destruct (update_visit_bounds dt p p1 c1 H1) as (Hb1 & _).
        exact (Hb1 Hy). }
      exists p2, (c1 ++ c2). split; [|exact Hy2].
      simpl. rewrite H1. simpl. rewrite H2. reflexivity.
Qed.

(** X17.  The bounce counter of a projectile only grows, and never beyond
    [maxBounces] (3 by default) unless it started beyond: over any number
    of steps a projectile fresh from the catapult bounces at most
    [maxBounces] times. *)
Theorem bounce_counter_bounded (dt : Q) (n : nat) : forall p p' calls,
  ticks n dt p = Some (p', calls) ->
  p_maxBounces p' = p_maxBounces p /\
  (bounces_of p <= bounces_of p')%nat /\
  (bounces_of p'
   <= Nat.max (bounces_of p) (JS.nat_or (p_maxBounces p) 3))%nat.
Proof.
  induction n as [|n IH]; intros p p' calls H.
  - injection H as <- _. repeat split; lia.
  - simpl in H.
    destruct (visit dt p) as [[p1 c1]|] eqn:H1; simpl in H; [|discriminate].
    destruct (ticks n dt p1) as [[p2 c2]|] eqn:H2; simpl in H; [|discriminate].
    injection H as <- _.
    destruct (update_visit_bounds dt p p1 c1 H1) as (_ & _ & Hm1 & Hlo1 & Hhi1).
    destruct (IH p1 p2 c2 H2) as (Hm2 & Hlo2 & Hhi2).
    rewrite Hm1 in Hm2, Hhi2. repeat split; [exact Hm2 | lia | lia].
Qed.

(** X18.  A bounce takes energy out of the projectile: the velocity after
    the bounce points upwards ([vy >= 0]) and its square is at most 0.49
    times the square of the velocity the projectile hit the ground with. *)
Theorem bounce_loses_energy (dt : Q) (p : Projectile) (v : Vector3) :
  p_active p = true ->
  p_hasCollided p = false ->
  p_velocity p = Some v ->
  let v1 := mkVector3 (vec_x v) (vec_y v + p_gravity p * dt) (vec_z v) in
  vec_y (p_position p) + vec_y v1 * dt <= 0.3 ->
  1 < THREE.length Math_sqrt v1 ->
  (bounces_of p < JS.nat_or (p_maxBounces p) 3)%nat ->
  exists p' calls v',
    visit dt p = Some (p', calls) /\
    p_velocity p' = Some v' /\
    0 <= vec_y v' /\
    lengthSq v' <= 0.49 * lengthSq v1 /\
    bounces_of p' = S (bounces_of p).
Proof.
  intros Ha Hc Hv v1 Hy Hs Hb.
  unfold PhysicsEngine.update_visit. rewrite Ha, Hc, Hv.
  cbn [andb negb mbind option_bind vec_x vec_y vec_z].
  fold v1. apply leb_le in Hy. cbn [vec_y v1] in Hy. rewrite Hy.
  assert (Hs' : JS.ltb 1.0 (THREE.length Math_sqrt v1) = true).
  { apply ltb_lt. lra. }
  rewrite Hs'. apply mayBounce_lt in Hb. rewrite Hb. cbn [andb].
  eexists _, _, _. split; [reflexivity|]. split; [reflexivity|].
  subst v1. split; [|split].
  - cbn [vec_y].
    pose proof (Qabs_nonneg (vec_y v + p_gravity p * dt)). lra.
  - unfold lengthSq. cbn [vec_x vec_y vec_z].
    pose proof (Qabs_square (vec_y v + p_gravity p * dt)) as Hsq.
    set (a := Qabs (vec_y v + p_gravity p * dt)) in *.
    set (y := vec_y v + p_gravity p * dt) in *.
    assert (H1 : a * 0.5 * (a * 0.5) == 0.25 * (y * y)).
    { rewrite <- Hsq. ring. }
    rewrite H1. nra.
  - unfold bounces_of, PhysicsEngine.with_motion. cbn [p_bounces].
    rewrite Nat.add_1_r. reflexivity.
Qed.

(** X19.  update never integrates more than 1/30 s at once: a longer frame
    is stepped as a frame of 1/30 s.  It does not fail as long as every
    projectile has a velocity, returns as many projectiles as it was
    given, and leaves alone those that are inactive or have collided. *)
Theorem update_clamps_and_keeps (dt : Q) (objects : list Projectile) :
  (1 / 30 < dt ->
   PhysicsEngine.update Math_sqrt dt objects
   = PhysicsEngine.update Math_sqrt (1 / 30) objects) /\
  ((forall o, o ∈ objects -> is_Some (p_velocity o)) ->
   exists objects' calls,
     PhysicsEngine.update Math_sqrt dt objects = Some (objects', calls)) /\
  (forall objects' calls,
     PhysicsEngine.update Math_sqrt dt objects = Some (objects', calls) ->
     List.length objects' = List.length objects /\
     forall i o, objects !! i = Some o ->
       p_active o = false \/ p_hasCollided o = true ->
       objects' !! i = Some o).
Proof.
  split; [|split].
  - intros Hlt. unfold PhysicsEngine.update.
    assert (E : Qmin dt (1 / 30) = 1 / 30).
    { unfold Qmin, GenericMinMax.gmin.
      apply Qgt_alt in Hlt. by rewrite Hlt. }
    assert (E' : Qmin (1 / 30) (1 / 30) = 1 / 30) by reflexivity.
    rewrite E, E'. reflexivity.
  - intros Hall. unfold PhysicsEngine.update.
    generalize (Qmin dt (1 / 30)). intros dt'.
    induction objects as [|o rest IH]; [by exists [], []|].
    simpl.
    assert (Hvis : exists o' c, visit dt' o = Some (o', c)).
    { unfold PhysicsEngine.update_visit.
      destruct (p_active o && negb (p_hasCollided o)); [|by eexists _, _].
      destruct (Hall o) as [v ->]; [apply elem_of_cons; by left|]. simpl.
      destruct (JS.leb _ 0.3);
        [destruct (JS.ltb 1.0 _ && PhysicsEngine.mayBounce _ _)|];
        by eexists _, _. }
    destruct Hvis as (o' & c & ->). simpl.
    destruct IH as (rest' & c' & ->).
    { intros x Hx. apply Hall. apply elem_of_cons. by right. }
    simpl. by eexists _, _.
  - unfold PhysicsEngine.update.
    generalize (Qmin dt (1 / 30)). intros dt'.
    induction objects as [|o rest IH]; intros objects' calls H.
    + injection H as <- _. split; [reflexivity|]. intros i x Hx. discriminate.
    + simpl in H.
      destruct (visit dt' o) as [[o' c]|] eqn:Hv; simpl in H; [|discriminate].
      destruct (PhysicsEngine.traverse Math_sqrt dt' rest) as [[rest' c']|];
        simpl in H; [|discriminate].
      injection H as <- _.
      destruct (IH rest' c' eq_refl) as [Hlen Hkeep].
      split; [simpl; by rewrite Hlen|].
      intros [|i] x Hx Hidle; simpl in *.
      * injection Hx as ->.
        rewrite (update_visit_idle Math_sqrt dt' x Hidle) in Hv.
        by injection Hv as <- _.
      * by apply Hkeep.
Qed.
End Integrator2.

Lemma projectile_stays_above_ground_witness :
  exists p' calls,
    PhysicsEngine.ticks Qsqrt 3 (1 / 30) falling_fast = Some (p', calls) /\
    0.3 <= vec_y (p_position p').
Proof.
  destruct (projectile_stays_above_ground Qsqrt (1 / 30) falling_fast)
    as [_ Hticks].
  - split; [by eexists | by intros _].
  - apply Hticks. vm_compute. discriminate.
Defined.

Lemma bounce_counter_bounded_witness :
  exists p' calls,
    PhysicsEngine.ticks Qsqrt 3 (1 / 30) falling_fast = Some (p', calls) /\
    (bounces_of p' <= 3)%nat.
Proof.
  destruct (PhysicsEngine.ticks Qsqrt 3 (1 / 30) falling_fast)
    as [[p' calls]|] eqn:H.
  - exists p', calls. split; [reflexivity|].
    apply (bounce_counter_bounded Qsqrt (1 / 30) 3 falling_fast p' calls H).
  - vm_compute in H. discriminate.
Defined.

Lemma bounce_loses_energy_witness :
  exists p' calls v',
    PhysicsEngine.update_visit Qsqrt (1 / 30) falling_fast = Some (p', calls) /\
    p_velocity p' = Some v' /\
    0 <= vec_y v' /\
    lengthSq v' <= 0.49 * lengthSq (mkVector3 8 (-6 + -9.81 * (1 / 30)) 0) /\
    bounces_of p' = 2%nat.
Proof.
  apply (bounce_loses_energy Qsqrt (1 / 30) falling_fast (mkVector3 8 (-6) 0)).
  - reflexivity.
  - reflexivity.
  - reflexivity.
  - vm_compute. discriminate.
  - vm_compute. reflexivity.
  - vm_compute. lia.
Defined.

Lemma update_clamps_and_keeps_witness :
  PhysicsEngine.update Qsqrt 1 [falling_fast; falling_spent]
  = PhysicsEngine.update Qsqrt (1 / 30) [falling_fast; falling_spent].
Proof.
  apply (update_clamps_and_keeps Qsqrt 1 [falling_fast; falling_spent]).
  reflexivity.
Defined.

(** ** The pool of physics objects (js/physics.js) *)

Lemma wallContact_inside (r e lo hi x v : Q) :
  lo + r <= hi - r ->
  lo + r <= fst (PhysicsPool.wallContact r e lo hi x v) /\
  fst (PhysicsPool.wallContact r e lo hi x v) <= hi - r.
Proof.
  intros H. unfold PhysicsPool.wallContact.
  destruct (JS.leb (x - r) lo) eqn:H1; simpl.
  - split; [apply Qle_refl | exact H].
  - destruct (JS.leb hi (x + r)) eqn:H2; simpl.
    + split; [exact H | apply Qle_refl].
    + apply leb_gt in H1, H2. split; lra.
Qed.

Lemma wallContact_inward (r e lo hi x v : Q) :
  0 <= e ->
  (x - r <= lo -> 0 <= snd (PhysicsPool.wallContact r e lo hi x v)) /\
  (lo < x - r -> hi <= x + r ->
   snd (PhysicsPool.wallContact r e lo hi x v) <= 0) /\
  (lo < x - r -> x + r < hi ->
   PhysicsPool.wallContact r e lo hi x v = (x, v)).
Proof.
  intros He. unfold PhysicsPool.wallContact.
  pose proof (Qmult_le_0_compat _ _ (Qabs_nonneg v) He) as Hp.
  destruct (JS.leb (x - r) lo) eqn:H1.
  - apply leb_le in H1. cbn [fst snd].
    split; [intros _; exact Hp|]. split; intros; lra.
  - apply leb_gt in H1.
    destruct (JS.leb hi (x + r)) eqn:H2; cbn [fst snd].
    + apply leb_le in H2. split; [intros; lra|].
      split; [intros _ _ | intros; lra].
      assert (E : - Qabs v * e == - (Qabs v * e)) by ring.
      rewrite E. lra.
    + apply leb_gt in H2. split; [intros; lra|].
      split; [intros; lra | reflexivity].
Qed.

Lemma groundContact_above (d : PhysicsPool.PhysicsData) :
  PhysicsPool.ground + PhysicsPool.radius d
  <= vec_y (fst (fst (PhysicsPool.groundContact d))).
Proof.
  unfold PhysicsPool.groundContact, PhysicsPool.ground.
  destruct (JS.leb _ _) eqn:H; simpl.
  - apply Qle_refl.
  - apply leb_gt in H. lra.
Qed.

Lemma checkCollisions_eq (d : PhysicsPool.PhysicsData) :
  let pos := fst (fst (PhysicsPool.groundContact d)) in
  let vel := snd (fst (PhysicsPool.groundContact d)) in
  let wx := PhysicsPool.wallContact (PhysicsPool.radius d)
              (PhysicsPool.restitution d) PhysicsPool.minX PhysicsPool.maxX
              (vec_x pos) (vec_x vel) in
  let wz := PhysicsPool.wallContact (PhysicsPool.radius d)
              (PhysicsPool.restitution d) PhysicsPool.minZ PhysicsPool.maxZ
              (vec_z pos) (vec_z vel) in
  fst (PhysicsPool.checkCollisions d)
  = PhysicsPool.with_kinematics
      (mkVector3 (fst wx) (vec_y pos) (fst wz))
      (mkVector3 (snd wx) (vec_y vel) (snd wz))
      (PhysicsPool.acceleration d) d.
Proof.
  unfold PhysicsPool.checkCollisions.
  destruct (PhysicsPool.groundContact d) as [[pos vel] called]. simpl.
  destruct (PhysicsPool.wallContact _ _ PhysicsPool.minX _ _ _) as [x vx].
  destruct (PhysicsPool.wallContact _ _ PhysicsPool.minZ _ _ _) as [z vz].
  reflexivity.
Qed.

Lemma with_kinematics_id (d : PhysicsPool.PhysicsData) :
  PhysicsPool.with_kinematics (PhysicsPool.position d) (PhysicsPool.velocity d)
    (PhysicsPool.acceleration d) d = d.
Proof. destruct d; reflexivity. Qed.

Lemma fold_left_inv {A B : Type} (P : A -> Prop) (f : A -> B -> A)
    (xs : list B) :
  (forall a b, P a -> P (f a b)) -> forall a, P a -> P (fold_left f xs a).
Proof.
  intros Hf. induction xs as [|x xs IH]; intros a Ha; simpl; [exact Ha|].
  apply IH, Hf, Ha.
Qed.

Section Pool.
Variable Math_sqrt : Q -> Q.

Local Abbreviation applyConstraints := (PhysicsPool.applyConstraints Math_sqrt).
Local Abbreviation step := (PhysicsPool.step Math_sqrt).
Local Abbreviation resolveCollision := (PhysicsPool.resolveCollision Math_sqrt).
Local Abbreviation collidePair := (PhysicsPool.collidePair Math_sqrt).

Lemma applyConstraints_position (d : PhysicsPool.PhysicsData) :
  PhysicsPool.ground + PhysicsPool.radius d <= vec_y (PhysicsPool.position d) ->
  let p := PhysicsPool.position (applyConstraints d) in
  vec_x p = vec_x (PhysicsPool.position d) /\
  vec_z p = vec_z (PhysicsPool.position d) /\
  PhysicsPool.ground + PhysicsPool.radius d <= vec_y p /\
  PhysicsPool.radius (applyConstraints d) = PhysicsPool.radius d.
Proof.
  intros H. unfold PhysicsPool.applyConstraints.
  destruct (JS.ltb (vec_y (PhysicsPool.position d)) PhysicsPool.ground);
    simpl; repeat split; try exact H; apply Qle_refl.
Qed.

Lemma constrained_inside (d : PhysicsPool.PhysicsData) :
  PhysicsPool.radius d <= 50 ->
  let p := PhysicsPool.position
             (applyConstraints (fst (PhysicsPool.checkCollisions d))) in
  let r := PhysicsPool.radius d in
  PhysicsPool.minX + r <= vec_x p /\ vec_x p <= PhysicsPool.maxX - r /\
  PhysicsPool.minZ + r <= vec_z p /\ vec_z p <= PhysicsPool.maxZ - r /\
  PhysicsPool.ground + r <= vec_y p.
Proof.
  intros Hr. pose proof (checkCollisions_eq d) as He. cbv zeta in He.
  remember (fst (PhysicsPool.checkCollisions d)) as d2 eqn:Hd2.
  clear Hd2.
  assert (Hr2 : PhysicsPool.radius d2 = PhysicsPool.radius d)
    by (rewrite He; reflexivity).
  assert (Hy : PhysicsPool.ground + PhysicsPool.radius d2
               <= vec_y (PhysicsPool.position d2)).
  { rewrite Hr2, He. cbn [PhysicsPool.position PhysicsPool.with_kinematics
                          vec_y]. apply groundContact_above. }
  destruct (applyConstraints_position d2 Hy) as (Hx & Hz & Hy' & _).
  assert (Hpx : vec_x (PhysicsPool.position d2)
                = fst (PhysicsPool.wallContact (PhysicsPool.radius d)
                         (PhysicsPool.restitution d)
                         PhysicsPool.minX PhysicsPool.maxX
                         (vec_x (fst (fst (PhysicsPool.groundContact d))))
                         (vec_x (snd (fst (PhysicsPool.groundContact d))))))
    by (rewrite He; reflexivity).
  assert (Hpz : vec_z (PhysicsPool.position d2)
                = fst (PhysicsPool.wallContact (PhysicsPool.radius d)
                         (PhysicsPool.restitution d)
                         PhysicsPool.minZ PhysicsPool.maxZ
                         (vec_z (fst (fst (PhysicsPool.groundContact d))))
                         (vec_z (snd (fst (PhysicsPool.groundContact d))))))
    by (rewrite He; reflexivity).
  cbv zeta. rewrite Hx, Hz, Hpx, Hpz. rewrite Hr2 in Hy'.
  assert (Hbox : PhysicsPool.minX + PhysicsPool.radius d
                 <= PhysicsPool.maxX - PhysicsPool.radius d).
  { unfold PhysicsPool.minX, PhysicsPool.maxX. lra. }
  destruct (wallContact_inside (PhysicsPool.radius d)
              (PhysicsPool.restitution d) PhysicsPool.minX PhysicsPool.maxX
              (vec_x (fst (fst (PhysicsPool.groundContact d))))
              (vec_x (snd (fst (PhysicsPool.groundContact d)))) Hbox)
    as [Hx1 Hx2].
  destruct (wallContact_inside (PhysicsPool.radius d)
              (PhysicsPool.restitution d) PhysicsPool.minZ PhysicsPool.maxZ
              (vec_z (fst (fst (PhysicsPool.groundContact d))))
              (vec_z (snd (fst (PhysicsPool.groundContact d)))) Hbox)
    as [Hz1 Hz2].
  repeat split; assumption.
Qed.

(** X20.  A step of the pool leaves an active, movable object of radius at
    most 50 inside the world box and on or above the ground, wherever it
    was and however fast it moved: its centre keeps the distance [radius]
    from the four walls and from the ground. *)
Theorem step_keeps_inside (deltaTime : Q) (d : PhysicsPool.PhysicsData) :
  PhysicsPool.isActive d = true ->
  PhysicsPool.isStatic d = false ->
  PhysicsPool.radius d <= 50 ->
  let p := PhysicsPool.position (step deltaTime d) in
  let r := PhysicsPool.radius d in
  PhysicsPool.minX + r <= vec_x p /\ vec_x p <= PhysicsPool.maxX - r /\
  PhysicsPool.minZ + r <= vec_z p /\ vec_z p <= PhysicsPool.maxZ - r /\
  PhysicsPool.ground + r <= vec_y p.
Proof.
  intros Ha Hs Hr. unfold PhysicsPool.step. rewrite Ha, Hs.
  cbn [negb orb].
  exact (constrained_inside
           (PhysicsPool.updatePosition
              (PhysicsPool.updateVelocity d deltaTime) deltaTime) Hr).
Qed.

(** X21.  After checkCollisions the velocity of an object with a
    restitution that is not negative never points out of the box at a
    surface it touches: at the left and back walls the component is not
    negative, at the right and front walls not positive, and an object
    that came down on the ground either rests ([vy = 0]) or leaves it with
    [vy >= 0.5], the incoming [vy] reversed and scaled by the
    restitution.  Away from the walls the horizontal position is kept. *)
Theorem checkCollisions_rebound (d : PhysicsPool.PhysicsData) :
  0 <= PhysicsPool.restitution d ->
  let pos := PhysicsPool.position d in
  let vel := PhysicsPool.velocity d in
  let r := PhysicsPool.radius d in
  let d' := fst (PhysicsPool.checkCollisions d) in
  let vel' := PhysicsPool.velocity d' in
  (vec_x pos - r <= PhysicsPool.minX -> 0 <= vec_x vel') /\
  (PhysicsPool.minX < vec_x pos - r -> PhysicsPool.maxX <= vec_x pos + r ->
   vec_x vel' <= 0) /\
  (vec_z pos - r <= PhysicsPool.minZ -> 0 <= vec_z vel') /\
  (PhysicsPool.minZ < vec_z pos - r -> PhysicsPool.maxZ <= vec_z pos + r ->
   vec_z vel' <= 0) /\
  (vec_y pos - r <= PhysicsPool.ground -> vec_y vel < 0 ->
   vec_y vel' == 0 \/
   (0.5 <= vec_y vel' /\
    vec_y vel' == - vec_y vel * PhysicsPool.restitution d)) /\
  (PhysicsPool.minX < vec_x pos - r -> vec_x pos + r < PhysicsPool.maxX ->
   vec_x (PhysicsPool.position d') = vec_x pos) /\
  (PhysicsPool.minZ < vec_z pos - r -> vec_z pos + r < PhysicsPool.maxZ ->
   vec_z (PhysicsPool.position d') = vec_z pos).
Proof.
  intros He. cbv zeta. rewrite checkCollisions_eq.
  cbn [PhysicsPool.velocity PhysicsPool.position PhysicsPool.with_kinematics
       vec_x vec_y vec_z].
  assert (Hpx : vec_x (fst (fst (PhysicsPool.groundContact d)))
                = vec_x (PhysicsPool.position d)).
  { unfold PhysicsPool.groundContact. destruct (JS.leb _ _); reflexivity. }
  assert (Hpz : vec_z (fst (fst (PhysicsPool.groundContact d)))
                = vec_z (PhysicsPool.position d)).
  { unfold PhysicsPool.groundContact. destruct (JS.leb _ _); reflexivity. }
  rewrite Hpx, Hpz.
  destruct (wallContact_inward (PhysicsPool.radius d)
              (PhysicsPool.restitution d) PhysicsPool.minX PhysicsPool.maxX
              (vec_x (PhysicsPool.position d))
              (vec_x (snd (fst (PhysicsPool.groundContact d)))) He)
    as (Hx1 & Hx2 & Hx3).
  destruct (wallContact_inward (PhysicsPool.radius d)
              (PhysicsPool.restitution d) PhysicsPool.minZ PhysicsPool.maxZ
              (vec_z (PhysicsPool.position d))
              (vec_z (snd (fst (PhysicsPool.groundContact d)))) He)
    as (Hz1 & Hz2 & Hz3).
  split; [exact Hx1|]. split; [exact Hx2|].
  split; [exact Hz1|]. split; [exact Hz2|].
  split; [|split].
  - intros Hg Hv. unfold PhysicsPool.groundContact.
    apply leb_le in Hg. rewrite Hg. apply ltb_lt in Hv. rewrite Hv.
    cbn [fst snd vec_y].
    destruct (JS.ltb (Qabs _) 0.5) eqn:Hs; [left; reflexivity|].
    right. apply ltb_ge in Hs. split; [|reflexivity].
    apply ltb_lt in Hv.
    rewrite Qabs_pos in Hs; [exact Hs|].
    apply Qmult_le_0_compat; [lra | exact He].
  - intros H1 H2. rewrite (Hx3 H1 H2). reflexivity.
  - intros H1 H2. rewrite (Hz3 H1 H2). reflexivity.
Qed.

Lemma resolveCollision_static_l (a b : PhysicsPool.PhysicsData) (dist m : Q) :
  PhysicsPool.isStatic a = true -> fst (resolveCollision a b dist m) = a.
Proof.
  intros H. unfold PhysicsPool.resolveCollision. rewrite H.
  destruct (JS.ltb 0 _); simpl; apply with_kinematics_id.
Qed.

Lemma resolveCollision_static_r (a b : PhysicsPool.PhysicsData) (dist m : Q) :
  PhysicsPool.isStatic b = true -> snd (resolveCollision a b dist m) = b.
Proof.
  intros H. unfold PhysicsPool.resolveCollision. rewrite H.
  destruct (JS.ltb 0 _); simpl; apply with_kinematics_id.
Qed.

(** X22.  A collision between two movable objects of positive mass keeps
    the total momentum [mA * vA + mB * vB] and the midpoint of the two
    centres, whatever the overlap and the restitutions are. *)
Theorem resolveCollision_conserves (objA objB : PhysicsPool.PhysicsData)
    (distance minDistance : Q) :
  PhysicsPool.isStatic objA = false ->
  PhysicsPool.isStatic objB = false ->
  0 < PhysicsPool.mass objA ->
  0 < PhysicsPool.mass objB ->
  let a := fst (resolveCollision objA objB distance minDistance) in
  let b := snd (resolveCollision objA objB distance minDistance) in
  Vec.eqv
    (Vec.add (Vec.multiplyScalar (PhysicsPool.velocity a) (PhysicsPool.mass objA))
             (Vec.multiplyScalar (PhysicsPool.velocity b) (PhysicsPool.mass objB)))
    (Vec.add
       (Vec.multiplyScalar (PhysicsPool.velocity objA) (PhysicsPool.mass objA))
       (Vec.multiplyScalar (PhysicsPool.velocity objB) (PhysicsPool.mass objB)))
  /\ Vec.eqv (Vec.add (PhysicsPool.position a) (PhysicsPool.position b))
       (Vec.add (PhysicsPool.position objA) (PhysicsPool.position objB))
  /\ PhysicsPool.mass a = PhysicsPool.mass objA
  /\ PhysicsPool.mass b = PhysicsPool.mass objB.
Proof.
  intros HsA HsB HmA HmB. cbv zeta.
  unfold PhysicsPool.resolveCollision. rewrite HsA, HsB.
  set (normal := Vec.normalize Math_sqrt _).
  destruct normal as [nx ny nz].
  destruct (JS.ltb 0 _); unfold Vec.eqv; simpl;
    (repeat split; try reflexivity; try ring; field; repeat split; lra).
Qed.

(** X23.  With a collision normal of length 1, two movable objects of
    positive mass that approach each other leave the collision with the
    relative velocity along the normal reversed and scaled by the smaller
    of the two restitutions. *)
Theorem resolveCollision_restitution (objA objB : PhysicsPool.PhysicsData)
    (distance minDistance : Q) :
  let normal :=
    Vec.normalize Math_sqrt
      (Vec.sub (PhysicsPool.position objB) (PhysicsPool.position objA)) in
  let approach :=
    Vec.dot (Vec.sub (PhysicsPool.velocity objB) (PhysicsPool.velocity objA))
      normal in
  PhysicsPool.isStatic objA = false ->
  PhysicsPool.isStatic objB = false ->
  0 < PhysicsPool.mass objA ->
  0 < PhysicsPool.mass objB ->
  Vec.dot normal normal == 1 ->
  approach <= 0 ->
  let a := fst (resolveCollision objA objB distance minDistance) in
  let b := snd (resolveCollision objA objB distance minDistance) in
  Vec.dot (Vec.sub (PhysicsPool.velocity b) (PhysicsPool.velocity a)) normal
  == - Qmin (PhysicsPool.restitution objA) (PhysicsPool.restitution objB)
     * approach.
Proof.
  cbv zeta. intros HsA HsB HmA HmB Hn Hv.
  unfold PhysicsPool.resolveCollision. rewrite HsA, HsB.
  set (normal := Vec.normalize Math_sqrt _) in *.
  set (e := Qmin _ _).
  apply ltb_ge in Hv. rewrite Hv. cbn [fst snd PhysicsPool.velocity
    PhysicsPool.with_kinematics].
  set (vn := Vec.dot (Vec.sub (PhysicsPool.velocity objB)
                        (PhysicsPool.velocity objA)) normal) in *.
  transitivity (vn + (- (1 + e) * vn) * Vec.dot normal normal).
  - unfold vn. destruct normal as [nx ny nz]. unfold Vec.dot, Vec.sub,
      Vec.add, Vec.multiplyScalar. simpl. field. repeat split; lra.
  - rewrite Hn. ring.
Qed.

Lemma collidePair_keeps (i j : nat) (l : list PhysicsPool.PhysicsData)
    (k : nat) (d : PhysicsPool.PhysicsData) :
  PhysicsPool.isStatic d = true \/ PhysicsPool.isActive d = false ->
  l !! k = Some d -> collidePair i j l !! k = Some d.
Proof.
  intros Hd Hk. unfold PhysicsPool.collidePair.
  destruct (l !! i) as [objA|] eqn:Hi; [|exact Hk].
  destruct (l !! j) as [objB|] eqn:Hj; [|exact Hk].
  destruct (negb (PhysicsPool.isActive objA) || negb (PhysicsPool.isActive objB))
    eqn:Hact; [exact Hk|].
  apply orb_false_elim in Hact. destruct Hact as [HaA HaB].
  apply negb_false_iff in HaA, HaB.
  destruct (JS.ltb _ _); [|exact Hk].
  destruct (resolveCollision objA objB _ _) as [a b] eqn:Hr.
  assert (Hli : (i < List.length l)%nat) by (eapply lookup_lt_Some; eauto).
  assert (Hlj : (j < List.length l)%nat) by (eapply lookup_lt_Some; eauto).
  destruct (decide (j = k)) as [->|Hjk].
  - rewrite list_lookup_insert_eq by (rewrite length_insert; exact Hlj).
    rewrite Hj in Hk. injection Hk as ->.
    destruct Hd as [Hd|Hd]; [|congruence].
    assert (Hb := f_equal snd Hr). cbn [snd] in Hb.
    rewrite resolveCollision_static_r in Hb by exact Hd. now rewrite <- Hb.
  - rewrite list_lookup_insert_ne by exact Hjk.
    destruct (decide (i = k)) as [->|Hik].
    + rewrite list_lookup_insert_eq by exact Hli.
      rewrite Hi in Hk. injection Hk as ->.
      destruct Hd as [Hd|Hd]; [|congruence].
      assert (Ha := f_equal fst Hr). cbn [fst] in Ha.
      rewrite resolveCollision_static_l in Ha by exact Hd. now rewrite <- Ha.
    + rewrite list_lookup_insert_ne by exact Hik. exact Hk.
Qed.

Lemma collidePair_length (i j : nat) (l : list PhysicsPool.PhysicsData) :
  List.length (collidePair i j l) = List.length l.
Proof.
  unfold PhysicsPool.collidePair.
  destruct (l !! i); [|reflexivity]. destruct (l !! j); [|reflexivity].
  destruct (_ || _); [reflexivity|]. destruct (JS.ltb _ _); [|reflexivity].
  destruct (resolveCollision _ _ _ _). now rewrite !length_insert.
Qed.

Lemma checkInterObjectCollisions_keeps (l : list PhysicsPool.PhysicsData)
    (k : nat) (d : PhysicsPool.PhysicsData) :
  PhysicsPool.isStatic d = true \/ PhysicsPool.isActive d = false ->
  l !! k = Some d ->
  PhysicsPool.checkInterObjectCollisions Math_sqrt l !! k = Some d /\
  List.length (PhysicsPool.checkInterObjectCollisions Math_sqrt l)
  = List.length l.
Proof.
  intros Hd Hk. unfold PhysicsPool.checkInterObjectCollisions. cbv zeta.
  assert (G : forall n m,
             let r :=
               fold_left
                 (fun l i => fold_left (fun l j => collidePair i j l)
                                       (seq (S i) (m - S i)) l)
                 (seq 0 n) l in
             r !! k = Some d /\ List.length r = List.length l).
  { intros n m. cbv zeta.
    apply (fold_left_inv
             (fun l' => l' !! k = Some d /\ List.length l' = List.length l));
      [|split; [exact Hk | reflexivity]].
    intros l' i Hl'.
    apply (fold_left_inv
             (fun l' => l' !! k = Some d /\ List.length l' = List.length l));
      [|exact Hl'].
    intros l2 j [H2 H3]. split.
    - apply collidePair_keeps; assumption.
    - now rewrite collidePair_length. }
  apply (G (List.length l) (List.length l)).
Qed.


End Pool.

(** X25.  Removing an object right after adding it gives the pool back
    when the object was not in it; when it was, the older record is the
    one removed and the new one stays.  Removing an object the pool does
    not hold changes nothing. *)
Theorem removeObject_addObject (l : list PhysicsPool.PhysicsData) (obj : nat)
    (at_ : Vector3) (properties : PhysicsPool.Properties) :
  let held := existsb (fun p => Nat.eqb (PhysicsPool.object p) obj) l in
  PhysicsPool.removeObject (PhysicsPool.addObject l obj at_ properties) obj
  = (if held
     then PhysicsPool.removeObject l obj
            ++ [PhysicsPool.newPhysicsData obj at_ properties]
     else l)
  /\ (held = false -> PhysicsPool.removeObject l obj = l).
Proof.
  cbv zeta. unfold PhysicsPool.addObject. induction l as [|p l [IH1 IH2]].
  - simpl. rewrite Nat.eqb_refl. split; reflexivity.
  - simpl. destruct (Nat.eqb (PhysicsPool.object p) obj) eqn:E; simpl.
    + split; [reflexivity | discriminate].
    + rewrite IH1. split.
      * destruct (existsb _ l); reflexivity.
      * intros H. now rewrite (IH2 H).
Qed.

(** X26.  The launch power of the catapult, for a tension between 0 and
    100 percent, is [10 + tension^2 / 500]: between 10 and 30, and growing
    with the tension. *)
Theorem calculateCatapultPower_range (t1 t2 : Q) :
  0 <= t1 -> t1 <= t2 -> t2 <= 100 ->
  Utils.calculateCatapultPower t1 == 10 + t1 * t1 / 500 /\
  10 <= Utils.calculateCatapultPower t1 /\
  Utils.calculateCatapultPower t1 <= Utils.calculateCatapultPower t2 /\
  Utils.calculateCatapultPower t2 <= 30.
Proof.
  intros H0 H12 H100.
  assert (E : forall t, Utils.calculateCatapultPower t == 10 + t * t / 500).
  { intros t. unfold Utils.calculateCatapultPower, Utils.map, Utils.easeInQuad.
    field. }
  assert (E' : forall t,
             Utils.calculateCatapultPower t == 10 + (1 # 500) * (t * t)).
  { intros t. rewrite E. field. }
  split; [apply E|]. rewrite !E'.
  assert (H1 : 0 <= t1 * t1) by nra.
  assert (H2 : t1 * t1 <= t2 * t2) by nra.
  assert (H3 : t2 * t2 <= 10000) by nra.
  repeat split; lra.
Qed.

(** ** The damage visuals (DamageHandler.applyDamageVisuals,
    CollisionManager.showDamageIndication) *)

Section Visuals.
Variable ofHex : Z -> Color.
Variable getHex : Color -> Z.
Variable globals : list nat.

Local Abbreviation applyDamageVisuals :=
  (DamageVisuals.applyDamageVisuals ofHex getHex globals).

Lemma fresh_material (ms : gmap nat DamageVisuals.Material) (k : nat) :
  is_Some (ms !! k) -> fresh (dom ms) <> k.
Proof.
  intros Hk E. apply elem_of_dom in Hk. rewrite <- E in Hk.
  exact (is_fresh (dom ms) Hk).
Qed.

Lemma cloneForDamageState_flag pt lk mid mat col :
  DamageVisuals.c_flag
    (DamageVisuals.cloneForDamageState getHex globals pt lk mid mat col)
  = true.
Proof.
  unfold DamageVisuals.cloneForDamageState.
  destruct (DamageVisuals.hasClonedMaterialForDamageState lk);
    cbn [negb orb andb]; [|reflexivity].
  destruct (bool_decide (mid ∈ globals)); reflexivity.
Qed.

Lemma cloneForDamageState_lookup pt lk mid mat col :
  DamageVisuals.mats pt !! mid = Some mat ->
  DamageVisuals.c_mats
    (DamageVisuals.cloneForDamageState getHex globals pt lk mid mat col)
  !! DamageVisuals.c_material
       (DamageVisuals.cloneForDamageState getHex globals pt lk mid mat col)
  = Some mat.
Proof.
  intros Hmat. unfold DamageVisuals.cloneForDamageState.
  destruct (negb _ || _); cbn [DamageVisuals.c_mats DamageVisuals.c_material].
  - apply lookup_insert_eq.
  - exact Hmat.
Qed.

(** The material the mesh ends on is none of the global ones, and none
    that existed before unless it is the flagged mesh's own. *)
Lemma cloneForDamageState_own pt lk mid mat col k :
  is_Some (DamageVisuals.mats pt !! k) ->
  k ∈ globals \/ k <> mid ->
  DamageVisuals.c_material
    (DamageVisuals.cloneForDamageState getHex globals pt lk mid mat col) <> k
  /\ DamageVisuals.c_mats
       (DamageVisuals.cloneForDamageState getHex globals pt lk mid mat col)
     !! k
     = DamageVisuals.mats pt !! k.
Proof.
  intros Hk Hor. unfold DamageVisuals.cloneForDamageState.
  pose proof (fresh_material (DamageVisuals.mats pt) k Hk) as Hfresh.
  destruct (DamageVisuals.hasClonedMaterialForDamageState lk);
    cbn [negb orb andb].
  - destruct (bool_decide (mid ∈ globals)) eqn:Hin;
      cbn [DamageVisuals.c_mats DamageVisuals.c_material].
    + split; [exact Hfresh | by apply lookup_insert_ne].
    + apply bool_decide_eq_false in Hin. split; [|reflexivity].
      intros ->. destruct Hor as [Hg | Hne]; contradiction.
  - cbn [DamageVisuals.c_mats DamageVisuals.c_material].
    split; [exact Hfresh | by apply lookup_insert_ne].
Qed.

(** A mesh that is flagged and on a material of its own is not cloned
    again. *)
Lemma cloneForDamageState_again pt lk mid mat col :
  DamageVisuals.hasClonedMaterialForDamageState lk = true ->
  mid ∉ globals ->
  DamageVisuals.cloneForDamageState getHex globals pt lk mid mat col
  = DamageVisuals.mkCloned mid (DamageVisuals.originalMaterialBaseColorHex lk)
      (DamageVisuals.mats pt) true.
Proof.
  intros Hf Hin. unfold DamageVisuals.cloneForDamageState. rewrite Hf.
  rewrite bool_decide_eq_false_2 by exact Hin. reflexivity.
Qed.

(** X27.  applyDamageVisuals never recolours a material of the shared
    [materials] object, nor a material another object points to: every
    material object that exists before the call, other than the mesh's
    own material, and every global one, the mesh's own included, is the
    same afterwards. *)
Theorem applyDamageVisuals_spares_shared (effectsManager : bool)
    (pt : DamageVisuals.Paint) (id : nat) (m : Object3D) (damageDealt : Q)
    (k : nat) :
  is_Some (DamageVisuals.mats pt !! k) ->
  k ∈ globals \/
  (DamageVisuals.looks pt !! id ≫= DamageVisuals.material) <> Some k ->
  DamageVisuals.mats
    (fst (applyDamageVisuals effectsManager pt id m damageDealt)) !! k
  = DamageVisuals.mats pt !! k.
Proof.
  intros Hk Hor. unfold DamageVisuals.applyDamageVisuals.
  destruct (DamageVisuals.looks pt !! id) as [lk|] eqn:Hlk; [|reflexivity].
  destruct (DamageVisuals.material lk) as [mid|] eqn:Hmid; [|reflexivity].
  destruct (DamageVisuals.mats pt !! mid) as [mat|] eqn:Hmat; [|reflexivity].
  destruct (DamageVisuals.color mat) as [col|]; [|reflexivity].
  destruct (health (userData m)) as [h|]; [|reflexivity].
  destruct (maxHealth (userData m)) as [mh|]; [|reflexivity].
  destruct (JS.leb mh 0); [reflexivity|].
  cbn [fst DamageVisuals.mats].
  destruct (cloneForDamageState_own pt lk mid mat col k Hk) as [Hne Hsame].
  { destruct Hor as [Hg | Hne]; [by left | right].
    intros ->. apply Hne. simpl. exact Hmid. }
  rewrite lookup_insert_ne by exact Hne. exact Hsame.
Qed.

Lemma applyDamageVisuals_skip_look em pt id m d :
  DamageVisuals.colorOf pt id = None ->
  fst (applyDamageVisuals em pt id m d) = pt.
Proof.
  unfold DamageVisuals.colorOf, DamageVisuals.applyDamageVisuals.
  destruct (DamageVisuals.looks pt !! id) as [lk|]; [|reflexivity].
  cbn [mbind option_bind].
  destruct (DamageVisuals.material lk) as [mid|]; [|reflexivity].
  cbn [mbind option_bind].
  destruct (DamageVisuals.mats pt !! mid) as [mat|]; [|reflexivity].
  cbn [mbind option_bind].
  intros ->. reflexivity.
Qed.

Lemma applyDamageVisuals_cases em pt id m d :
  fst (applyDamageVisuals em pt id m d) = pt \/
  exists h mh, health (userData m) = Some h /\
               maxHealth (userData m) = Some mh /\ 0 < mh.
Proof.
  unfold DamageVisuals.applyDamageVisuals.
  destruct (DamageVisuals.looks pt !! id) as [lk|]; [|by left].
  destruct (DamageVisuals.material lk) as [mid|]; [|by left].
  destruct (DamageVisuals.mats pt !! mid) as [mat|]; [|by left].
  destruct (DamageVisuals.color mat) as [col|]; [|by left].
  destruct (health (userData m)) as [h|]; [|by left].
  destruct (maxHealth (userData m)) as [mh|]; [|by left].
  destruct (JS.leb mh 0) eqn:Hle; [by left|].
  right. exists h, mh. apply leb_gt in Hle. by repeat split.
Qed.

Lemma applyDamageVisuals_run em pt id m d lk mid mat col h mh :
  DamageVisuals.looks pt !! id = Some lk ->
  DamageVisuals.material lk = Some mid ->
  DamageVisuals.mats pt !! mid = Some mat ->
  DamageVisuals.color mat = Some col ->
  health (userData m) = Some h ->
  maxHealth (userData m) = Some mh ->
  0 < mh ->
  let cl := DamageVisuals.cloneForDamageState getHex globals pt lk mid mat col in
  fst (applyDamageVisuals em pt id m d)
  = DamageVisuals.mkPaint
      (<[DamageVisuals.c_material cl :=
           DamageVisuals.mkMaterial
             (Some (DamageVisuals.tintOf ofHex (DamageVisuals.c_hex cl) h mh))]>
         (DamageVisuals.c_mats cl))
      (<[id := DamageVisuals.mkLook (DamageVisuals.isMesh lk)
                 (Some (DamageVisuals.c_material cl))
                 (DamageVisuals.c_flag cl) (DamageVisuals.c_hex cl)]>
         (DamageVisuals.looks pt)).
Proof.
  intros Hlk Hmid Hmat Hcol Hh Hmh Hpos. cbv zeta.
  unfold DamageVisuals.applyDamageVisuals.
  rewrite Hlk, Hmid, Hmat, Hcol, Hh, Hmh.
  apply leb_gt in Hpos. rewrite Hpos. reflexivity.
Qed.

(** X28.  Damage tints do not compound: once the global materials are
    live objects, the materials and looks after two calls of
    applyDamageVisuals on a mesh are those after the second call alone,
    whatever the health was at the first. *)
Theorem applyDamageVisuals_no_compounding (em : bool)
    (pt : DamageVisuals.Paint) (id : nat) (m m' : Object3D) (d d' : Q)
    (h' mh' : Q) :
  (forall g, g ∈ globals -> is_Some (DamageVisuals.mats pt !! g)) ->
  health (userData m') = Some h' ->
  maxHealth (userData m') = Some mh' ->
  0 < mh' ->
  fst (applyDamageVisuals em (fst (applyDamageVisuals em pt id m d)) id m' d')
  = fst (applyDamageVisuals em pt id m' d').
Proof.
  intros Hglob Hh' Hmh' Hpos.
  destruct (applyDamageVisuals_cases em pt id m d) as [-> | (h & mh & Hh & Hmh & Hp)];
    [reflexivity|].
  destruct (DamageVisuals.colorOf pt id) as [col|] eqn:Hc.
  2: { rewrite (applyDamageVisuals_skip_look em pt id m d Hc). reflexivity. }
  unfold DamageVisuals.colorOf in Hc.
  destruct (DamageVisuals.looks pt !! id) as [lk|] eqn:Hlk; [|discriminate].
  cbn [mbind option_bind] in Hc.
  destruct (DamageVisuals.material lk) as [mid|] eqn:Hmid; [|discriminate].
  cbn [mbind option_bind] in Hc.
  destruct (DamageVisuals.mats pt !! mid) as [mat|] eqn:Hmat; [|discriminate].
  cbn [mbind option_bind] in Hc.
  rewrite (applyDamageVisuals_run em pt id m' d' lk mid mat col h' mh'
             Hlk Hmid Hmat Hc Hh' Hmh' Hpos).
  rewrite (applyDamageVisuals_run em pt id m d lk mid mat col h mh
             Hlk Hmid Hmat Hc Hh Hmh Hp).
  set (cl := DamageVisuals.cloneForDamageState getHex globals pt lk mid mat col).
  assert (Hflag : DamageVisuals.c_flag cl = true)
    by apply cloneForDamageState_flag.
  assert (Hown : DamageVisuals.c_material cl ∉ globals).
  { intros Hin.
    destruct (cloneForDamageState_own pt lk mid mat col
                (DamageVisuals.c_material cl) (Hglob _ Hin)) as [Hne _];
      [by left|].
    by apply Hne. }
  set (t := DamageVisuals.tintOf ofHex (DamageVisuals.c_hex cl) h mh).
  set (lk1 := DamageVisuals.mkLook (DamageVisuals.isMesh lk)
                (Some (DamageVisuals.c_material cl)) (DamageVisuals.c_flag cl)
                (DamageVisuals.c_hex cl)).
  rewrite (applyDamageVisuals_run em _ id m' d' lk1 (DamageVisuals.c_material cl)
             (DamageVisuals.mkMaterial (Some t)) t h' mh');
    try assumption; try reflexivity;
    [|apply lookup_insert_eq | apply lookup_insert_eq].
  rewrite cloneForDamageState_again; [|exact Hflag | exact Hown].
  cbn [DamageVisuals.c_material DamageVisuals.c_hex DamageVisuals.c_mats
       DamageVisuals.c_flag DamageVisuals.mats DamageVisuals.looks
       DamageVisuals.isMesh DamageVisuals.originalMaterialBaseColorHex lk1].
  rewrite !insert_insert_eq. subst lk1. rewrite Hflag. reflexivity.
Qed.

Lemma existsb_eq {A : Type} (f g : A -> bool) (l : list A) :
  (forall a, f a = g a) -> existsb f l = existsb g l.
Proof.
  intros H. induction l as [|a l IH]; [reflexivity|].
  cbn [existsb]. by rewrite H, IH.
Qed.

Lemma setColor_looks x c pt :
  DamageVisuals.looks (DamageVisuals.setColor x c pt) = DamageVisuals.looks pt.
Proof.
  unfold DamageVisuals.setColor.
  destruct (DamageVisuals.looks pt !! x) as [lk|]; [|reflexivity].
  destruct (DamageVisuals.material lk) as [mid|]; [|reflexivity].
  destruct (DamageVisuals.mats pt !! mid) as [[[col|]]|]; reflexivity.
Qed.

Lemma setColor_mats x c pt k :
  DamageVisuals.mats (DamageVisuals.setColor x c pt) !! k
  = if paints pt x k then Some (DamageVisuals.mkMaterial (Some c))
    else DamageVisuals.mats pt !! k.
Proof.
  unfold DamageVisuals.setColor, paints.
  destruct (DamageVisuals.looks pt !! x) as [lk|]; [|reflexivity].
  cbn [mbind option_bind].
  destruct (DamageVisuals.material lk) as [mid|]; [|reflexivity].
  destruct (decide (mid = k)) as [->|Hne].
  - rewrite bool_decide_eq_true_2 by reflexivity. cbn [andb].
    destruct (DamageVisuals.mats pt !! k) as [[[col|]]|] eqn:Hk;
      cbn [mbind option_bind DamageVisuals.color DamageVisuals.mats].
    + rewrite bool_decide_eq_true_2 by (by eexists).
      apply lookup_insert_eq.
    + rewrite bool_decide_eq_false_2 by (intros [? ?]; discriminate).
      exact Hk.
    + rewrite bool_decide_eq_false_2 by (intros [? ?]; discriminate).
      exact Hk.
  - rewrite bool_decide_eq_false_2 by congruence. cbn [andb].
    destruct (DamageVisuals.mats pt !! mid) as [[[col|]]|];
      cbn [DamageVisuals.mats]; try reflexivity.
    by apply lookup_insert_ne.
Qed.

Lemma paints_setColor x c pt y k :
  paints (DamageVisuals.setColor x c pt) y k = paints pt y k.
Proof.
  unfold paints at 1. rewrite setColor_looks, setColor_mats.
  destruct (paints pt x k) eqn:Hx; [|reflexivity].
  unfold paints in *. apply andb_true_iff in Hx as [_ Hx]. rewrite Hx.
  rewrite andb_true_r.
  destruct (bool_decide (_ = Some k)); [|reflexivity].
  cbn [andb mbind option_bind DamageVisuals.color].
  first [reflexivity | apply bool_decide_eq_true_2; by eexists].
Qed.

Lemma fold_setColor (L : list (nat * Color)) : forall pt,
  let pt' := fold_left (fun pt '(x, c) => DamageVisuals.setColor x c pt) L pt in
  DamageVisuals.looks pt' = DamageVisuals.looks pt /\
  (forall y k, paints pt' y k = paints pt y k) /\
  (forall f k,
     (forall x c, (x, c) ∈ L -> paints pt x k = true -> c = f k) ->
     DamageVisuals.mats pt' !! k
     = if existsb (fun x => paints pt x k) (L.*1)
       then Some (DamageVisuals.mkMaterial (Some (f k)))
       else DamageVisuals.mats pt !! k).
Proof.
  induction L as [|[x c] L IH]; intros pt; cbv zeta.
  - repeat split; reflexivity.
  - cbn [fold_left]. destruct (IH (DamageVisuals.setColor x c pt))
      as (Hl & Hp & Hm). cbv zeta in Hl, Hp, Hm.
    split; [by rewrite Hl, setColor_looks|].
    split; [intros y k; by rewrite Hp, paints_setColor|].
    intros f k Hf. rewrite (Hm f k).
    + change (((x, c) :: L).*1) with (x :: L.*1). cbn [existsb].
      assert (E : existsb (fun x0 => paints (DamageVisuals.setColor x c pt) x0 k)
                    (L.*1)
                  = existsb (fun x0 => paints pt x0 k) (L.*1)).
      { apply existsb_eq. intros a. apply paints_setColor. }
      rewrite E.
      match goal with
      | |- context [existsb ?p ?l] => destruct (existsb p l)
      end; [by rewrite orb_true_r|].
      rewrite orb_false_r, setColor_mats.
      destruct (paints pt x k) eqn:Hx; [|reflexivity].
      rewrite (Hf x c); [reflexivity | apply elem_of_cons; by left | exact Hx].
    + intros x0 c0 Hin Hx0. rewrite paints_setColor in Hx0.
      apply (Hf x0 c0); [apply elem_of_cons; by right | exact Hx0].
Qed.

Lemma colorOf_paints pt x k :
  paints pt x k = true ->
  DamageVisuals.colorOf pt x = DamageVisuals.mats pt !! k ≫= DamageVisuals.color.
Proof.
  unfold paints, DamageVisuals.colorOf. intros H.
  apply andb_true_iff in H as [H _]. apply bool_decide_eq_true in H.
  destruct (DamageVisuals.looks pt !! x) as [lk|]; [|discriminate].
  cbn [mbind option_bind] in *. rewrite H. reflexivity.
Qed.

Lemma meshesToChange_coloured pt isGroup id visited x :
  x ∈ DamageVisuals.meshesToChange pt isGroup id visited ->
  is_Some (DamageVisuals.colorOf pt x).
Proof.
  unfold DamageVisuals.meshesToChange. destruct isGroup.
  - intros H. apply list_elem_of_In, List.filter_In in H as [_ H].
    destruct (DamageVisuals.looks pt !! x); [|discriminate].
    apply andb_true_iff in H as [_ H]. by apply bool_decide_eq_true in H.
  - destruct (bool_decide _) eqn:H; [|by intros ?%elem_of_nil].
    intros ->%list_elem_of_singleton. by apply bool_decide_eq_true in H.
Qed.

Lemma saved_colours pt (meshes : list nat) :
  (forall x, x ∈ meshes -> is_Some (DamageVisuals.colorOf pt x)) ->
  let saved := omap (fun mesh => c ← DamageVisuals.colorOf pt mesh;
                                 Some (mesh, c)) meshes in
  saved.*1 = meshes /\
  forall x c, (x, c) ∈ saved -> DamageVisuals.colorOf pt x = Some c.
Proof.
  induction meshes as [|x meshes IH]; intros Hall; cbv zeta.
  - split; [reflexivity | by intros x c ?%elem_of_nil].
  - destruct (Hall x) as [c Hc]; [apply elem_of_cons; by left|].
    destruct IH as [IH1 IH2].
    { intros y Hy. apply Hall, elem_of_cons. by right. }
    cbn [omap list_omap]. rewrite Hc. cbn [mbind option_bind].
    split; [cbn [fmap list_fmap fst]; f_equal; exact IH1|].
    intros y cy [E | Hin]%elem_of_cons.
    + by injection E as -> ->.
    + by apply IH2.
Qed.

Lemma fold_flash (c : Color) (meshes : list nat) : forall pt,
  fold_left (fun pt mesh => DamageVisuals.setColor mesh c pt) meshes pt
  = fold_left (fun pt '(x, c) => DamageVisuals.setColor x c pt)
      ((fun x => (x, c)) <$> meshes) pt.
Proof.
  induction meshes as [|x meshes IH]; intros pt; [reflexivity|].
  cbn [fold_left fmap list_fmap]. apply IH.
Qed.

(** X29.  The flash of showDamageIndication is undone by its timer: when
    the callback runs on the materials the call left, every material and
    every look is as before the call, whether the target is a mesh or a
    group, and also when several meshes share a material. *)
Theorem showDamageIndication_reset (effectsManager : bool)
    (pt : DamageVisuals.Paint) (isGroup : bool) (id : nat)
    (visited : list nat) (m : Object3D) (damage : Q) :
  let r := DamageVisuals.showDamageIndication ofHex effectsManager pt isGroup
             id visited m damage in
  DamageVisuals.resetColors (snd r) (fst (fst r)) = pt.
Proof.
  cbv zeta. unfold DamageVisuals.showDamageIndication.
  destruct effectsManager; cbn [negb fst snd]; [|reflexivity].
  set (meshes := DamageVisuals.meshesToChange pt isGroup id visited).
  set (hexc := ofHex _).
  destruct (saved_colours pt meshes) as [Hfst Hsaved].
  { intros x. apply meshesToChange_coloured. }
  cbv zeta in Hfst, Hsaved.
  set (saved := omap _ meshes) in *.
  unfold DamageVisuals.resetColors. rewrite fold_flash.
  set (pt1 := fold_left _ ((fun x => (x, hexc)) <$> meshes) pt).
  destruct (fold_setColor ((fun x => (x, hexc)) <$> meshes) pt)
    as (Hl1 & Hp1 & Hm1). cbv zeta in Hl1, Hp1, Hm1. fold pt1 in Hl1, Hp1, Hm1.
  destruct (fold_setColor saved pt1) as (Hl2 & Hp2 & Hm2).
  cbv zeta in Hl2, Hp2, Hm2.
  set (pt2 := fold_left _ saved pt1) in *.
  assert (Hlooks : DamageVisuals.looks pt2 = DamageVisuals.looks pt)
    by (by rewrite Hl2, Hl1).
  assert (Hmats : DamageVisuals.mats pt2 = DamageVisuals.mats pt).
  { apply map_eq. intros k.
    rewrite (Hm2 (fun k => default DamageVisuals.white
                             (DamageVisuals.mats pt !! k
                                ≫= DamageVisuals.color)) k).
    - rewrite Hfst.
      assert (E : existsb (fun x => paints pt1 x k) meshes
                  = existsb (fun x => paints pt x k) meshes).
      { apply existsb_eq. intros a. apply Hp1. }
      rewrite E. clear E.
      destruct (existsb (fun x => paints pt x k) meshes) eqn:Hex.
      + apply existsb_exists in Hex as (x & _ & Hx).
        unfold paints in Hx. apply andb_true_iff in Hx as [_ Hx].
        apply bool_decide_eq_true in Hx as [c Hc].
        destruct (DamageVisuals.mats pt !! k) as [[col]|];
          cbn [mbind option_bind DamageVisuals.color] in *; [|discriminate].
        subst col. reflexivity.
      + rewrite (Hm1 (fun _ => hexc) k).
        * assert (E2 : (((fun x => (x, hexc)) <$> meshes).*1) = meshes).
          { rewrite <- list_fmap_compose. apply list_fmap_id. }
          rewrite E2, Hex. reflexivity.
        * intros x c Hin _. apply list_elem_of_fmap in Hin as (y & E' & _).
          by injection E' as _ ->.
    - intros x c Hin Hx. rewrite Hp1 in Hx.
      apply Hsaved in Hin. rewrite (colorOf_paints pt x k Hx) in Hin.
      by rewrite Hin. }
  destruct pt2 as [ms2 ls2], pt as [ms ls]. cbn in Hlooks, Hmats.
  by rewrite Hlooks, Hmats.
Qed.

Lemma colorOf_setColor pt id c :
  is_Some (DamageVisuals.colorOf pt id) ->
  DamageVisuals.colorOf (DamageVisuals.setColor id c pt) id = Some c.
Proof.
  intros Hsome. unfold DamageVisuals.colorOf in *. rewrite setColor_looks.
  destruct (DamageVisuals.looks pt !! id) as [lk|] eqn:Hlk;
    cbn [mbind option_bind] in *; [|by destruct Hsome].
  destruct (DamageVisuals.material lk) as [mid|] eqn:Hmid;
    cbn [mbind option_bind] in *; [|by destruct Hsome].
  rewrite setColor_mats.
  assert (Hp : paints pt id mid = true).
  { unfold paints. rewrite Hlk. cbn [mbind option_bind]. rewrite Hmid.
    rewrite bool_decide_eq_true_2 by reflexivity.
    by apply bool_decide_eq_true_2. }
  rewrite Hp. reflexivity.
Qed.

Lemma showDamageIndication_mesh pt id visited m d c0 :
  DamageVisuals.colorOf pt id = Some c0 ->
  DamageVisuals.showDamageIndication ofHex true pt false id visited m d
  = (DamageVisuals.setColor id
       (ofHex (DamageVisuals.getDamageColor
                 (DamageVisuals.div (health (userData m))
                    (maxHealth (userData m))))) pt,
     Some (Vec.add (position m) (mkVector3 0 2 0), d),
     [(id, c0)]).
Proof.
  intros Hc0. unfold DamageVisuals.showDamageIndication.
  cbn [negb]. unfold DamageVisuals.meshesToChange.
  rewrite bool_decide_eq_true_2 by (by eexists).
  cbn [omap list_omap fold_left]. rewrite Hc0. reflexivity.
Qed.

(** X30.  Flashes that overlap do not undo each other: when a mesh with a
    coloured material is hit a second time before the timer of the first
    hit has run, then after both timers the mesh wears the damage colour
    of the first hit, not the colour it had before. *)
Theorem showDamageIndication_overlap (pt : DamageVisuals.Paint) (id : nat)
    (visited : list nat) (m1 m2 : Object3D) (d1 d2 : Q) :
  is_Some (DamageVisuals.colorOf pt id) ->
  let r1 := DamageVisuals.showDamageIndication ofHex true pt false id visited
              m1 d1 in
  let r2 := DamageVisuals.showDamageIndication ofHex true (fst (fst r1)) false
              id visited m2 d2 in
  DamageVisuals.colorOf
    (DamageVisuals.resetColors (snd r2)
       (DamageVisuals.resetColors (snd r1) (fst (fst r2)))) id
  = Some (ofHex (DamageVisuals.getDamageColor
                   (DamageVisuals.div (health (userData m1))
                      (maxHealth (userData m1))))).
Proof.
  intros [c0 Hc0]. cbv zeta.
  rewrite (showDamageIndication_mesh pt id visited m1 d1 c0 Hc0).
  cbn [fst snd].
  set (hex1 := ofHex (DamageVisuals.getDamageColor
                        (DamageVisuals.div (health (userData m1))
                           (maxHealth (userData m1))))).
  assert (H1 : DamageVisuals.colorOf (DamageVisuals.setColor id hex1 pt) id
               = Some hex1).
  { apply colorOf_setColor. by eexists. }
  rewrite (showDamageIndication_mesh _ id visited m2 d2 hex1 H1).
  cbn [fst snd]. unfold DamageVisuals.resetColors. cbn [fold_left].
  apply colorOf_setColor.
  rewrite colorOf_setColor; [by eexists|].
  rewrite colorOf_setColor; [by eexists|].
  by eexists.
Qed.

End Visuals.

(** Witnesses for the pool and the damage visuals. *)

Lemma step_keeps_inside_witness :
  let p := PhysicsPool.position (PhysicsPool.step Qsqrt (1 / 30) ball_out) in
  PhysicsPool.minX + 1 <= vec_x p /\ vec_x p <= PhysicsPool.maxX - 1 /\
  PhysicsPool.minZ + 1 <= vec_z p /\ vec_z p <= PhysicsPool.maxZ - 1 /\
  PhysicsPool.ground + 1 <= vec_y p.
Proof.
  apply (step_keeps_inside Qsqrt (1 / 30) ball_out).
  - reflexivity.
  - reflexivity.
  - vm_compute. discriminate.
Defined.

Lemma checkCollisions_rebound_witness :
  0 <= vec_x (PhysicsPool.velocity (fst (PhysicsPool.checkCollisions ball_out))).
Proof.
  destruct (checkCollisions_rebound ball_out) as (Hx & _).
  - vm_compute. discriminate.
  - apply Hx. vm_compute. discriminate.
Defined.

Lemma resolveCollision_conserves_witness :
  let a := fst (PhysicsPool.resolveCollision Qsqrt ball_A ball_B 1 2) in
  let b := snd (PhysicsPool.resolveCollision Qsqrt ball_A ball_B 1 2) in
  Vec.eqv
    (Vec.add (Vec.multiplyScalar (PhysicsPool.velocity a) 1)
             (Vec.multiplyScalar (PhysicsPool.velocity b) 3))
    (Vec.add (Vec.multiplyScalar (PhysicsPool.velocity ball_A) 1)
             (Vec.multiplyScalar (PhysicsPool.velocity ball_B) 3)).
Proof.
  destruct (resolveCollision_conserves Qsqrt ball_A ball_B 1 2) as (H & _).
  - reflexivity.
  - reflexivity.
  - reflexivity.
  - reflexivity.
  - exact H.
Defined.

Lemma resolveCollision_restitution_witness :
  let normal :=
    Vec.normalize Qsqrt
      (Vec.sub (PhysicsPool.position ball_B) (PhysicsPool.position ball_A)) in
  let a := fst (PhysicsPool.resolveCollision Qsqrt ball_A ball_B 1 2) in
  let b := snd (PhysicsPool.resolveCollision Qsqrt ball_A ball_B 1 2) in
  Vec.dot (Vec.sub (PhysicsPool.velocity b) (PhysicsPool.velocity a)) normal
  == - Qmin 0.6 0.3
     * Vec.dot (Vec.sub (PhysicsPool.velocity ball_B)
                  (PhysicsPool.velocity ball_A)) normal.
Proof.
  apply (resolveCollision_restitution Qsqrt ball_A ball_B 1 2).
  - reflexivity.
  - reflexivity.
  - reflexivity.
  - reflexivity.
  - vm_compute. reflexivity.
  - vm_compute. discriminate.
Defined.


Lemma calculateCatapultPower_range_witness :
  Utils.calculateCatapultPower 50 == 10 + 50 * 50 / 500 /\
  10 <= Utils.calculateCatapultPower 50 /\
  Utils.calculateCatapultPower 50 <= Utils.calculateCatapultPower 100 /\
  Utils.calculateCatapultPower 100 <= 30.
Proof.
  apply (calculateCatapultPower_range 50 100).
  - vm_compute. discriminate.
  - vm_compute. discriminate.
  - vm_compute. discriminate.
Defined.

Lemma applyDamageVisuals_spares_shared_witness :
  DamageVisuals.mats
    (fst (DamageVisuals.applyDamageVisuals DamageVisuals.hexColor
            DamageVisuals.colorHex [10%nat] true paint_shared 1 wall_half 30))
  !! 10%nat
  = DamageVisuals.mats paint_shared !! 10%nat.
Proof.
  apply (applyDamageVisuals_spares_shared DamageVisuals.hexColor
           DamageVisuals.colorHex [10%nat] true paint_shared 1 wall_half 30
           10).
  - eexists. reflexivity.
  - left. apply list_elem_of_singleton. reflexivity.
Defined.

Lemma applyDamageVisuals_no_compounding_witness :
  fst (DamageVisuals.applyDamageVisuals DamageVisuals.hexColor
         DamageVisuals.colorHex [10%nat] true
         (fst (DamageVisuals.applyDamageVisuals DamageVisuals.hexColor
                 DamageVisuals.colorHex [10%nat] true paint_shared 1
                 wall_half 30))
         1 wall_quarter 50)
  = fst (DamageVisuals.applyDamageVisuals DamageVisuals.hexColor
           DamageVisuals.colorHex [10%nat] true paint_shared 1
           wall_quarter 50).
Proof.
  apply (applyDamageVisuals_no_compounding DamageVisuals.hexColor
           DamageVisuals.colorHex [10%nat] true paint_shared 1 wall_half
           wall_quarter 30 50 50 200).
  - intros g Hg. apply list_elem_of_singleton in Hg. subst g.
    eexists. reflexivity.
  - reflexivity.
  - reflexivity.
  - reflexivity.
Defined.

Lemma showDamageIndication_overlap_witness :
  let r1 := DamageVisuals.showDamageIndication DamageVisuals.hexColor true
              paint_shared false 1 [] wall_half 30 in
  let r2 := DamageVisuals.showDamageIndication DamageVisuals.hexColor true
              (fst (fst r1)) false 1 [] wall_quarter 50 in
  DamageVisuals.colorOf
    (DamageVisuals.resetColors (snd r2)
       (DamageVisuals.resetColors (snd r1) (fst (fst r2)))) 1
  = Some (DamageVisuals.hexColor 16737894).
Proof.
  apply (showDamageIndication_overlap DamageVisuals.hexColor paint_shared 1 []
           wall_half wall_quarter 30 50).
  eexists. reflexivity.
Defined.
